(** * Off-chain execution engine: matching, execution, wallets, proofs, sync

    A shallow embedding of the JavaScript sources of the order-book executor
    (db.js, public.read.server.js, write.routes.js, executor.multi.js,
    executor/proofClient.js, executor/walletPool.js, sync.js) and the
    properties of its specification that were checked against it. *)

From Stdlib Require Import ZArith QArith Qround String Ascii List Lia.
From stdpp Require Import base option list gmap strings pretty fin_maps sorting.

Open Scope Z_scope.

(** ** JavaScript values and the built-ins the sources call *)

Module JS.

(** A JavaScript number: every finite double is a rational. *)
Inductive jsnum : Type :=
| NaN : jsnum
| Inf (negative : bool) : jsnum
| Fin (q : Q) : jsnum.

(** The values that reach the modelled functions: JSON values, plus
    [undefined] for an absent property. An object or array is carried with
    the string its ToPrimitive conversion produces. *)
Inductive jsval : Type :=
| JUndefined : jsval
| JNull : jsval
| JBool (b : bool) : jsval
| JNum (n : jsnum) : jsval
| JStr (s : string) : jsval
| JObj (prim : string) : jsval.

(** What a throwing function throws. *)
Inductive exn : Type :=
| SyntaxError (msg : string)
| Error (msg : string) (status : option Z).

Inductive completion (A : Type) : Type :=
| Normal (a : A)
| Throw (e : exn).
Arguments Normal {A} a.
Arguments Throw {A} e.

#[global] Instance completion_ret : MRet completion := fun A a => Normal a.
#[global] Instance completion_bind : MBind completion := fun A B f c =>
  match c with
  | Normal a => f a
  | Throw e => Throw e
  end.

#[global] Instance completion_fmap : FMap completion := fun A C f c =>
  match c with
  | Normal a => Normal (f a)
  | Throw e => Throw e
  end.

(** *** Strings *)

(** WhiteSpace and LineTerminator code units below 256. *)
Definition isWhiteSpace (c : ascii) : bool :=
  match N_of_ascii c with
  | 9 | 10 | 11 | 12 | 13 | 32 | 160 => true
  | _ => false
  end%N.

Definition isDigit (c : ascii) : bool :=
  (48 <=? N_of_ascii c)%N && (N_of_ascii c <=? 57)%N.

Definition digitValue (c : ascii) : Z := Z.of_N (N_of_ascii c) - 48.

Fixpoint trimStart (s : string) : string :=
  match s with
  | String c r => if isWhiteSpace c then trimStart r else s
  | EmptyString => EmptyString
  end.

Fixpoint trimEnd (s : string) : string :=
  match s with
  | String c r =>
      match trimEnd r with
      | EmptyString => if isWhiteSpace c then EmptyString else String c EmptyString
      | r' => String c r'
      end
  | EmptyString => EmptyString
  end.

(** [s.trim()] *)
Definition trim (s : string) : string := trimEnd (trimStart s).

(** [s.startsWith(p)] *)
Fixpoint startsWith (p s : string) : bool :=
  match p with
  | EmptyString => true
  | String a p' =>
      match s with
      | String b s' => Ascii.eqb a b && startsWith p' s'
      | EmptyString => false
      end
  end.



(** [s.split(sep)] for a one-character separator *)
Fixpoint split (sep : ascii) (s : string) : list string :=
  match s with
  | EmptyString => [EmptyString]
  | String c r =>
      if Ascii.eqb c sep then EmptyString :: split sep r
      else match split sep r with
           | h :: t => String c h :: t
           | [] => [String c EmptyString]
           end
  end.

(** [s.toLowerCase()] on code units below 256 *)
Definition lowerChar (c : ascii) : ascii :=
  let n := N_of_ascii c in
  if ((65 <=? n) && (n <=? 90) || (192 <=? n) && (n <=? 222) && negb (n =? 215))%N
  then ascii_of_N (n + 32) else c.

Fixpoint toLowerCase (s : string) : string :=
  match s with
  | String c r => String (lowerChar c) (toLowerCase r)
  | EmptyString => EmptyString
  end.

Definition nonEmpty (s : string) : bool :=
  match s with
  | EmptyString => false
  | String _ _ => true
  end.

(** [s || d] on strings: the empty string is falsy. *)
Definition strOr (s d : string) : string := if nonEmpty s then s else d.


(** *** Decimal numerals *)

Fixpoint allDigits (s : string) : bool :=
  match s with
  | String c r => isDigit c && allDigits r
  | EmptyString => true
  end.

Fixpoint decValueFrom (acc : Z) (s : string) : Z :=
  match s with
  | String c r => decValueFrom (acc * 10 + digitValue c) r
  | EmptyString => acc
  end.

(** The number a string of decimal digits denotes. *)
Definition decValue (s : string) : Z := decValueFrom 0 s.


Fixpoint noWhiteSpace (s : string) : bool :=
  match s with
  | String c r => negb (isWhiteSpace c) && noWhiteSpace r
  | EmptyString => true
  end.




(** *** BigInt(string): StringToBigInt *)

Definition digitInBase (base : Z) (c : ascii) : option Z :=
  let n := Z.of_N (N_of_ascii c) in
  let v := if (48 <=? n) && (n <=? 57) then Some (n - 48)
           else if (97 <=? n) && (n <=? 122) then Some (n - 87)
           else if (65 <=? n) && (n <=? 90) then Some (n - 55)
           else None in
  match v with
  | Some d => if d <? base then Some d else None
  | None => None
  end.

Fixpoint parseDigitsFrom (base : Z) (acc : Z) (s : string) : option Z :=
  match s with
  | EmptyString => Some acc
  | String c r =>
      match digitInBase base c with
      | Some d => parseDigitsFrom base (acc * base + d) r
      | None => None
      end
  end.

(** One or more digits of the base. *)
Definition parseDigits (base : Z) (s : string) : option Z :=
  if nonEmpty s then parseDigitsFrom base 0 s else None.

(** StrIntegerLiteral: a signed decimal integer or an unsigned literal with
    a 0x, 0o or 0b prefix. *)
Definition parseIntegerLiteral (t : string) : option Z :=
  match t with
  | String c r =>
      if Ascii.eqb c "+" then parseDigits 10 r
      else if Ascii.eqb c "-" then Z.opp <$> parseDigits 10 r
      else if Ascii.eqb c "0" then
        match r with
        | String p d =>
            if Ascii.eqb p "x" || Ascii.eqb p "X" then parseDigits 16 d
            else if Ascii.eqb p "o" || Ascii.eqb p "O" then parseDigits 8 d
            else if Ascii.eqb p "b" || Ascii.eqb p "B" then parseDigits 2 d
            else parseDigits 10 t
        | EmptyString => parseDigits 10 t
        end
      else parseDigits 10 t
  | EmptyString => None
  end.

Definition StringToBigInt (s : string) : option Z :=
  let t := trim s in
  if nonEmpty t then parseIntegerLiteral t else Some 0.

(** [BigInt(s)] on a string *)
Definition BigInt (s : string) : completion Z :=
  match StringToBigInt s with
  | Some z => Normal z
  | None => Throw (SyntaxError ("Cannot convert " +:+ s +:+ " to a BigInt"))
  end.

(** *** Numbers *)

(** The double nearest to an integer (ties to even), as [Number(bigint)]
    and the reading of an integer literal compute it. *)
Definition roundToDouble (z : Z) : jsnum :=
  let a := Z.abs z in
  let n := Z.log2 a in
  if n <? 53 then Fin (inject_Z z)
  else
    let sh := n - 52 in
    let q := Z.shiftr a sh in
    let r := Z.land a (Z.ones sh) in
    let half := Z.shiftl 1 (sh - 1) in
    let q' := if (half <? r) || ((r =? half) && Z.odd q) then q + 1 else q in
    let v := Z.shiftl q' sh in
    if Z.shiftl 1 1024 <=? v then Inf (z <? 0)
    else Fin (inject_Z (Z.sgn z * v)).

Definition BigIntToNumber (bi : Z) : jsnum := roundToDouble bi.

(** [Math.trunc] of a finite number, as an integer. *)
Definition truncQ (q : Q) : Z := Z.quot (Qnum q) (Zpos (Qden q)).

(** [Number.isFinite] *)
Definition isFinite (n : jsnum) : bool :=
  match n with
  | Fin _ => true
  | _ => false
  end.

(** [n >= k] *)
Definition numGe (n : jsnum) (k : Z) : bool :=
  match n with
  | NaN => false
  | Inf neg => negb neg
  | Fin q => Qle_bool (inject_Z k) q
  end.

(** [q] is an integer *)
Definition isIntegerQ (q : Q) : bool := (Z.rem (Qnum q) (Zpos (Qden q)) =? 0).

(** [Math.trunc(n)] of a finite number; the callers test finiteness first. *)
Definition trunc (n : jsnum) : Z :=
  match n with
  | Fin q => truncQ q
  | _ => 0
  end.

(** [Math.round(n)] of a finite number: the floor of [n + 1/2]. *)
Definition round (n : jsnum) : Z :=
  match n with
  | Fin q => Qfloor (q + (1 # 2))
  | _ => 0
  end.

(** [o.k] on a parsed JSON object or a query object: an absent property
    reads as [undefined]. *)
Definition prop (o : gmap string jsval) (k : string) : jsval :=
  default JUndefined (o !! k).

(** [v === undefined || v === null] *)
Definition isNullish (v : jsval) : bool :=
  match v with
  | JUndefined | JNull => true
  | _ => false
  end.

(** [q] is not zero *)
Definition nonZeroQ (q : Q) : bool := negb (Qnum q =? 0).

(** ToBoolean: what [v || d], [!v] and [if (v)] test. *)
Definition truthy (v : jsval) : bool :=
  match v with
  | JUndefined | JNull => false
  | JBool b => b
  | JNum NaN => false
  | JNum (Inf _) => true
  | JNum (Fin q) => nonZeroQ q
  | JStr s => nonEmpty s
  | JObj _ => true
  end.

(** The conversions the model does not compute: a numeric string that is not
    a plain signed decimal integer (fractions, exponents, radix prefixes,
    "Infinity"), the printing of a number that is not an integer below
    2^53 in magnitude, and floating-point multiplication. *)
Class Builtins : Type := {
  StringToNumberOther : string -> jsnum;
  NumberToStringOther : jsnum -> string;
  (** the product of two doubles, rounded to a double *)
  doubleMul : jsnum -> jsnum -> jsnum
}.

Section Conversions.
Context `{B : Builtins}.

(** [Number(s)] on a string *)
Definition StringToNumber (s : string) : jsnum :=
  let t := trim s in
  match t with
  | EmptyString => Fin 0
  | String c r =>
      let signed :=
        if Ascii.eqb c "+" then parseDigits 10 r
        else if Ascii.eqb c "-" then Z.opp <$> parseDigits 10 r
        else parseDigits 10 t in
      match signed with
      | Some z => roundToDouble z
      | None => StringToNumberOther t
      end
  end.

(** [Number(v)] *)
Definition Number (v : jsval) : jsnum :=
  match v with
  | JUndefined => NaN
  | JNull => Fin 0
  | JBool b => if b then Fin 1 else Fin 0
  | JNum n => n
  | JStr s => StringToNumber s
  | JObj prim => StringToNumber prim
  end.

(** [String(n)] on a number *)
Definition NumberToString (n : jsnum) : string :=
  match n with
  | NaN => "NaN"
  | Inf neg => if neg then "-Infinity" else "Infinity"
  | Fin q =>
      if isIntegerQ q && (Z.abs (truncQ q) <? 2 ^ 53)
      then pretty (truncQ q)
      else NumberToStringOther n
  end.

(** [String(v)] *)
Definition ToString (v : jsval) : string :=
  match v with
  | JUndefined => "undefined"
  | JNull => "null"
  | JBool b => if b then "true" else "false"
  | JNum n => NumberToString n
  | JStr s => s
  | JObj prim => prim
  end.

End Conversions.

(** An instance for evaluating the model on examples: outside the computed
    fragment every string reads as NaN and every number prints as NaN. *)
Definition sampleBuiltins : Builtins :=
  {| StringToNumberOther := fun _ => NaN;
     NumberToStringOther := fun _ => "NaN"%string;
     doubleMul := fun _ _ => NaN |}.

End JS.


(** ** Async functions on a single-threaded event loop

    An async function runs synchronously on the shared state, reading the
    clock, until it returns, throws, or awaits an external request; the
    continuation of an await later resumes on whatever the shared state
    then is. *)

Module Async.

Section Task.
Context {St Req Resp Exn : Type}.

Inductive step (A : Type) : Type :=
| Return (s : St) (a : A)
| Raise (s : St) (e : Exn)
| Await (s : St) (r : Req) (k : Resp -> St -> Z -> step A).
#[global] Arguments Return {A} s a.
#[global] Arguments Raise {A} s e.
#[global] Arguments Await {A} s r k.

(** A task runs from a shared state and a reading of [Date.now()]. *)
Definition task (A : Type) : Type := St -> Z -> step A.

Definition ret {A} (a : A) : task A := fun s _ => Return s a.

Fixpoint bind_step {A C} (now : Z) (x : step A) (f : A -> task C) : step C :=
  match x with
  | Return s a => f a s now
  | Raise s e => Raise s e
  | Await s r k => Await s r (fun resp s' now' => bind_step now' (k resp s' now') f)
  end.

Definition bind {A C} (t : task A) (f : A -> task C) : task C :=
  fun s now => bind_step now (t s now) f.

(** [throw e] *)
Definition throw {A} (e : Exn) : task A := fun s _ => Raise s e.

(** [await] of an external request *)
Definition await (r : Req) : task Resp :=
  fun s _ => Await s r (fun resp s' _ => Return s' resp).

(** [Date.now()] *)
Definition dateNow : task Z := fun s now => Return s now.

(** Reading and updating the variables the function closes over. *)
Definition get : task St := fun s _ => Return s s.
Definition modify (f : St -> St) : task unit := fun s _ => Return (f s) tt.

Fixpoint catch_step {A} (now : Z) (x : step A) (h : Exn -> task A) : step A :=
  match x with
  | Return s a => Return s a
  | Raise s e => h e s now
  | Await s r k => Await s r (fun resp s' now' => catch_step now' (k resp s' now') h)
  end.

(** [try { t } catch (e) { h e }] *)
Definition try_catch {A} (t : task A) (h : Exn -> task A) : task A :=
  fun s now => catch_step now (t s now) h.

(** *** One task against a script

    Each await of the task is answered by the next entry of the script:
    the response, the shared state at the resumption (other tasks may have
    changed it) and the clock then. *)

Inductive outcome (A : Type) : Type :=
| Finished (s : St) (a : A)
| Failed (s : St) (e : Exn)
| Pending (s : St) (r : Req).
#[global] Arguments Finished {A} s a.
#[global] Arguments Failed {A} s e.
#[global] Arguments Pending {A} s r.

Fixpoint exec {A} (x : step A) (script : list (Resp * St * Z)) : list Req * outcome A :=
  match x with
  | Return s a => ([], Finished s a)
  | Raise s e => ([], Failed s e)
  | Await s r k =>
      match script with
      | [] => ([r], Pending s r)
      | (resp, s', now') :: rest =>
          let '(tr, o) := exec (k resp s' now') rest in (r :: tr, o)
      end
  end.

(** What holds of every way a task can finish, whatever the responses
    and whatever the other tasks do to the shared state meanwhile. *)
Fixpoint ensures {A} (P : St -> A -> Prop) (x : step A) : Prop :=
  match x with
  | Return s a => P s a
  | Raise _ _ => True
  | Await _ _ k => forall resp s' now', ensures P (k resp s' now')
  end.

(** Every request the task can ever issue satisfies [ok]. *)
Fixpoint requests {A} (ok : Req -> Prop) (x : step A) : Prop :=
  match x with
  | Return _ _ | Raise _ _ => True
  | Await _ r k => ok r /\ forall resp s' now', requests ok (k resp s' now')
  end.

(** A view of the shared state that the task never changes: at every
    point where it yields, the view is what it was when the segment
    started. *)
Fixpoint stable {V A} (view : St -> V) (v : V) (x : step A) : Prop :=
  match x with
  | Return s _ | Raise s _ => view s = v
  | Await s _ k => view s = v /\ forall resp s' now', stable view (view s') (k resp s' now')
  end.

(** The shared state a step leaves behind when it yields. *)
Definition yielded {A} (x : step A) : St :=
  match x with
  | Return s _ | Raise s _ | Await s _ _ => s
  end.

(** *** The event loop

    Calls are numbered in the order they start. A call that awaits is
    parked with its request and continuation until its response is
    delivered; what a call throws is caught and logged by its caller. *)

Record loop : Type := {
  shared : St;
  parked : gmap nat (Req * (Resp -> St -> Z -> step unit));
  started : nat
}.

Inductive input : Type :=
| Call (t : task unit) (now : Z)
| Deliver (call : nat) (resp : Resp) (now : Z).

Definition settle (l : loop) (call : nat) (x : step unit) : loop * list (nat * Req) :=
  match x with
  | Return s _ | Raise s _ =>
      ({| shared := s; parked := delete call (parked l); started := started l |}, [])
  | Await s r k =>
      ({| shared := s; parked := <[call := (r, k)]> (parked l); started := started l |},
       [(call, r)])
  end.

(** One turn of the loop, with the requests it issues. *)
Definition turn (l : loop) (i : input) : loop * list (nat * Req) :=
  match i with
  | Call t now =>
      settle {| shared := shared l; parked := parked l; started := S (started l) |}
        (started l) (t (shared l) now)
  | Deliver call resp now =>
      match parked l !! call with
      | Some (_, k) => settle l call (k resp (shared l) now)
      | None => (l, [])
      end
  end.

Fixpoint turns (l : loop) (ins : list input) : loop * list (nat * Req) :=
  match ins with
  | [] => (l, [])
  | i :: rest =>
      let '(l', out) := turn l i in
      let '(l'', out') := turns l' rest in
      (l'', out ++ out')
  end.

Definition start (s : St) : loop := {| shared := s; parked := ∅; started := 0 |}.

End Task.

#[global] Arguments step : clear implicits.
#[global] Arguments task : clear implicits.
#[global] Arguments outcome : clear implicits.
#[global] Arguments loop : clear implicits.
#[global] Arguments input : clear implicits.

#[global] Instance task_ret {St Req Resp Exn} : MRet (task St Req Resp Exn) :=
  fun A a => ret a.
#[global] Instance task_bind {St Req Resp Exn} : MBind (task St Req Resp Exn) :=
  fun A C f t => bind t f.

End Async.

(** ** db.js *)

Module Db.

(** A row of the [trades] table without its primary key [id]; a nullable
    column is an [option]. [isLong] and [isLimit] hold 0 or 1. *)
Record row : Type := {
  trader : string;
  assetId : Z;
  isLong : Z;
  isLimit : Z;
  leverage : option Z;
  openPrice : option Z;
  state : option Z;
  openTimestamp : option Z;
  fundingIndex : option string;
  closePrice : option Z;
  lotSize : option Z;
  closedLotSize : Z;
  stopLoss : Z;
  takeProfit : Z;
  lpLockedCapital : option string;
  marginUsdc : option string
}.

(** The table, keyed by [id INTEGER PRIMARY KEY]. *)
Abbreviation table := (gmap Z row).

(** *** SQL's three-valued logic: [None] is NULL *)

Definition sqlbool : Type := option bool.

Definition sql_and (a b : sqlbool) : sqlbool :=
  match a, b with
  | Some false, _ | _, Some false => Some false
  | Some true, Some true => Some true
  | _, _ => None
  end.

Definition sql_or (a b : sqlbool) : sqlbool :=
  match a, b with
  | Some true, _ | _, Some true => Some true
  | Some false, Some false => Some false
  | _, _ => None
  end.

Definition sql_cmp (f : Z -> Z -> bool) (a b : option Z) : sqlbool :=
  match a, b with
  | Some x, Some y => Some (f x y)
  | _, _ => None
  end.

Definition sql_eq := sql_cmp Z.eqb.
Definition sql_ne := sql_cmp (fun x y => negb (Z.eqb x y)).
Definition sql_le := sql_cmp Z.leb.
Definition sql_ge := sql_cmp Z.geb.

(** A WHERE clause or a CASE WHEN condition selects on TRUE only. *)
Definition sql_true (c : sqlbool) : bool :=
  match c with
  | Some true => true
  | _ => false
  end.

Infix "AND" := sql_and (at level 40, left associativity).
Infix "OR" := sql_or (at level 50, left associativity).

(** [SELECT proj FROM trades WHERE cond]. Without ORDER BY a statement
    promises no order of its rows: they are listed here in the order of the
    map, which need not be the order of SQLite's scan. *)
Definition select {A} (tbl : table) (cond : row -> sqlbool) (proj : Z -> row -> A) : list A :=
  (fun ir => proj ir.1 ir.2) <$> filter (fun ir => sql_true (cond ir.2)) (map_to_list tbl).

(** [stmt.getTradeById.get(id)] *)
Definition getTradeById (tbl : table) (id : Z) : option row := tbl !! id.

(** *** [stmt.matchEntry]: five positional parameters *)

Definition matchEntry_where (p1 p2 p3 p4 p5 : Z) (r : row) : sqlbool :=
  sql_eq (Some (assetId r)) (Some p1)
  AND sql_eq (state r) (Some 0)
  AND ((sql_eq (Some (isLimit r)) (Some 1) AND
          ((sql_eq (Some (isLong r)) (Some 1) AND sql_le (Some p2) (openPrice r)) OR
           (sql_eq (Some (isLong r)) (Some 0) AND sql_ge (Some p3) (openPrice r))))
       OR
       (sql_eq (Some (isLimit r)) (Some 0) AND
          ((sql_eq (Some (isLong r)) (Some 1) AND sql_ge (Some p4) (openPrice r)) OR
           (sql_eq (Some (isLong r)) (Some 0) AND sql_le (Some p5) (openPrice r))))).

Definition matchEntry_kind (r : row) : string :=
  if sql_true (sql_eq (Some (isLimit r)) (Some 1)) then "limit" else "stop".

Definition matchEntry (tbl : table) (p1 p2 p3 p4 p5 : Z) : list (Z * string) :=
  select tbl (matchEntry_where p1 p2 p3 p4 p5) (fun id r => (id, matchEntry_kind r)).

(** *** [stmt.matchExits]: nine positional parameters, four in the CASE of
    the select list, then the asset and four in the WHERE clause *)

Definition stopLoss_fires (m1 m2 : Z) (r : row) : sqlbool :=
  sql_ne (Some (stopLoss r)) (Some 0) AND
    ((sql_eq (Some (isLong r)) (Some 1) AND sql_le (Some m1) (Some (stopLoss r))) OR
     (sql_eq (Some (isLong r)) (Some 0) AND sql_ge (Some m2) (Some (stopLoss r)))).

Definition takeProfit_fires (m1 m2 : Z) (r : row) : sqlbool :=
  sql_ne (Some (takeProfit r)) (Some 0) AND
    ((sql_eq (Some (isLong r)) (Some 1) AND sql_ge (Some m1) (Some (takeProfit r))) OR
     (sql_eq (Some (isLong r)) (Some 0) AND sql_le (Some m2) (Some (takeProfit r)))).

Definition matchExits_kind (p1 p2 p3 p4 : Z) (r : row) : option string :=
  if sql_true (stopLoss_fires p1 p2 r) then Some "stopLoss"%string
  else if sql_true (takeProfit_fires p3 p4 r) then Some "takeProfit"%string
  else None.

Definition matchExits_where (p5 p6 p7 p8 p9 : Z) (r : row) : sqlbool :=
  sql_eq (Some (assetId r)) (Some p5)
  AND sql_eq (state r) (Some 1)
  AND (stopLoss_fires p6 p7 r OR takeProfit_fires p8 p9 r).

Definition matchExits (tbl : table) (p1 p2 p3 p4 p5 p6 p7 p8 p9 : Z)
  : list (Z * option string) :=
  select tbl (matchExits_where p5 p6 p7 p8 p9)
    (fun id r => (id, matchExits_kind p1 p2 p3 p4 r)).

(** *** Write statements *)

(** What [id INTEGER PRIMARY KEY] takes from a number parameter: an
    integer strictly between the smallest and the largest integer of 64
    bits. SQLite refuses any other with "datatype mismatch". *)
Definition isRowid (id : Z) : bool := (- 2 ^ 63 <? id) && (id <? 2 ^ 63 - 1).

(** [stmt.upsertTrade.run(payload)]: every column is taken from the
    payload, on insert and on conflict alike. *)
Definition upsertTrade (id : Z) (payload : row) (tbl : table) : table :=
  <[id := payload]> tbl.

(** The parameters of [stmt.patchTrade]; [None] is a NULL parameter. *)
Record patch : Type := {
  p_state : option Z;
  p_closePrice : option Z;
  p_stopLoss : option Z;
  p_takeProfit : option Z;
  p_closedLotSize : option Z;
  p_marginUsdc : option string;
  p_lpLockedCapital : option string;
  p_fundingIndex : option string
}.

(** [COALESCE(@p, col)] for a nullable column *)
Definition coalesce {A} (p col : option A) : option A :=
  match p with
  | Some v => Some v
  | None => col
  end.

Definition patchRow (p : patch) (r : row) : row :=
  {| trader := trader r;
     assetId := assetId r;
     isLong := isLong r;
     isLimit := isLimit r;
     leverage := leverage r;
     openPrice := openPrice r;
     state := coalesce (p_state p) (state r);
     openTimestamp := openTimestamp r;
     fundingIndex := coalesce (p_fundingIndex p) (fundingIndex r);
     closePrice := coalesce (p_closePrice p) (closePrice r);
     lotSize := lotSize r;
     closedLotSize := default (closedLotSize r) (p_closedLotSize p);
     stopLoss := default (stopLoss r) (p_stopLoss p);
     takeProfit := default (takeProfit r) (p_takeProfit p);
     lpLockedCapital := coalesce (p_lpLockedCapital p) (lpLockedCapital r);
     marginUsdc := coalesce (p_marginUsdc p) (marginUsdc r) |}.

(** [stmt.patchTrade.run(patch)]: the new table and [info.changes]. *)
Definition patchTrade (id : Z) (p : patch) (tbl : table) : table * Z :=
  match tbl !! id with
  | Some r => (<[id := patchRow p r]> tbl, 1)
  | None => (tbl, 0)
  end.

(** [tx.upsertTrade(payload)] *)
Definition tx_upsertTrade (id : Z) (payload : row) (tbl : table) : table * option row :=
  let tbl' := upsertTrade id payload tbl in (tbl', getTradeById tbl' id).

(** [tx.patchTrade(payload)]: [None] is the [null] returned when no row
    changed. *)
Definition tx_patchTrade (id : Z) (p : patch) (tbl : table) : table * option row :=
  let '(tbl', changes) := patchTrade id p tbl in
  if changes =? 0 then (tbl', None) else (tbl', getTradeById tbl' id).

End Db.

(** ** public.read.server.js *)

Module ReadServer.
Import JS.

(** What a route handler sends: the HTTP status and the JSON body. *)
Inductive response : Type :=
| EntryMatches (assetId marketE6 : Z) (limit stop : list Z)
| ExitMatches (assetId marketE6 : Z) (stopLoss takeProfit : list Z)
| Failure (status : Z) (error : string).

Section Routes.
Context `{B : Builtins}.

(** [toInt(v, name)] *)
Definition toInt (v : jsval) (name : string) : completion Z :=
  let n := Number v in
  if negb (isFinite n) then Throw (Error ("Invalid " +:+ name) None)
  else Normal (trunc n).

(** [parseMarketE6(query)] *)
Definition parseMarketE6 (query : gmap string jsval) : completion Z :=
  let raw := prop query "market" in
  match raw with
  | JUndefined => Throw (Error "Missing market" None)
  | _ =>
      let unit :=
        toLowerCase (ToString (if truthy (prop query "unit") then prop query "unit"
                               else JStr "human")) in
      let n := Number raw in
      if negb (isFinite n) then Throw (Error "Invalid market" None)
      else if String.eqb unit "e6" then Normal (trunc n)
      else Normal (round (doubleMul n (Fin (inject_Z 1000000))))
  end.

(** [e.message || "Bad request"] *)
Definition errorMessage (e : exn) : string :=
  match e with
  | SyntaxError msg | Error msg _ => strOr msg "Bad request"
  end.

(** The [for] loop of GET /match/entry over the rows of the statement. *)
Fixpoint collectEntry (rows : list (Z * string)) (limit stop : list Z)
  : list Z * list Z :=
  match rows with
  | [] => (limit, stop)
  | (id, kind) :: rest =>
      if String.eqb kind "limit" then collectEntry rest (limit ++ [id]) stop
      else if String.eqb kind "stop" then collectEntry rest limit (stop ++ [id])
      else collectEntry rest limit stop
  end.

(** GET /match/entry *)
Definition matchEntryRoute (tbl : Db.table) (query : gmap string jsval) : response :=
  match
    assetId ← toInt (prop query "assetId") "assetId";
    marketE6 ← parseMarketE6 query;
    let rows := Db.matchEntry tbl assetId marketE6 marketE6 marketE6 marketE6 in
    let '(limit, stop) := collectEntry rows [] [] in
    Normal (EntryMatches assetId marketE6 limit stop)
  with
  | Normal r => r
  | Throw e => Failure 400 (errorMessage e)
  end.

(** The [for] loop of GET /match/exits. *)
Fixpoint collectExits (rows : list (Z * option string)) (stopLoss takeProfit : list Z)
  : list Z * list Z :=
  match rows with
  | [] => (stopLoss, takeProfit)
  | (id, kind) :: rest =>
      if bool_decide (kind = Some "stopLoss"%string)
      then collectExits rest (stopLoss ++ [id]) takeProfit
      else if bool_decide (kind = Some "takeProfit"%string)
      then collectExits rest stopLoss (takeProfit ++ [id])
      else collectExits rest stopLoss takeProfit
  end.

(** GET /match/exits *)
Definition matchExitsRoute (tbl : Db.table) (query : gmap string jsval) : response :=
  match
    assetId ← toInt (prop query "assetId") "assetId";
    marketE6 ← parseMarketE6 query;
    let rows := Db.matchExits tbl marketE6 marketE6 marketE6 marketE6 assetId
                  marketE6 marketE6 marketE6 marketE6 in
    let '(stopLoss, takeProfit) := collectExits rows [] [] in
    Normal (ExitMatches assetId marketE6 stopLoss takeProfit)
  with
  | Normal r => r
  | Throw e => Failure 400 (errorMessage e)
  end.

End Routes.

End ReadServer.

(** ** write.routes.js *)

Module WriteRoutes.
Import JS.

(** What a handler sends: 200 with [{ ok: true, trade }], or a status with
    [{ ok: false, error }]. *)
Inductive response : Type :=
| Accepted (trade : option Db.row)
| Rejected (status : Z) (error : string).

Section Routes.
Context `{B : Builtins}.

(** [normalizeAddress(addr)] *)
Definition normalizeAddress (addr : jsval) : string :=
  match addr with
  | JStr s => toLowerCase (trim s)
  | _ => EmptyString
  end.

(** [toInt(v, name)]: every call leaves [allowNull] at its default, false. *)
Definition toInt (v : jsval) (name : string) : completion Z :=
  if isNullish v then Throw (Error ("Missing " +:+ name) None)
  else
    let n := Number v in
    if negb (isFinite n) then Throw (Error ("Invalid " +:+ name) None)
    else Normal (trunc n).

(** [toBoolInt(v, name)] *)
Definition toBoolInt (v : jsval) (name : string) : completion Z :=
  let invalid := Throw (Error ("Invalid " +:+ name +:+ " (expected boolean)") None) in
  match v with
  | JBool true => Normal 1
  | JBool false => Normal 0
  | JNum (Fin q) => if Qeq_bool q 1 then Normal 1 else if Qeq_bool q 0 then Normal 0 else invalid
  | JStr s =>
      if String.eqb s "1" || String.eqb s "true" then Normal 1
      else if String.eqb s "0" || String.eqb s "false" then Normal 0
      else invalid
  | _ => invalid
  end.

(** [v === undefined || v === null ? null : toInt(v, name)] *)
Definition optInt (v : jsval) (name : string) : completion (option Z) :=
  if isNullish v then Normal None else Some <$> toInt v name.

(** [v === undefined || v === null ? 0 : toInt(v, name)] *)
Definition intOr0 (v : jsval) (name : string) : completion Z :=
  if isNullish v then Normal 0 else toInt v name.

(** [v === undefined || v === null ? null : String(v)] *)
Definition optString (v : jsval) : option string :=
  if isNullish v then None else Some (ToString v).

(** [requireTradeExists(id)] *)
Definition requireTradeExists (tbl : Db.table) (id : Z) : completion Db.row :=
  match Db.getTradeById tbl id with
  | Some row => Normal row
  | None => Throw (Error "Trade not found" (Some 404))
  end.

(** The [catch] of a handler: [res.status(e.status || 400)] with
    [e.message || "Bad request"]. *)
Definition caught (e : exn) : response :=
  match e with
  | Error msg (Some status) => Rejected (if status =? 0 then 400 else status) (strOr msg "Bad request")
  | Error msg None | SyntaxError msg => Rejected 400 (strOr msg "Bad request")
  end.

(** Whatever the handlers throw carries no status, or 404. *)
Definition plain (e : exn) : Prop :=
  match e with
  | Error _ (Some status) => status = 404
  | _ => True
  end.

Definition throwsPlain {A} (c : completion A) : Prop :=
  match c with
  | Throw e => plain e
  | Normal _ => True
  end.

(** The payload of PUT /trade/:id, built field by field in source order. *)
Definition putPayload (idParam : jsval) (b : gmap string jsval) : completion (Z * Db.row) :=
  id ← toInt idParam "id";
  let trader := normalizeAddress (prop b "trader") in
  assetId ← toInt (prop b "assetId") "assetId";
  isLong ← toBoolInt (prop b "isLong") "isLong";
  isLimit ← toBoolInt (prop b "isLimit") "isLimit";
  leverage ← optInt (prop b "leverage") "leverage";
  openPrice ← optInt (prop b "openPrice") "openPrice";
  state ← toInt (prop b "state") "state";
  openTimestamp ← optInt (prop b "openTimestamp") "openTimestamp";
  let fundingIndex := optString (prop b "fundingIndex") in
  closePrice ← intOr0 (prop b "closePrice") "closePrice";
  lotSize ← optInt (prop b "lotSize") "lotSize";
  closedLotSize ← intOr0 (prop b "closedLotSize") "closedLotSize";
  stopLoss ← intOr0 (prop b "stopLoss") "stopLoss";
  takeProfit ← intOr0 (prop b "takeProfit") "takeProfit";
  let lpLockedCapital := optString (prop b "lpLockedCapital") in
  let marginUsdc := optString (prop b "marginUsdc") in
  Normal (id,
    {| Db.trader := trader; Db.assetId := assetId; Db.isLong := isLong;
       Db.isLimit := isLimit; Db.leverage := leverage; Db.openPrice := openPrice;
       Db.state := Some state; Db.openTimestamp := openTimestamp;
       Db.fundingIndex := fundingIndex; Db.closePrice := Some closePrice;
       Db.lotSize := lotSize; Db.closedLotSize := closedLotSize;
       Db.stopLoss := stopLoss; Db.takeProfit := takeProfit;
       Db.lpLockedCapital := lpLockedCapital; Db.marginUsdc := marginUsdc |}).

(** [!trader.startsWith("0x") || trader.length < 10] *)
Definition invalidTrader (trader : string) : bool :=
  negb (startsWith "0x" trader) || (Z.of_nat (String.length trader) <? 10).

(** PUT /trade/:id; the statement of [tx.upsertTrade] throws on an id
    that the primary key does not take. *)
Definition putTrade (tbl : Db.table) (idParam : jsval) (body : gmap string jsval)
  : Db.table * response :=
  match putPayload idParam body with
  | Throw e => (tbl, caught e)
  | Normal (id, payload) =>
      if invalidTrader (Db.trader payload)
      then (tbl, Rejected 400 "Invalid trader address")
      else if bool_decide (Db.state payload = Some 2)
              && bool_decide (Db.closePrice payload = Some 0)
      then (tbl, Rejected 400 "state=2 requires closePrice != 0")
      else if negb (Db.isRowid id)
      then (tbl, caught (Error "datatype mismatch" None))
      else
        let '(tbl', trade) := Db.tx_upsertTrade id payload tbl in
        (tbl', Accepted trade)
  end.

(** The patch of PATCH /trade/:id, as built from the body. *)
Definition patchFields (b : gmap string jsval) : completion Db.patch :=
  state ← optInt (prop b "state") "state";
  closePrice ← optInt (prop b "closePrice") "closePrice";
  stopLoss ← optInt (prop b "stopLoss") "stopLoss";
  takeProfit ← optInt (prop b "takeProfit") "takeProfit";
  closedLotSize ← optInt (prop b "closedLotSize") "closedLotSize";
  Normal {| Db.p_state := state; Db.p_closePrice := closePrice;
            Db.p_stopLoss := stopLoss; Db.p_takeProfit := takeProfit;
            Db.p_closedLotSize := closedLotSize;
            Db.p_marginUsdc := optString (prop b "marginUsdc");
            Db.p_lpLockedCapital := optString (prop b "lpLockedCapital");
            Db.p_fundingIndex := optString (prop b "fundingIndex") |}.

(** [if (patch.closedLotSize === null) patch.closedLotSize = existing.lotSize] *)
Definition fillClosedLotSize (existing : Db.row) (p : Db.patch) : Db.patch :=
  {| Db.p_state := Db.p_state p; Db.p_closePrice := Db.p_closePrice p;
     Db.p_stopLoss := Db.p_stopLoss p; Db.p_takeProfit := Db.p_takeProfit p;
     Db.p_closedLotSize :=
       match Db.p_closedLotSize p with
       | None => Db.lotSize existing
       | Some c => Some c
       end;
     Db.p_marginUsdc := Db.p_marginUsdc p;
     Db.p_lpLockedCapital := Db.p_lpLockedCapital p;
     Db.p_fundingIndex := Db.p_fundingIndex p |}.

(** [patch.closePrice ?? existing.closePrice] *)
Definition closeOf (existing : Db.row) (p : Db.patch) : option Z :=
  match Db.p_closePrice p with
  | Some c => Some c
  | None => Db.closePrice existing
  end.

(** [!close || close === 0] *)
Definition noClose (close : option Z) : bool :=
  match close with
  | None => true
  | Some c => c =? 0
  end.

(** PATCH /trade/:id *)
Definition patchTrade (tbl : Db.table) (idParam : jsval) (body : gmap string jsval)
  : Db.table * response :=
  match
    id ← toInt idParam "id";
    existing ← requireTradeExists tbl id;
    patch ← patchFields body;
    Normal (id, existing, patch)
  with
  | Throw e => (tbl, caught e)
  | Normal (id, existing, patch) =>
      if bool_decide (Db.p_state patch = Some 2) then
        if noClose (closeOf existing patch)
        then (tbl, Rejected 400 "state=2 requires closePrice != 0")
        else
          let '(tbl', trade) := Db.tx_patchTrade id (fillClosedLotSize existing patch) tbl in
          (tbl', Accepted trade)
      else
        let '(tbl', trade) := Db.tx_patchTrade id patch tbl in
        (tbl', Accepted trade)
  end.

End Routes.

End WriteRoutes.

(** ** executor/proofClient.js *)

Module ProofClient.
Import JS Async.

(** The two request body shapes. *)
Inductive body : Type :=
| RpcBody (pair_indexes : list Z) (chain_type : string)
| RestBody (pair_indexes : list Z) (chain_type : string).

(** A POST to the proof service. *)
Record request : Type := Post { url : string; postBody : body }.

(** The properties of a response the pick rules read; an absent one is
    [undefined]. *)
Record proofJson : Type := {
  result_proof_bytes : jsval;
  result_proofBytes : jsval;
  proof_bytes : jsval;
  proofBytes : jsval;
  data_proof_bytes : jsval;
  data_proofBytes : jsval
}.

(** What [_post] gives its caller: the parsed JSON, or what it throws on a
    network error, on the abort after [timeoutMs], or on a status outside
    2xx. *)
Definition response : Type := completion proofJson.

(** The cache: key to proof and fetch time. *)
Abbreviation cache := (gmap string (string * Z)).

Abbreviation task := (Async.task cache request response exn).

(** [a || b] *)
Definition orElse (a b : jsval) : jsval := if truthy a then a else b.

Definition pickRpc (j : proofJson) : jsval :=
  orElse (orElse (orElse (result_proof_bytes j) (result_proofBytes j)) (proof_bytes j))
    (proofBytes j).

Definition pickRest (j : proofJson) : jsval :=
  orElse (orElse (orElse (proof_bytes j) (proofBytes j)) (data_proof_bytes j))
    (data_proofBytes j).

Record endpoint : Type := {
  e_url : string;
  e_body : body;
  e_pick : proofJson -> jsval
}.

(** [s.replace(/\/+$/, "")] *)
Fixpoint stripTrailingSlashes (s : string) : string :=
  match s with
  | String c r =>
      match stripTrailingSlashes r with
      | EmptyString => if Ascii.eqb c "/" then EmptyString else String c EmptyString
      | r' => String c r'
      end
  | EmptyString => EmptyString
  end.

Definition timeoutMs : Z := 12000.

Definition endpoints (address : string) (pair_indexes : list Z) (chain : string)
  : list endpoint :=
  [ {| e_url := address; e_body := RpcBody pair_indexes chain; e_pick := pickRpc |};
    {| e_url := address +:+ "/rpc"; e_body := RpcBody pair_indexes chain;
       e_pick := pickRpc |};
    {| e_url := address +:+ "/v2/pull/get_proof"; e_body := RestBody pair_indexes chain;
       e_pick := pickRest |};
    {| e_url := address +:+ "/pull-service/get_proof";
       e_body := RestBody pair_indexes chain; e_pick := pickRest |};
    {| e_url := address +:+ "/get_proof"; e_body := RestBody pair_indexes chain;
       e_pick := pickRest |} ].

Section Client.
Context `{B : Builtins}.

(** The loop of [getProof] over the candidates. *)
Fixpoint tryEndpoints (cands : list endpoint) (lastErr : option exn) : task string :=
  match cands with
  | [] => throw (default (Error "Unable to fetch proof" None) lastErr)
  | cand :: rest =>
      posted ← await (Post (e_url cand) (e_body cand));
      match posted with
      | Normal json =>
          let proof := orElse (e_pick cand json) (data_proof_bytes json) in
          if truthy proof then mret (ToString proof)
          else tryEndpoints rest
                 (Some (Error ("No proof_bytes in response from " +:+ e_url cand) None))
      | Throw e => tryEndpoints rest (Some e)
      end
  end.

(** [client.getProof({ pair_indexes, chain_type })], on the client built
    for [address]; the result is [proof_bytes]. *)
Definition getProof (address : string) (pair_indexes : list Z) (chain_type : string)
  : task string :=
  if bool_decide (pair_indexes = [])
  then throw (Error "pair_indexes must be a non-empty array" None)
  else tryEndpoints
         (endpoints (stripTrailingSlashes address) pair_indexes (strOr chain_type "evm"))
         None.

(** [makeKey(pairs)]: sorted ascending, joined with commas. *)
Definition makeKey (pairs : list Z) : string :=
  String.concat "," (pretty <$> merge_sort Z.le pairs).

(** [normalizeProof(p)] *)
Definition normalizeProof (p : string) : string :=
  if startsWith "0x" p then p else "0x" +:+ p.

(** The function [createProofFetcher({ doraRpc, chainType })] returns. *)
Definition fetchProof (doraRpc chainType : string) (pairIndexes : list Z) : task string :=
  let key := makeKey pairIndexes in
  now ← dateNow;
  c ← get;
  let fetch : task string :=
    data ← getProof doraRpc pairIndexes chainType;
    let proof := normalizeProof data in
    modify (fun c' => <[key := (proof, now)]> c');;
    mret proof in
  match c !! key with
  | Some (proof, ts) => if now - ts <? 1000 then mret proof else fetch
  | None => fetch
  end.

End Client.

End ProofClient.

(** ** executor/walletPool.js *)

Module WalletPool.
Import JS.

Section Pool.
(** [ethers.Wallet], and [new ethers.Wallet(pk, provider)]. *)
Context {Wallet : Type} (newWallet : string -> Wallet).

Record pool : Type := {
  wallets : list Wallet;
  perWalletDelayMs : Z;
  nextIndex : nat;
  busyUntil : list Z
}.

(** [new WalletPool({ provider, privateKeys, perWalletDelayMs = 1000 })] *)
Definition construct (privateKeys : list string) (delay : option Z) : completion pool :=
  if bool_decide (privateKeys = []) then Throw (Error "No PRIVATE_KEYS provided" None)
  else Normal {| wallets := newWallet <$> privateKeys;
                 perWalletDelayMs := default 1000 delay;
                 nextIndex := 0;
                 busyUntil := replicate (length (newWallet <$> privateKeys)) 0 |}.

(** The [for] loop of [acquire]: the first free slot in round-robin order
    from [nextIndex], trying [remaining] more slots after [tries]. *)
Fixpoint scan (p : pool) (now : Z) (remaining tries : nat) : option nat :=
  match remaining with
  | O => None
  | S k =>
      let i := ((nextIndex p + tries) mod length (wallets p))%nat in
      match busyUntil p !! i with
      | Some b => if b <=? now then Some i else scan p now k (S tries)
      | None => scan p now k (S tries)
      end
  end.

(** [Math.min(...l)]; [None] is the Infinity of an empty list. *)
Definition mathMin (l : list Z) : option Z :=
  match l with
  | [] => None
  | b :: bs => Some (foldl Z.min b bs)
  end.

(** What one iteration of the [while] loop ends in: the wallet returned
    ([this.wallets[i]]), or a sleep of [waitMs] ([None] is Infinity). *)
Inductive iteration : Type :=
| Acquired (w : option Wallet)
| Sleep (waitMs : option Z).

(** One iteration of the loop of [acquire], at [Date.now() = now]. *)
Definition attempt (p : pool) (now : Z) : pool * iteration :=
  match scan p now (length (wallets p)) 0 with
  | Some i =>
      ({| wallets := wallets p;
          perWalletDelayMs := perWalletDelayMs p;
          nextIndex := ((i + 1) mod length (wallets p))%nat;
          busyUntil := <[i := now + perWalletDelayMs p]> (busyUntil p) |},
       Acquired (wallets p !! i))
  | None =>
      (p, Sleep ((fun earliest => Z.max 10 (earliest - now)) <$> mathMin (busyUntil p)))
  end.

(** [acquire()] by one caller, alone on the pool: the loop iterates at the
    clock readings given, and is still asleep if they run out. *)
Fixpoint acquire (p : pool) (clock : list Z) : pool * option (option Wallet) :=
  match clock with
  | [] => (p, None)
  | now :: later =>
      match attempt p now with
      | (p', Acquired w) => (p', Some w)
      | (p', Sleep _) => acquire p' later
      end
  end.

(** The iterations of all pending [acquire()] calls, in the order the event
    loop runs them, each at its clock reading. *)
Fixpoint run (p : pool) (clock : list Z) : list (Z * iteration) :=
  match clock with
  | [] => []
  | now :: later =>
      let '(p', it) := attempt p now in (now, it) :: run p' later
  end.

(** A return of [w] at time [t] is covered by the busy-until time of its
    slot: the invariant behind the spacing of the returns. *)
Definition covered (p : pool) (t : Z) (w : Wallet) : Prop :=
  forall i, wallets p !! i = Some w ->
    exists b, busyUntil p !! i = Some b /\ t + perWalletDelayMs p <= b.

End Pool.

End WalletPool.
(** ** executor.multi.js *)

Module Executor.
Import JS.

Section DecimalToE6.
Context `{B : Builtins}.



End DecimalToE6.

(** *** The resync batcher *)

(** [pending] (a Set, in insertion order), whether the flush timer is
    armed, and [inFlight]. *)
Record batcher : Type := {
  pending : list Z;
  timer : bool;
  inFlight : bool
}.

(** [scheduleFlush()] *)
Definition scheduleFlush (b : batcher) : batcher :=
  if timer b then b
  else {| pending := pending b; timer := true; inFlight := inFlight b |}.

(** [pending.add(id)] *)
Definition setAdd (id : Z) (l : list Z) : list Z :=
  if bool_decide (id ∈ l) then l else l ++ [id].

(** [enqueue(tradeId)] *)
Definition enqueue (tradeId : Z) (b : batcher) : batcher :=
  if tradeId <=? 0 then b
  else scheduleFlush
         {| pending := setAdd tradeId (pending b); timer := timer b;
            inFlight := inFlight b |}.

(** *** [main]: the state the closures share *)

Record config : Type := {
  DEDUP_MS : Z;
  LP_FREE_TTL_MS : Z
}.

(** The configuration when the environment sets neither. *)
Definition defaultConfig : config := {| DEDUP_MS := 15000; LP_FREE_TTL_MS := 1500 |}.

Record state : Type := {
  recentlySent : gmap string Z;
  lockedCache : gmap Z Z;
  lpFreeCache : Z * N;
  resyncBatcher : batcher
}.

(** The state [main] starts from. *)
Definition initial : state :=
  {| recentlySent := ∅; lockedCache := ∅; lpFreeCache := (0, 0%N);
     resyncBatcher := {| pending := []; timer := false; inFlight := false |} |}.

Definition set_recentlySent (f : gmap string Z -> gmap string Z) (s : state) : state :=
  {| recentlySent := f (recentlySent s); lockedCache := lockedCache s;
     lpFreeCache := lpFreeCache s; resyncBatcher := resyncBatcher s |}.

Definition set_lockedCache (f : gmap Z Z -> gmap Z Z) (s : state) : state :=
  {| recentlySent := recentlySent s; lockedCache := f (lockedCache s);
     lpFreeCache := lpFreeCache s; resyncBatcher := resyncBatcher s |}.

Definition set_lpFreeCache (c : Z * N) (s : state) : state :=
  {| recentlySent := recentlySent s; lockedCache := lockedCache s;
     lpFreeCache := c; resyncBatcher := resyncBatcher s |}.

Definition set_resyncBatcher (f : batcher -> batcher) (s : state) : state :=
  {| recentlySent := recentlySent s; lockedCache := lockedCache s;
     lpFreeCache := lpFreeCache s; resyncBatcher := f (resyncBatcher s) |}.

Section Execute.
Context `{B : Builtins}.
(** A signer handed out by the wallet pool. *)
Context {Wallet : Type}.

(** What [executeOnchain] and the batcher await. *)
Inductive request : Type :=
| HttpGetTrade (tradeId : Z)
| VaultLpFreeCapital
| WalletAcquire
| FetchProof (pairIndexes : list Z)
| ExecuteOrder (wallet : Wallet) (tradeId : Z) (proof : string)
| ExecuteStopOrTakeProfit (wallet : Wallet) (tradeId : Z) (proof : string)
| TxWait (hash : string) (confirmations : Z)
| SpawnSync (ids : list Z).

(** What an awaited promise settles to: the trade row read from the index
    (its [lpLockedCapital] property), the vault's uint256, a wallet, a
    proof, a submitted transaction, a plain completion, or a rejection. *)
Inductive response : Type :=
| TradeJson (lpLockedCapital : jsval)
| Uint256 (v : N)
| AWallet (w : Wallet)
| ProofBytes (proof : string)
| Submitted (hash : string)
| Completed
| Rejects (e : exn).

Abbreviation task := (Async.task state request response exn).

(** A response of another request's shape does not occur; a continuation
    given one rejects. *)
Definition unexpected {A} : task A := Async.throw (Error "unexpected response" None).

(** [getLpFreeCapitalE6()] *)
Definition getLpFreeCapitalE6 (cfg : config) : task N :=
  now ← Async.dateNow;
  s ← Async.get;
  if now - (lpFreeCache s).1 <? LP_FREE_TTL_MS cfg then mret (lpFreeCache s).2
  else
    v ← Async.await VaultLpFreeCapital;
    match v with
    | Uint256 bi => Async.modify (set_lpFreeCache (now, bi));; mret bi
    | Rejects e => Async.throw e
    | _ => unexpected
    end.

(** [BigInt(String(t.lpLockedCapital ?? "0"))] *)
Definition lockedOf (lpLockedCapital : jsval) : completion Z :=
  BigInt (ToString (if isNullish lpLockedCapital then JStr "0" else lpLockedCapital)).

(** [getTradeLockedE6(tradeId)] *)
Definition getTradeLockedE6 (tradeId : Z) : task Z :=
  s ← Async.get;
  match lockedCache s !! tradeId with
  | Some hit => mret hit
  | None =>
      t ← Async.await (HttpGetTrade tradeId);
      match t with
      | TradeJson lp =>
          match lockedOf lp with
          | Normal locked =>
              Async.modify (set_lockedCache (insert tradeId locked));; mret locked
          | Throw e => Async.throw e
          end
      | Rejects e => Async.throw e
      | _ => unexpected
      end
  end.

(** [`${kind}:${tradeId}`] *)
Definition dedupKey (kind : string) (tradeId : Z) : string :=
  kind +:+ ":" +:+ pretty tradeId.

(** [recentlySent.get(key) || 0] *)
Definition lastSent (s : state) (key : string) : Z := default 0 (recentlySent s !! key).

(** [executeOnchain] from [walletPool.acquire()] on. *)
Definition submit (kind : string) (tradeId assetId : Z) : task unit :=
  acquired ← Async.await WalletAcquire;
  match acquired with
  | AWallet wallet =>
      Async.try_catch
        (fetched ← Async.await (FetchProof [assetId]);
         match fetched with
         | ProofBytes proof =>
             if String.eqb kind "entry" then
               sent ← Async.await (ExecuteOrder wallet tradeId proof);
               match sent with
               | Submitted hash =>
                   mined ← Async.await (TxWait hash 1);
                   match mined with
                   | Completed => mret tt
                   | Rejects e => Async.throw e
                   | _ => unexpected
                   end
               | Rejects e => Async.throw e
               | _ => unexpected
               end
             else if String.eqb kind "exit" then
               sent ← Async.await (ExecuteStopOrTakeProfit wallet tradeId proof);
               match sent with
               | Submitted hash =>
                   mined ← Async.await (TxWait hash 1);
                   match mined with
                   | Completed => mret tt
                   | Rejects e => Async.throw e
                   | _ => unexpected
                   end
               | Rejects e => Async.throw e
               | _ => unexpected
               end
             else Async.throw (Error ("Unknown kind " +:+ kind) None)
         | Rejects e => Async.throw e
         | _ => unexpected
         end)
        (fun err => Async.modify (set_resyncBatcher (enqueue tradeId)))
  | Rejects e => Async.throw e
  | _ => unexpected
  end.

(** [executeOnchain] after the dedup record: admission control for an
    entry, then the submission. *)
Definition admitAndSubmit (cfg : config) (kind : string) (tradeId assetId : Z) : task unit :=
  if String.eqb kind "entry" then
    locked ← getTradeLockedE6 tradeId;
    if locked <=? 0 then Async.modify (set_resyncBatcher (enqueue tradeId))
    else
      free ← getLpFreeCapitalE6 cfg;
      if Z.of_N free <? locked then mret tt
      else submit kind tradeId assetId
  else submit kind tradeId assetId.

(** [executeOnchain({ kind, tradeId, assetId })] *)
Definition executeOnchain (cfg : config) (kind : string) (tradeId assetId : Z) : task unit :=
  let key := dedupKey kind tradeId in
  now ← Async.dateNow;
  s ← Async.get;
  let last := lastSent s key in
  if now - last <? DEDUP_MS cfg then mret tt
  else
    Async.modify (set_recentlySent (insert key now));;
    admitAndSubmit cfg kind tradeId assetId.

(** [flush()] of the batcher *)
Definition flush : task unit :=
  s ← Async.get;
  if inFlight (resyncBatcher s)
  then Async.modify (set_resyncBatcher scheduleFlush)
  else if bool_decide (pending (resyncBatcher s) = []) then mret tt
  else
    let ids := pending (resyncBatcher s) in
    Async.modify (set_resyncBatcher (fun b =>
      {| pending := []; timer := timer b; inFlight := true |}));;
    _ ← Async.await (SpawnSync ids);
    Async.modify (set_resyncBatcher (fun b =>
      let b' := {| pending := pending b; timer := timer b; inFlight := false |} in
      if bool_decide (pending b' = []) then b' else scheduleFlush b')).

(** The callback of the flush timer. *)
Definition onFlushTimer : task unit :=
  Async.modify (set_resyncBatcher (fun b =>
    {| pending := pending b; timer := false; inFlight := inFlight b |}));;
  flush.

(** What the event loop of the executor is given: a call of
    [executeOnchain], the flush timer firing, or the response to a parked
    call. *)
Inductive event : Type :=
| Start (kind : string) (tradeId assetId : Z) (now : Z)
| FlushTimer (now : Z)
| Settle (call : nat) (resp : response) (now : Z).

Definition input_of (cfg : config) (e : event) : Async.input state request response exn :=
  match e with
  | Start kind tradeId assetId now =>
      Async.Call (executeOnchain cfg kind tradeId assetId) now
  | FlushTimer now => Async.Call onFlushTimer now
  | Settle call resp now => Async.Deliver call resp now
  end.

(** The executor from a loop state on, over a sequence of events: the
    final loop and the requests issued, each with the number of its call. *)
Definition run (cfg : config) (l : Async.loop state request response exn)
    (events : list event) :=
  Async.turns l (input_of cfg <$> events).

(** The segment [x], run from [s_in], ends the attempt without awaiting
    anything further, having enqueued the trade for resync or not. *)
Definition skips (enq : bool) (tradeId : Z) (s_in : state)
    (x : Async.step state request response exn unit) : Prop :=
  exists s', x = Async.Return s' tt /\
    resyncBatcher s' = (if enq then enqueue tradeId (resyncBatcher s_in)
                        else resyncBatcher s_in).

(** The free-capital stage of admission for a locked amount, in the
    segment [x] run from [s_in] at [now]: free capital comes from the cache
    while it is fresh and from the vault otherwise, and the attempt is
    skipped, without enqueueing, when it is below the locked amount. *)
Definition freeStage (cfg : config) (locked tradeId : Z) (s_in : state) (now : Z)
    (x : Async.step state request response exn unit) : Prop :=
  (now - (lpFreeCache s_in).1 < LP_FREE_TTL_MS cfg ->
   Z.of_N (lpFreeCache s_in).2 < locked -> skips false tradeId s_in x) /\
  (~ (now - (lpFreeCache s_in).1 < LP_FREE_TTL_MS cfg) ->
   exists s2 k2, x = Async.Await s2 VaultLpFreeCapital k2 /\
     resyncBatcher s2 = resyncBatcher s_in /\
     forall free s' now', Z.of_N free < locked ->
       skips false tradeId s' (k2 (Uint256 free) s' now')).

(** A task that never changes [recentlySent]. *)
Definition quiet {A} (t : task A) : Prop :=
  forall s now, Async.stable recentlySent (recentlySent s) (t s now).

(** The invariant of the loop: every parked continuation is quiet, and
    every parked call has started. *)
Definition loopInv (l : Async.loop state request response exn) : Prop :=
  (forall c r k, Async.parked l !! c = Some (r, k) ->
     forall resp s' now', Async.stable recentlySent (recentlySent s') (k resp s' now')) /\
  (forall c, is_Some (Async.parked l !! c) -> (c < Async.started l)%nat).

End Execute.

End Executor.


(** ** Invariants of tasks and of the executor's loop *)

Module Invariants.
Import Async.

Section Steps.
Context {St Req Resp Exn : Type}.

(** A step keeps [I]: from a state where [I] holds, and resumed on states
    where it holds, it yields only states where it holds. *)
Fixpoint keeps {A} (I : St -> Prop) (x : step St Req Resp Exn A) : Prop :=
  match x with
  | Return s _ | Raise s _ => I s
  | Await s _ k => I s /\ forall resp s' now', I s' -> keeps I (k resp s' now')
  end.

(** A step that leaves a view of the state as it finds it and issues only
    requests that are [ok]. *)
Fixpoint calm {V A} (view : St -> V) (ok : Req -> Prop) (v : V)
    (x : step St Req Resp Exn A) : Prop :=
  match x with
  | Return s _ | Raise s _ => view s = v
  | Await s r k =>
      view s = v /\ ok r /\ forall resp s' now', calm view ok (view s') (k resp s' now')
  end.

(** A step that may await requests that are not [ok], and is calm from
    the answer to one that is on: the continuation of each await is again
    such a step, and is calm when the request awaited was [ok]. *)
Fixpoint guarded {V A} (view : St -> V) (ok : Req -> Prop)
    (x : step St Req Resp Exn A) : Prop :=
  match x with
  | Return _ _ | Raise _ _ => True
  | Await _ r k =>
      forall resp s' now',
        guarded view ok (k resp s' now') /\
        (ok r -> calm view ok (view s') (k resp s' now'))
  end.

(** A step that never throws, whatever it is answered. *)
Fixpoint neverThrows {A} (x : step St Req Resp Exn A) : Prop :=
  match x with
  | Return _ _ => True
  | Raise _ _ => False
  | Await _ _ k => forall resp s' now', neverThrows (k resp s' now')
  end.

(** [I] holds of the loop: of its shared state, and every parked
    continuation keeps it. *)
Definition holds (I : St -> Prop) (l : loop St Req Resp Exn) : Prop :=
  I (shared l) /\
  forall c r k, parked l !! c = Some (r, k) ->
    forall resp s' now', I s' -> keeps I (k resp s' now').

End Steps.

Section Batcher.
Import Executor.
Context {Wallet : Type}.

(** The batcher is in order: no id is pending twice, every pending id is
    positive, and while ids are pending the flush timer is armed or a sync
    is in flight. *)
Definition tidy (b : batcher) : Prop :=
  NoDup (pending b) /\ Forall (fun id => 0 < id) (pending b) /\
  (pending b <> [] -> timer b = true \/ inFlight b = true).

Definition isSpawn (r : @request Wallet) : Prop :=
  match r with
  | SpawnSync _ => True
  | _ => False
  end.

Definition syncing (s : state) : bool := inFlight (resyncBatcher s).

(** The cached locked amount of a trade, and the request that reads the
    trade from the index. *)
Definition cachedLock (id : Z) (s : state) : option Z := lockedCache s !! id.

Definition readsTrade (id : Z) (r : @request Wallet) : Prop := r = HttpGetTrade id.

(** What the continuation of a submitted ledger call does: a rejection
    ends the call with the trade enqueued for resync; a transaction is
    waited for, for one confirmation, and then the call ends, with the trade
    enqueued when the wait is rejected and as it was when it completes. *)
Definition confirms (tradeId : Z)
    (k : @response Wallet -> state -> Z ->
         Async.step state (@request Wallet) (@response Wallet) JS.exn unit) : Prop :=
  (forall e s now, k (Rejects e) s now = Return (set_resyncBatcher (enqueue tradeId) s) tt) /\
  forall hash s now, exists k',
    k (Submitted hash) s now = Await s (TxWait hash 1) k' /\
    (forall e s' now',
       k' (Rejects e) s' now' = Return (set_resyncBatcher (enqueue tradeId) s') tt) /\
    (forall s' now', k' Completed s' now' = Return s' tt).

(** The loop has one sync at most: a parked call that awaits a sync is the
    only one, [inFlight] is set while it is parked, and its continuation
    clears it and returns; every other parked continuation leaves
    [inFlight] alone and spawns no sync; and [inFlight] is set only while a
    sync is awaited. *)
Definition oneSync (l : Async.loop state (@request Wallet) (@response Wallet) JS.exn) : Prop :=
  (forall c r k, parked l !! c = Some (r, k) ->
     (~ isSpawn r /\
      forall resp s' now', calm syncing (fun r => ~ isSpawn r) (syncing s') (k resp s' now')) \/
     (isSpawn r /\ syncing (shared l) = true /\
      (forall resp s' now', exists s'', k resp s' now' = Return s'' tt /\ syncing s'' = false) /\
      forall c' r' k', parked l !! c' = Some (r', k') -> isSpawn r' -> c' = c)) /\
  (syncing (shared l) = true -> exists c r k, parked l !! c = Some (r, k) /\ isSpawn r).

End Batcher.

(** Every cached proof starts with 0x. *)
Definition hexProofs (c : ProofClient.cache) : Prop :=
  forall key proof ts, c !! key = Some (proof, ts) -> JS.startsWith "0x" proof = true.

End Invariants.

(** ** executor.multi.js: what the executor hands to the sync and to the
    read server *)

Module ExecutorCalls.
Import JS.

Section Calls.
Context `{B : Builtins}.

(** [ids.join(",")] on an array of numbers *)
Definition joinIds (ids : list Z) : string :=
  String.concat "," ((fun id => NumberToString (Fin (inject_Z id))) <$> ids).

(** [process.argv] of the child that [flush] spawns: the path of node, the
    path of the script, and the arguments given to [spawn]. *)
Definition syncArgv (execPath scriptPath : string) (ids : list Z) : list string :=
  [execPath; scriptPath; "--mode"; "full"; "--ids"; joinIds ids]%string.

(** What the query parser of the server reads from a number written into
    the query string: a plus sign is a space, and a number prints no other
    character that the parser decodes. *)
Fixpoint queryValue (s : string) : string :=
  match s with
  | String c r => String (if Ascii.eqb c "+" then " "%char else c) (queryValue r)
  | EmptyString => EmptyString
  end.

(** [req.query] of the two requests of a tick,
    [/match/entry?assetId=${assetId}&market=${marketE6}&unit=e6] and
    [/match/exits?...] with the same parameters. *)
Definition matchQuery (assetId marketE6 : jsnum) : gmap string jsval :=
  {[ "assetId"%string := JStr (queryValue (NumberToString assetId));
     "market"%string := JStr (queryValue (NumberToString marketE6));
     "unit"%string := JStr "e6" ]}.

End Calls.

End ExecutorCalls.

(** ** listener.js: TradeEvent to resync *)

Module Listener.

Definition DEDUP_MS : Z := 10000.

(** What the handler of [main] closes over: the map [recently] and the
    batcher, whose [enqueue] and [scheduleFlush] are those of
    executor.multi.js statement for statement. *)
Record state : Type := {
  recently : gmap Z Z;
  resyncBatcher : Executor.batcher
}.

Definition initial : state :=
  {| recently := ∅;
     resyncBatcher := {| Executor.pending := []; Executor.timer := false;
                         Executor.inFlight := false |} |}.

(** The handler of [TradeEvent] at [Date.now() = now]; [tradeId] is the
    number [Number(tradeIdBn.toString())], an integer. The result tells
    whether the handler went on to [resyncBatcher.enqueue(tradeId)]. *)
Definition onTradeEvent (tradeId now : Z) (s : state) : state * bool :=
  let last := default 0 (recently s !! tradeId) in
  if now - last <? DEDUP_MS then (s, false)
  else ({| recently := <[tradeId := now]> (recently s);
           resyncBatcher := Executor.enqueue tradeId (resyncBatcher s) |}, true).

(** The listener over a sequence of events, each with the clock reading of
    its handler: the final state and the events that were enqueued. *)
Fixpoint listen (s : state) (events : list (Z * Z)) : state * list (Z * Z) :=
  match events with
  | [] => (s, [])
  | (tradeId, now) :: later =>
      let '(s', enqueued) := onTradeEvent tradeId now s in
      let '(s'', log) := listen s' later in
      (s'', if enqueued then (tradeId, now) :: log else log)
  end.

(** What [recently] holds, against the events enqueued so far: the time of
    the latest one of each trade. *)
Definition tracks (s : state) (h : list (Z * Z)) : Prop :=
  (forall id t, recently s !! id = Some t -> (id, t) ∈ h /\ DEDUP_MS <= t) /\
  (forall id t, (id, t) ∈ h -> exists t', recently s !! id = Some t' /\ t <= t').

End Listener.

(** ** cron/sync.cron.js *)

Module Cron.
Import JS.

Definition COUNT_BIG : Z := 1000000.

Section Runs.
Context `{B : Builtins}.

(** The arguments [runHourly] gives to [runSync] for a mode. *)
Definition rangeArgs (mode : string) : list string :=
  ["--mode"; mode; "--range"; "1"; NumberToString (Fin (inject_Z COUNT_BIG))]%string.

(** The runs of [runHourly], one after the other: [runSync] resolves
    whatever the exit code, so the second follows the first. *)
Definition runHourly : list (list string) := [rangeArgs "states"; rangeArgs "sltp"].

(** [process.argv] of the child that [runSync(args, label)] spawns. *)
Definition syncArgv (execPath scriptPath : string) (args : list string) : list string :=
  execPath :: scriptPath :: args.

End Runs.

End Cron.

(** ** sync.js *)

Module Sync.
Import JS.

Definition BATCH_SIZE : nat := 50.
Definition RPC_CONCURRENCY : nat := 20.

(** A trade as the ledger returns it ([IBrokexCore.Trade]). *)
Record ledgerTrade : Type := {
  t_trader : string;
  t_assetId : Z;
  t_isLong : bool;
  t_isLimit : bool;
  t_leverage : Z;
  t_openPrice : Z;
  t_state : Z;
  t_openTimestamp : Z;
  t_fundingIndex : Z;
  t_closePrice : Z;
  t_lotSize : Z;
  t_closedLotSize : Z;
  t_stopLoss : Z;
  t_takeProfit : Z;
  t_lpLockedCapital : Z;
  t_marginUsdc : Z
}.

(** [tradeToPayload(id, t)]: the id and the columns. *)
Definition tradeToPayload (id : Z) (t : ledgerTrade) : Z * Db.row :=
  (id,
   {| Db.trader := toLowerCase (t_trader t);
      Db.assetId := t_assetId t;
      Db.isLong := if t_isLong t then 1 else 0;
      Db.isLimit := if t_isLimit t then 1 else 0;
      Db.leverage := Some (t_leverage t);
      Db.openPrice := Some (t_openPrice t);
      Db.state := Some (t_state t);
      Db.openTimestamp := Some (t_openTimestamp t);
      Db.fundingIndex := Some (pretty (t_fundingIndex t));
      Db.closePrice := Some (t_closePrice t);
      Db.lotSize := Some (t_lotSize t);
      Db.closedLotSize := t_closedLotSize t;
      Db.stopLoss := t_stopLoss t;
      Db.takeProfit := t_takeProfit t;
      Db.lpLockedCapital := Some (pretty (t_lpLockedCapital t));
      Db.marginUsdc := Some (pretty (t_marginUsdc t)) |}).

(** A state patch as POSTed to /trades/batchPatchStates. *)
Record statePatch : Type := { sp_id : Z; sp_state : Z }.

(** What the sync awaits: the three ledger views and the POSTs to the
    write API. *)
Inductive request : Type :=
| GetTradesFromList (ids : list Z)
| GetSLTPFromList (ids : list Z)
| GetTradeStatesFromList (ids : list Z)
| PostBatchUpsert (trades : list (Z * Db.row))
| PostBatchPatchSLTP (patches : list (Z * Z * Z))
| PostBatchPatchStates (patches : list statePatch).

(** What they settle to; a POST answers with its count, if any. *)
Inductive response : Type :=
| Trades (fetchedTrades : list ledgerTrade)
| SLTP (stopLosses takeProfits : list Z)
| States (states : list Z)
| Posted (count : option Z)
| Rejects (e : exn).

(** The sync reads the table directly ([dbReaders]) and never writes it:
    the shared state is the table, changed under it by the write API. *)
Abbreviation task := (Async.task Db.table request response exn).

Definition unexpected {A} : task A := Async.throw (Error "unexpected response" None).

(** [ids.map((id, i) => tradeToPayload(id, trades[i]))]; reading a
    property of an absent [trades[i]] throws. *)
Fixpoint payloadsOf (ids : list Z) (trades : list ledgerTrade)
  : completion (list (Z * Db.row)) :=
  match ids with
  | [] => Normal []
  | id :: ids' =>
      match trades with
      | t :: trades' => cons (tradeToPayload id t) <$> payloadsOf ids' trades'
      | [] => Throw (Error "Cannot read properties of undefined" None)
      end
  end.

(** [syncFull({ paymaster, ids, writeBase })]: the result is [upserted]. *)
Definition syncFull (ids : list Z) : task Z :=
  if bool_decide (ids = []) then mret 0
  else
    fetched ← Async.await (GetTradesFromList ids);
    match fetched with
    | Trades trades =>
        match payloadsOf ids trades with
        | Normal payloads =>
            r ← Async.await (PostBatchUpsert payloads);
            match r with
            | Posted upserted => mret (default (Z.of_nat (length payloads)) upserted)
            | Rejects e => Async.throw e
            | _ => unexpected
            end
        | Throw e => Async.throw e
        end
    | Rejects e => Async.throw e
    | _ => unexpected
    end.

(** The first loop of [syncSLTP] and [syncStates]: ids above
    [maxExistingId] are dropped, the others go to [missing] or [present]
    by [dbReaders.exists]. *)
Fixpoint partitionIds (tbl : Db.table) (maxExistingId : Z) (ids missing present : list Z)
  : list Z * list Z :=
  match ids with
  | [] => (missing, present)
  | id :: rest =>
      if maxExistingId <? id then partitionIds tbl maxExistingId rest missing present
      else if bool_decide (tbl !! id = None)
      then partitionIds tbl maxExistingId rest (missing ++ [id]) present
      else partitionIds tbl maxExistingId rest missing (present ++ [id])
  end.









(** [chunk(arr, size)], for a positive size. *)
Fixpoint chunkFrom (fuel size : nat) (arr : list Z) : list (list Z) :=
  match fuel with
  | O => []
  | S fuel' =>
      match arr with
      | [] => []
      | _ => take size arr :: chunkFrom fuel' size (drop size arr)
      end
  end.

Definition chunk (arr : list Z) (size : nat) : list (list Z) :=
  chunkFrom (length arr) size arr.

(** The batches of a run of [main]: the ids within [1, maxExistingId], in
    batches of [BATCH_SIZE]; each batch is one call of [syncStates]. *)
Definition batches (ids : list Z) (maxExistingId : Z) : list (list Z) :=
  chunk (filter (fun id => 1 <= id /\ id <= maxExistingId) ids) BATCH_SIZE.

End Sync.

(** ** db.js: the trader queries and the batch patches *)

Module DbStatements.
Import Db.

(** [ORDER BY id DESC] *)
Definition orderByIdDesc (ids : list Z) : list Z := merge_sort (flip Z.le) ids.

(** [stmt.getTraderIdsAll.all(trader)], as the ids of its rows; TEXT
    compares byte by byte. *)
Definition getTraderIdsAll (tbl : table) (who : string) : list Z :=
  orderByIdDesc
    (select tbl (fun r => Some (String.eqb (trader r) who)) (fun id _ => id)).

(** [stmt.getTraderIdsByState.all(trader, state)] *)
Definition getTraderIdsByState (tbl : table) (who : string) (st : Z) : list Z :=
  orderByIdDesc
    (select tbl (fun r => Some (String.eqb (trader r) who) AND sql_eq (state r) (Some st))
       (fun id _ => id)).

(** The parameters of [stmt.patchState]; [None] is a NULL parameter. *)
Record stateParams : Type := {
  s_state : option Z;
  s_closePrice : option Z;
  s_closedLotSize : option Z;
  s_fundingIndex : option string
}.

Definition patchStateRow (p : stateParams) (r : row) : row :=
  {| trader := trader r;
     assetId := assetId r;
     isLong := isLong r;
     isLimit := isLimit r;
     leverage := leverage r;
     openPrice := openPrice r;
     state := coalesce (s_state p) (state r);
     openTimestamp := openTimestamp r;
     fundingIndex := coalesce (s_fundingIndex p) (fundingIndex r);
     closePrice := coalesce (s_closePrice p) (closePrice r);
     lotSize := lotSize r;
     closedLotSize := default (closedLotSize r) (s_closedLotSize p);
     stopLoss := stopLoss r;
     takeProfit := takeProfit r;
     lpLockedCapital := lpLockedCapital r;
     marginUsdc := marginUsdc r |}.

(** [stmt.patchState.run(p)]: the new table and [info.changes], the number
    of rows the UPDATE matched. *)
Definition patchState (id : Z) (p : stateParams) (tbl : table) : table * Z :=
  match tbl !! id with
  | Some r => (<[id := patchStateRow p r]> tbl, 1)
  | None => (tbl, 0)
  end.

(** The parameters of [stmt.patchSLTP]. *)
Record sltpParams : Type := {
  l_stopLoss : option Z;
  l_takeProfit : option Z
}.

Definition patchSLTPRow (p : sltpParams) (r : row) : row :=
  {| trader := trader r;
     assetId := assetId r;
     isLong := isLong r;
     isLimit := isLimit r;
     leverage := leverage r;
     openPrice := openPrice r;
     state := state r;
     openTimestamp := openTimestamp r;
     fundingIndex := fundingIndex r;
     closePrice := closePrice r;
     lotSize := lotSize r;
     closedLotSize := closedLotSize r;
     stopLoss := default (stopLoss r) (l_stopLoss p);
     takeProfit := default (takeProfit r) (l_takeProfit p);
     lpLockedCapital := lpLockedCapital r;
     marginUsdc := marginUsdc r |}.

(** [stmt.patchSLTP.run(p)] *)
Definition patchSLTP (id : Z) (p : sltpParams) (tbl : table) : table * Z :=
  match tbl !! id with
  | Some r => (<[id := patchSLTPRow p r]> tbl, 1)
  | None => (tbl, 0)
  end.

(** The loop of a batch transaction over a statement [run]:
    [updated += info.changes ? 1 : 0]. *)
Fixpoint batchLoop {P} (run : Z -> P -> table -> table * Z)
    (patches : list (Z * P)) (tbl : table) (updated : Z) : table * Z :=
  match patches with
  | [] => (tbl, updated)
  | (id, p) :: rest =>
      let '(tbl', changes) := run id p tbl in
      batchLoop run rest tbl' (updated + (if changes =? 0 then 0 else 1))
  end.

(** [tx.batchPatchStates(patches)] *)
Definition batchPatchStates (patches : list (Z * stateParams)) (tbl : table) : table * Z :=
  batchLoop patchState patches tbl 0.

(** [tx.batchPatchSLTP(patches)] *)
Definition batchPatchSLTP (patches : list (Z * sltpParams)) (tbl : table) : table * Z :=
  batchLoop patchSLTP patches tbl 0.

End DbStatements.

(** ** public.read.server.js: the trader and trade routes *)

Module ReadRoutes.
Import JS.

(** What the two handlers send: [{ trader, ids }], the row, or a status
    with [{ error }]. *)
Inductive response : Type :=
| TraderIds (trader : string) (ids : list Z)
| Trade (id : Z) (row : Db.row)
| Failure (status : Z) (error : string).

Section Routes.
Context `{B : Builtins}.

(** [normalizeAddress(addr)] *)
Definition normalizeAddress (addr : jsval) : string :=
  match addr with
  | JStr s => toLowerCase (trim s)
  | _ => EmptyString
  end.

(** GET /trader/:address/ids; a route parameter is a string. *)
Definition traderIdsRoute (tbl : Db.table) (address : string) (query : gmap string jsval)
  : response :=
  let trader := normalizeAddress (JStr address) in
  if negb (startsWith "0x" trader) || (Z.of_nat (String.length trader) <? 10)
  then Failure 400 "Invalid address"
  else
    let stateQ :=
      toLowerCase (ToString (if truthy (prop query "state") then prop query "state"
                             else JStr "all")) in
    if String.eqb stateQ "all"
    then TraderIds trader (DbStatements.getTraderIdsAll tbl trader)
    else
      match ReadServer.toInt (JStr stateQ) "state" with
      | Normal state => TraderIds trader (DbStatements.getTraderIdsByState tbl trader state)
      | Throw e => Failure 400 (ReadServer.errorMessage e)
      end.

(** GET /trade/:id *)
Definition tradeRoute (tbl : Db.table) (idParam : string) : response :=
  match ReadServer.toInt (JStr idParam) "id" with
  | Normal id =>
      match Db.getTradeById tbl id with
      | Some row => Trade id row
      | None => Failure 404 "Trade not found"
      end
  | Throw e => Failure 400 (ReadServer.errorMessage e)
  end.

End Routes.

End ReadRoutes.

(** ** write.routes.js: the batch routes *)

Module BatchRoutes.
Import JS.

(** What a batch handler sends: [{ ok: true, upserted }],
    [{ ok: true, updated }], or a status with [{ ok: false, error }]. *)
Inductive response : Type :=
| Upserted (count : Z)
| Updated (updated : Z)
| Rejected (status : Z) (error : string).

(** An element of the posted array: [null] is [None]; a number, string,
    boolean or array has none of the properties the handlers read and is an
    object without them. *)
Definition item : Type := option (gmap string jsval).

(** The first property read of an element, [b.id]; reading a property of
    [null] throws. *)
Definition props (b : item) : completion (gmap string jsval) :=
  match b with
  | Some o => Normal o
  | None => Throw (Error "Cannot read properties of null (reading 'id')" None)
  end.

(** The [catch] of a handler: [res.status(e.status || 400)] with
    [e.message || "Bad request"]. *)
Definition caught (e : exn) : response :=
  match e with
  | Error msg (Some status) => Rejected (if status =? 0 then 400 else status) (strOr msg "Bad request")
  | Error msg None | SyntaxError msg => Rejected 400 (strOr msg "Bad request")
  end.

(** The id under which [stmt.upsertTrade] stores a payload: the number
    when it is an integer that the primary key takes ([Db.isRowid]); SQLite
    refuses any other with a datatype mismatch. *)
Definition rowid (id : jsnum) : completion Z :=
  match id with
  | Fin q =>
      if isIntegerQ q && Db.isRowid (truncQ q)
      then Normal (truncQ q)
      else Throw (Error "datatype mismatch" None)
  | _ => Throw (Error "datatype mismatch" None)
  end.

(** [runBatch(ps)]: the upserts in order, in one transaction; a statement
    that throws rolls all of them back. *)
Fixpoint runBatch (ps : list (jsnum * Db.row)) (tbl : Db.table) : completion Db.table :=
  match ps with
  | [] => Normal tbl
  | (id, payload) :: rest =>
      key ← rowid id;
      runBatch rest (Db.upsertTrade key payload tbl)
  end.

Section Routes.
Context `{B : Builtins}.

(** The callback of [items.map] in POST /trades/batchUpsert. *)
Definition upsertPayload (it : item) : completion (jsnum * Db.row) :=
  b ← props it;
  let id := Number (prop b "id") in
  if negb (isFinite id) then Throw (Error "Invalid id in batch" None)
  else
    let trader := WriteRoutes.normalizeAddress (prop b "trader") in
    if WriteRoutes.invalidTrader trader
    then Throw (Error ("Invalid trader for id=" +:+ NumberToString id) None)
    else
      assetId ← WriteRoutes.toInt (prop b "assetId") "assetId";
      isLong ← WriteRoutes.toBoolInt (prop b "isLong") "isLong";
      isLimit ← WriteRoutes.toBoolInt (prop b "isLimit") "isLimit";
      leverage ← WriteRoutes.optInt (prop b "leverage") "leverage";
      openPrice ← WriteRoutes.optInt (prop b "openPrice") "openPrice";
      state ← WriteRoutes.toInt (prop b "state") "state";
      openTimestamp ← WriteRoutes.optInt (prop b "openTimestamp") "openTimestamp";
      let fundingIndex := WriteRoutes.optString (prop b "fundingIndex") in
      closePrice ← WriteRoutes.intOr0 (prop b "closePrice") "closePrice";
      lotSize ← WriteRoutes.optInt (prop b "lotSize") "lotSize";
      closedLotSize ← WriteRoutes.intOr0 (prop b "closedLotSize") "closedLotSize";
      stopLoss ← WriteRoutes.intOr0 (prop b "stopLoss") "stopLoss";
      takeProfit ← WriteRoutes.intOr0 (prop b "takeProfit") "takeProfit";
      let lpLockedCapital := WriteRoutes.optString (prop b "lpLockedCapital") in
      let marginUsdc := WriteRoutes.optString (prop b "marginUsdc") in
      Normal (id,
        {| Db.trader := trader; Db.assetId := assetId; Db.isLong := isLong;
           Db.isLimit := isLimit; Db.leverage := leverage; Db.openPrice := openPrice;
           Db.state := Some state; Db.openTimestamp := openTimestamp;
           Db.fundingIndex := fundingIndex; Db.closePrice := Some closePrice;
           Db.lotSize := lotSize; Db.closedLotSize := closedLotSize;
           Db.stopLoss := stopLoss; Db.takeProfit := takeProfit;
           Db.lpLockedCapital := lpLockedCapital; Db.marginUsdc := marginUsdc |}).

(** POST /trades/batchUpsert; [items] is [req.body?.trades] when that is
    an array, and [None] otherwise. *)
Definition batchUpsert (tbl : Db.table) (items : option (list item)) : Db.table * response :=
  match items with
  | None | Some [] => (tbl, Rejected 400 "Body must include trades: []")
  | Some items =>
      if 2000 <? Z.of_nat (length items)
      then (tbl, Rejected 400 "Too many trades in one batch (max 2000)")
      else
        match mapM upsertPayload items with
        | Throw e => (tbl, caught e)
        | Normal payloads =>
            match runBatch payloads tbl with
            | Throw e => (tbl, caught e)
            | Normal tbl' => (tbl', Upserted (Z.of_nat (length payloads)))
            end
        end
  end.

(** The callback of [items.map] in POST /trades/batchPatchStates. *)
Definition statePatch (it : item) : completion (Z * DbStatements.stateParams) :=
  b ← props it;
  id ← WriteRoutes.toInt (prop b "id") "id";
  state ← WriteRoutes.optInt (prop b "state") "state";
  closePrice ← WriteRoutes.optInt (prop b "closePrice") "closePrice";
  closedLotSize ← WriteRoutes.optInt (prop b "closedLotSize") "closedLotSize";
  Normal (id,
    {| DbStatements.s_state := state; DbStatements.s_closePrice := closePrice;
       DbStatements.s_closedLotSize := closedLotSize;
       DbStatements.s_fundingIndex := WriteRoutes.optString (prop b "fundingIndex") |}).

(** The callback of [items.map] in POST /trades/batchPatchSLTP. *)
Definition sltpPatch (it : item) : completion (Z * DbStatements.sltpParams) :=
  b ← props it;
  id ← WriteRoutes.toInt (prop b "id") "id";
  stopLoss ← WriteRoutes.optInt (prop b "stopLoss") "stopLoss";
  takeProfit ← WriteRoutes.optInt (prop b "takeProfit") "takeProfit";
  Normal (id, {| DbStatements.l_stopLoss := stopLoss; DbStatements.l_takeProfit := takeProfit |}).

(** The two patch handlers differ in the callback and the transaction. *)
Definition batchPatch {P} (build : item -> completion (Z * P))
    (transaction : list (Z * P) -> Db.table -> Db.table * Z)
    (tbl : Db.table) (items : option (list item)) : Db.table * response :=
  match items with
  | None | Some [] => (tbl, Rejected 400 "Body must include patches: []")
  | Some items =>
      if 5000 <? Z.of_nat (length items)
      then (tbl, Rejected 400 "Too many patches in one batch (max 5000)")
      else
        match mapM build items with
        | Throw e => (tbl, caught e)
        | Normal patches =>
            let '(tbl', updated) := transaction patches tbl in
            (tbl', Updated updated)
        end
  end.

(** POST /trades/batchPatchStates; [items] is [req.body?.patches]. *)
Definition batchPatchStates : Db.table -> option (list item) -> Db.table * response :=
  batchPatch statePatch DbStatements.batchPatchStates.

(** POST /trades/batchPatchSLTP *)
Definition batchPatchSLTP : Db.table -> option (list item) -> Db.table * response :=
  batchPatch sltpPatch DbStatements.batchPatchSLTP.

End Routes.

End BatchRoutes.

(** ** Vocabulary for the batch routes *)

Module RouteSpec.
Import JS.

(** The parameters a batch carries for one id, in the order of the batch. *)
Definition patchesFor {P} (id : Z) (patches : list (Z * P)) : list P :=
  (filter (fun p => p.1 = id) patches).*2.

(** What is thrown carries no [status] property. *)
Definition noStatus (e : exn) : Prop :=
  match e with
  | Error _ (Some _) => False
  | _ => True
  end.

Definition throwsNoStatus {A} (c : completion A) : Prop :=
  match c with
  | Throw e => noStatus e
  | Normal _ => True
  end.

End RouteSpec.

(** ** sync.js: the command line *)

Module SyncArgs.
Import JS.

(** The object [parseArgs] returns; [None] is [null], or the [undefined]
    of an option given last without its value: [main] treats the two
    alike. *)
Record args : Type := {
  mode : option string;
  ids : option string;
  range : option (jsnum * jsnum);
  missingScan : option (jsnum * jsnum)
}.

Section Main.
Context `{B : Builtins}.

(** [Number(argv[++i])] *)
Definition numberArg (a : option string) : jsnum :=
  match a with
  | Some s => StringToNumber s
  | None => NaN
  end.

(** The loop of [parseArgs] from [argv[i]] on. *)
Fixpoint parseArgsFrom (argv : list string) (out : args) : args :=
  match argv with
  | [] => out
  | a :: rest =>
      if String.eqb a "--mode" then
        let out' v := {| mode := v; ids := ids out; range := range out;
                         missingScan := missingScan out |} in
        match rest with
        | v :: rest' => parseArgsFrom rest' (out' (Some v))
        | [] => out' None
        end
      else if String.eqb a "--ids" then
        let out' v := {| mode := mode out; ids := v; range := range out;
                         missingScan := missingScan out |} in
        match rest with
        | v :: rest' => parseArgsFrom rest' (out' (Some v))
        | [] => out' None
        end
      else if String.eqb a "--range" then
        let out' x y := {| mode := mode out; ids := ids out;
                           range := Some (numberArg x, numberArg y);
                           missingScan := missingScan out |} in
        match rest with
        | x :: y :: rest' => parseArgsFrom rest' (out' (Some x) (Some y))
        | [x] => out' (Some x) None
        | [] => out' None None
        end
      else if String.eqb a "--missing-scan" then
        let out' x y := {| mode := mode out; ids := ids out; range := range out;
                           missingScan := Some (numberArg x, numberArg y) |} in
        match rest with
        | x :: y :: rest' => parseArgsFrom rest' (out' (Some x) (Some y))
        | [x] => out' (Some x) None
        | [] => out' None None
        end
      else parseArgsFrom rest out
  end.

(** [parseArgs(argv)] *)
Definition parseArgs (argv : list string) : args :=
  parseArgsFrom (drop 2 argv)
    {| mode := None; ids := None; range := None; missingScan := None |}.

(** [["full", "sltp", "states"].includes(mode)] *)
Definition validMode (m : option string) : bool :=
  match m with
  | Some m => String.eqb m "full" || String.eqb m "sltp" || String.eqb m "states"
  | None => false
  end.

(** The ids of [--ids]:
    [s.split(",").map((s) => Number(s.trim())).filter((n) => Number.isFinite(n) && n >= 1)] *)
Definition idsOption (s : string) : list jsnum :=
  filter (fun n => isFinite n && numGe n 1 = true)
    ((fun s => StringToNumber (trim s)) <$> split "," s).

(** Where [main] takes its ids from: the first of [--ids], [--range] and
    [--missing-scan] that is given; with none of them it prints the usage
    and exits. *)
Inductive selection : Type :=
| Ids (ids : list jsnum)
| Range (start count : jsnum)
| MissingScan (start stop : jsnum)
| Usage.

Definition selected (a : args) : selection :=
  match ids a with
  | Some s =>
      if nonEmpty s then Ids (idsOption s)
      else match range a with
           | Some (start, count) => Range start count
           | None =>
               match missingScan a with
               | Some (start, stop) => MissingScan start stop
               | None => Usage
               end
           end
  | None =>
      match range a with
      | Some (start, count) => Range start count
      | None =>
          match missingScan a with
          | Some (start, stop) => MissingScan start stop
          | None => Usage
          end
      end
  end.

End Main.

(** *** The ids of [--range start count] *)

Section Range.
(** The sum of two doubles is computed here when both are integers;
    [addOther] is the sum of any other two. *)
Context (addOther : jsnum -> jsnum -> jsnum).

Definition numAdd (a b : jsnum) : jsnum :=
  match a, b with
  | Fin p, Fin q =>
      if isIntegerQ p && isIntegerQ q then roundToDouble (truncQ p + truncQ q)
      else addOther a b
  | _, _ => addOther a b
  end.

(** [Math.max(1, start)] *)
Definition max1 (start : jsnum) : jsnum :=
  match start with
  | NaN => NaN
  | Inf true => Fin 1
  | Inf false => Inf false
  | Fin q => if Qle_bool q 1 then Fin 1 else Fin q
  end.

(** How many times [for (let i = 0; i < count; i++)] runs its body;
    [None]: the loop does not end, [i] staying at 2^53. *)
Definition iterations (count : jsnum) : option Z :=
  match count with
  | NaN | Inf true => Some 0
  | Inf false => None
  | Fin q =>
      if Qle_bool q (inject_Z (2 ^ 53)) then Some (Z.max 0 (Qceiling q)) else None
  end.

(** [start = Math.max(1, start); for (...) ids.push(start + i)] *)
Definition rangeIds (start count : jsnum) : option (list jsnum) :=
  (fun n => (fun i => numAdd (max1 start) (Fin (inject_Z i))) <$> seqZ 0 n)
    <$> iterations count.

End Range.

(** [n <= k] *)
Definition numLe (n : jsnum) (k : Z) : bool :=
  match n with
  | NaN => false
  | Inf neg => neg
  | Fin q => Qle_bool q (inject_Z k)
  end.

(** [ids.filter((id) => id >= 1 && id <= maxExistingId)] *)
Definition withinLedger (maxExistingId : Z) (ids : list jsnum) : list jsnum :=
  filter (fun n => numGe n 1 && numLe n maxExistingId = true) ids.

End SyncArgs.

(** ** sync.js: the SL/TP mode *)

Module SyncSLTP.
Import JS Sync.

(** The result of [syncSLTP]. *)
Record sltpResult : Type := {
  patched : Z;
  upsertedMissing : Z
}.

(** The second loop of [syncSLTP], over [present[i]], [sls[i]] and
    [tps[i]]: an absent entry reads as 0; an id whose row is gone is pushed
    to [missing]; the others are patched when a fetched value is not the
    stored one. *)
Fixpoint compareSLTP (tbl : Db.table) (present sls tps : list Z)
    (missing : list Z) (patches : list (Z * Z * Z)) : list Z * list (Z * Z * Z) :=
  match present with
  | [] => (missing, patches)
  | id :: rest =>
      let sl := default 0 (head sls) in
      let tp := default 0 (head tps) in
      match tbl !! id with
      | None => compareSLTP tbl rest (tail sls) (tail tps) (missing ++ [id]) patches
      | Some row =>
          if negb (sl =? Db.stopLoss row) || negb (tp =? Db.takeProfit row)
          then compareSLTP tbl rest (tail sls) (tail tps) missing (patches ++ [(id, sl, tp)])
          else compareSLTP tbl rest (tail sls) (tail tps) missing patches
      end
  end.

(** [syncSLTP] from [if (!present.length)] on; [missing] is the array the
    first loop filled, already synced in full. *)
Definition sltpPhase (present missing : list Z) (upsertedMissing : Z) : task sltpResult :=
  if bool_decide (present = [])
  then mret {| patched := 0; upsertedMissing := upsertedMissing |}
  else
    fetched ← Async.await (GetSLTPFromList present);
    match fetched with
    | SLTP sls tps =>
        tbl' ← Async.get;
        let '(_, patches) := compareSLTP tbl' present sls tps missing [] in
        patched ←
          (if bool_decide (patches = []) then mret 0
           else
             r ← Async.await (PostBatchPatchSLTP patches);
             match r with
             | Posted updated => mret (default 0 updated)
             | Rejects e => Async.throw e
             | _ => unexpected
             end);
        mret {| patched := patched; upsertedMissing := upsertedMissing |}
    | Rejects e => Async.throw e
    | _ => unexpected
    end.

(** [syncSLTP({ paymaster, ids, writeBase, dbReaders, maxExistingId })] *)
Definition syncSLTP (ids : list Z) (maxExistingId : Z) : task sltpResult :=
  tbl ← Async.get;
  let '(missing, present) := partitionIds tbl maxExistingId ids [] [] in
  upsertedMissing ← (if bool_decide (missing = []) then mret 0 else syncFull missing);
  sltpPhase present missing upsertedMissing.

End SyncSLTP.

(** ** sync.js: the body posted to /trades/batchUpsert *)

Module SyncPost.
Import JS.

(** A number and a nullable number or string of a payload, as JSON. *)
Definition numJson (z : Z) : jsval := JNum (Fin (inject_Z z)).
Definition optNumJson (o : option Z) : jsval := from_option numJson JNull o.
Definition optStrJson (o : option string) : jsval := from_option JStr JNull o.

(** The object [tradeToPayload] returns, as the write server parses it
    from the JSON of the request. *)
Definition payloadJson (p : Z * Db.row) : gmap string jsval :=
  list_to_map
    [("id"%string, numJson p.1);
     ("trader"%string, JStr (Db.trader p.2));
     ("assetId"%string, numJson (Db.assetId p.2));
     ("isLong"%string, numJson (Db.isLong p.2));
     ("isLimit"%string, numJson (Db.isLimit p.2));
     ("leverage"%string, optNumJson (Db.leverage p.2));
     ("openPrice"%string, optNumJson (Db.openPrice p.2));
     ("state"%string, optNumJson (Db.state p.2));
     ("openTimestamp"%string, optNumJson (Db.openTimestamp p.2));
     ("fundingIndex"%string, optStrJson (Db.fundingIndex p.2));
     ("closePrice"%string, optNumJson (Db.closePrice p.2));
     ("lotSize"%string, optNumJson (Db.lotSize p.2));
     ("closedLotSize"%string, numJson (Db.closedLotSize p.2));
     ("stopLoss"%string, numJson (Db.stopLoss p.2));
     ("takeProfit"%string, numJson (Db.takeProfit p.2));
     ("lpLockedCapital"%string, optStrJson (Db.lpLockedCapital p.2));
     ("marginUsdc"%string, optStrJson (Db.marginUsdc p.2))].

(** [req.body?.trades] of the request [syncFull] posts with the body
    [{ trades: payloads }]. *)
Definition batchUpsertItems (payloads : list (Z * Db.row)) : option (list BatchRoutes.item) :=
  Some ((fun p => Some (payloadJson p)) <$> payloads).

End SyncPost.

(** ** The specification's trigger tables and whole records *)

Module Spec.
Import Db.

(** Entry matching: the four rows of the trigger table, on a row with a
    stored open price; the boolean columns are 1 for true and 0 for false. *)
Definition entryTrigger (market : Z) (r : row) : Prop :=
  exists p, openPrice r = Some p /\
    ((isLimit r = 1 /\ isLong r = 1 /\ market <= p) \/
     (isLimit r = 1 /\ isLong r = 0 /\ market >= p) \/
     (isLimit r = 0 /\ isLong r = 1 /\ market >= p) \/
     (isLimit r = 0 /\ isLong r = 0 /\ market <= p)).

(** A trade awaiting entry on the queried asset. *)
Definition isOrderOn (asset : Z) (r : row) : Prop :=
  state r = Some 0 /\ assetId r = asset.

(** An open position on the queried asset. *)
Definition isOpenOn (asset : Z) (r : row) : Prop :=
  state r = Some 1 /\ assetId r = asset.

(** Exit matching: a trigger stored as 0 is disabled. *)
Definition stopLossTrigger (market : Z) (r : row) : Prop :=
  stopLoss r <> 0 /\
  ((isLong r = 1 /\ market <= stopLoss r) \/ (isLong r = 0 /\ market >= stopLoss r)).

Definition takeProfitTrigger (market : Z) (r : row) : Prop :=
  takeProfit r <> 0 /\
  ((isLong r = 1 /\ market >= takeProfit r) \/ (isLong r = 0 /\ market <= takeProfit r)).



End Spec.

(** ** Sample data, for evaluating the model *)

Module Samples.
Import JS.

(** A long limit order on asset 0 at 70000 (E6). *)
Definition limitOrder : Db.row :=
  {| Db.trader := "0x00000000000000000000000000000000000000aa";
     Db.assetId := 0; Db.isLong := 1; Db.isLimit := 1; Db.leverage := Some 10;
     Db.openPrice := Some 70000000000; Db.state := Some 0;
     Db.openTimestamp := Some 0; Db.fundingIndex := Some "0"%string;
     Db.closePrice := Some 0; Db.lotSize := Some 3; Db.closedLotSize := 0;
     Db.stopLoss := 0; Db.takeProfit := 0;
     Db.lpLockedCapital := Some "1000000"%string; Db.marginUsdc := Some "500000"%string |}.

(** An open long position on asset 0 with a stop-loss at 65000 (E6) and
    no take-profit. *)
Definition openLong : Db.row :=
  {| Db.trader := "0x00000000000000000000000000000000000000bb";
     Db.assetId := 0; Db.isLong := 1; Db.isLimit := 0; Db.leverage := Some 10;
     Db.openPrice := Some 69000000000; Db.state := Some 1;
     Db.openTimestamp := Some 0; Db.fundingIndex := Some "0"%string;
     Db.closePrice := None; Db.lotSize := Some 3; Db.closedLotSize := 0;
     Db.stopLoss := 65000000000; Db.takeProfit := 0;
     Db.lpLockedCapital := Some "1000000"%string; Db.marginUsdc := Some "500000"%string |}.

Definition trades : gmap Z Db.row := <[7 := limitOrder]> (<[8 := openLong]> ∅).

(** [?assetId=0&market=...&unit=e6] *)
Definition queryE6 (market : string) : gmap string jsval :=
  <["assetId" := JStr "0"]> (<["market" := JStr market]> (<["unit" := JStr "e6"]> ∅)).

(** A body that closes a trade without a close price, and one with it. *)
Definition closeWithoutPrice : gmap string jsval :=
  <["state" := JNum (Fin (inject_Z 2))]> ∅.

Definition closeAt66000 : gmap string jsval :=
  <["state" := JNum (Fin (inject_Z 2))]>
    (<["closePrice" := JNum (Fin (inject_Z 66000000000))]> ∅).

(** Executor states: trade 7 cached with no locked capital; trade 7 cached
    with 1000 locked while the free capital, cached at 1699999999900, is
    500. *)
Definition staleTrade : Executor.state :=
  Executor.set_lockedCache (insert 7 0) Executor.initial.

Definition lowLiquidity : Executor.state :=
  Executor.set_lpFreeCache (1699999999900, 500%N)
    (Executor.set_lockedCache (insert 7 1000) Executor.initial).

(** Trade 7 as the ledger has it once opened, trade 9 as the ledger has
    it, and the answers of a states run over ids 7 and 9: the full fetch of
    the absent 9 and its upsert, the state of 7 (now 1), the full fetch of
    7 and its upsert. *)
Definition ledgerTrade7 : Sync.ledgerTrade :=
  {| Sync.t_trader := "0x00000000000000000000000000000000000000AA";
     Sync.t_assetId := 0; Sync.t_isLong := true; Sync.t_isLimit := true;
     Sync.t_leverage := 10; Sync.t_openPrice := 70000000000; Sync.t_state := 1;
     Sync.t_openTimestamp := 1700000000; Sync.t_fundingIndex := 0;
     Sync.t_closePrice := 0; Sync.t_lotSize := 3; Sync.t_closedLotSize := 0;
     Sync.t_stopLoss := 0; Sync.t_takeProfit := 0;
     Sync.t_lpLockedCapital := 1000000; Sync.t_marginUsdc := 500000 |}.

Definition ledgerTrade9 : Sync.ledgerTrade :=
  {| Sync.t_trader := "0x00000000000000000000000000000000000000CC";
     Sync.t_assetId := 1; Sync.t_isLong := false; Sync.t_isLimit := false;
     Sync.t_leverage := 5; Sync.t_openPrice := 3000000000; Sync.t_state := 0;
     Sync.t_openTimestamp := 0; Sync.t_fundingIndex := 0;
     Sync.t_closePrice := 0; Sync.t_lotSize := 1; Sync.t_closedLotSize := 0;
     Sync.t_stopLoss := 0; Sync.t_takeProfit := 0;
     Sync.t_lpLockedCapital := 2000000; Sync.t_marginUsdc := 100000 |}.


End Samples.

(** ** Sample requests for the routes *)

Module RouteSamples.
Import JS.

(** An element of a batch that closes trade 9 of a new trader and gives
    no close price. *)
Definition closedTrade9 : gmap string jsval :=
  <["id" := JNum (Fin (inject_Z 9))]>
    (<["trader" := JStr "0x00000000000000000000000000000000000000CC"]>
       (<["assetId" := JNum (Fin (inject_Z 1))]>
          (<["isLong" := JBool true]>
             (<["isLimit" := JBool false]>
                (<["state" := JNum (Fin (inject_Z 2))]> ∅))))).

(** A stop-loss patch for trade 8 and one for the absent trade 5. *)
Definition stopLossOf (id sl : Z) : gmap string jsval :=
  <["id" := JNum (Fin (inject_Z id))]> (<["stopLoss" := JNum (Fin (inject_Z sl))]> ∅).

(** A state patch that closes a trade. *)
Definition closeOf (id : Z) : gmap string jsval :=
  <["id" := JNum (Fin (inject_Z id))]> (<["state" := JNum (Fin (inject_Z 2))]> ∅).

End RouteSamples.

(** ** Sample answers for the SL/TP sync *)

Module SyncSamples.

(** The answers of an SL/TP run over ids 7, 8 and 9: the full fetch of the
    absent 9 and its upsert, then the ledger's stop-losses and
    take-profits of 7 and 8 (the stop-loss of 8 moved to 64000), then the
    answer to the patches. *)
Definition sltpAnswers : list (Sync.response * gmap Z Db.row * Z) :=
  [(Sync.Trades [Samples.ledgerTrade9], Samples.trades, 1);
   (Sync.Posted (Some 1), Samples.trades, 2);
   (Sync.SLTP [0; 64000000000] [0; 0], Samples.trades, 3);
   (Sync.Posted (Some 1), Samples.trades, 4)].

End SyncSamples.
(** * Properties *)

Section StringFacts.
Import JS.

Lemma isDigit_not_ws c : isDigit c = true -> isWhiteSpace c = false.
Proof.
  unfold isDigit, isWhiteSpace. intros H.
  apply andb_true_iff in H as [H1 H2].
  apply N.leb_le in H1, H2.
  destruct (N_of_ascii c) as [|p] eqn:E; [lia|].
  do 8 (destruct p as [p|p|]; try reflexivity; try lia).
Qed.

Lemma isDigit_value c : isDigit c = true -> 0 <= digitValue c <= 9.
Proof.
  unfold isDigit, digitValue. intros H.
  apply andb_true_iff in H as [H1 H2].
  apply N.leb_le in H1, H2. lia.
Qed.

Lemma digitInBase_10 c : isDigit c = true -> digitInBase 10 c = Some (digitValue c).
Proof.
  intros H. pose proof (isDigit_value c H) as Hv.
  unfold isDigit in H. apply andb_true_iff in H as [H1 H2].
  apply N.leb_le in H1, H2.
  unfold digitInBase, digitValue in *.
  replace (48 <=? Z.of_N (N_of_ascii c)) with true by (symmetry; apply Z.leb_le; lia).
  replace (Z.of_N (N_of_ascii c) <=? 57) with true by (symmetry; apply Z.leb_le; lia).
  simpl. replace (Z.of_N (N_of_ascii c) - 48 <? 10) with true; [done|].
  symmetry. apply Z.ltb_lt. lia.
Qed.

Lemma decValueFrom_acc acc s :
  decValueFrom acc s = acc * 10 ^ Z.of_nat (String.length s) + decValue s.
Proof.
  unfold decValue. revert acc. induction s as [|c r IH]; intros acc.
  - simpl. lia.
  - cbn [decValueFrom String.length]. rewrite IH, (IH (0 * 10 + digitValue c)).
    rewrite Nat2Z.inj_succ, Z.pow_succ_r by lia. lia.
Qed.

Lemma decValue_cons c r :
  decValue (String c r) = digitValue c * 10 ^ Z.of_nat (String.length r) + decValue r.
Proof. unfold decValue at 1. cbn [decValueFrom]. rewrite decValueFrom_acc. lia. Qed.


Lemma parseDigitsFrom_digits acc s :
  allDigits s = true -> parseDigitsFrom 10 acc s = Some (decValueFrom acc s).
Proof.
  revert acc. induction s as [|c r IH]; intros acc H; [done|].
  cbn [allDigits] in H. apply andb_true_iff in H as [Hc Hr].
  cbn [parseDigitsFrom decValueFrom]. rewrite digitInBase_10 by done. by apply IH.
Qed.


Lemma trimStart_noWhiteSpace s : noWhiteSpace s = true -> trimStart s = s.
Proof.
  destruct s as [|c r]; [done|]. cbn. intros H.
  apply andb_true_iff in H as [H _]. by destruct (isWhiteSpace c).
Qed.

Lemma trimEnd_noWhiteSpace s : noWhiteSpace s = true -> trimEnd s = s.
Proof.
  induction s as [|c r IH]; [done|]. cbn. intros H.
  apply andb_true_iff in H as [Hc Hr]. rewrite IH by done.
  destruct r; [|done]. by destruct (isWhiteSpace c).
Qed.

Lemma trim_noWhiteSpace s : noWhiteSpace s = true -> trim s = s.
Proof.
  intros H. unfold trim. rewrite trimStart_noWhiteSpace by done.
  by apply trimEnd_noWhiteSpace.
Qed.

Lemma allDigits_noWhiteSpace s : allDigits s = true -> noWhiteSpace s = true.
Proof.
  induction s as [|c r IH]; [done|]. cbn. intros H.
  apply andb_true_iff in H as [Hc Hr]. rewrite isDigit_not_ws by done. by apply IH.
Qed.

Lemma isDigit_neq c d : isDigit c = true -> isDigit d = false -> Ascii.eqb c d = false.
Proof.
  intros Hc Hd. destruct (Ascii.eqb_spec c d) as [->|]; [congruence|done].
Qed.




Lemma split_no_sep sep s :
  (forall c, In c (list_ascii_of_string s) -> c <> sep) -> split sep s = [s].
Proof.
  induction s as [|c r IH]; [done|]. intros H. cbn [split].
  destruct (Ascii.eqb_spec c sep) as [->|].
  - exfalso. apply (H sep); [by left|done].
  - rewrite IH; [done|]. intros d Hd. apply H. by right.
Qed.

Lemma split_at_sep sep i f :
  (forall c, In c (list_ascii_of_string i) -> c <> sep) ->
  split sep (i +:+ String sep f) = i :: split sep f.
Proof.
  induction i as [|c r IH]; intros H.
  - change ("" +:+ String sep f)%string with (String sep f).
    cbn [split]. by rewrite Ascii.eqb_refl.
  - change (String c r +:+ String sep f) with (String c (r +:+ String sep f)).
    cbn [split]. destruct (Ascii.eqb_spec c sep) as [->|].
    + exfalso. apply (H sep); [by left|done].
    + rewrite IH; [done|]. intros d Hd. apply H. by right.
Qed.

Lemma allDigits_no_char s d :
  allDigits s = true -> isDigit d = false ->
  forall c, In c (list_ascii_of_string s) -> c <> d.
Proof.
  induction s as [|c r IH]; [done|]. cbn. intros H Hd x [<-|Hx].
  - apply andb_true_iff in H as [Hc _]. congruence.
  - apply andb_true_iff in H as [_ Hr]. by apply IH.
Qed.










Lemma roundToDouble_exact z : Z.abs z < 2 ^ 53 -> roundToDouble z = Fin (inject_Z z).
Proof.
  intros H. unfold roundToDouble.
  assert (Hl : Z.log2 (Z.abs z) < 53).
  { destruct (Z.eq_dec (Z.abs z) 0) as [->|]; [done|].
    apply Z.log2_lt_pow2; lia. }
  apply Z.ltb_lt in Hl. by rewrite Hl.
Qed.

Lemma pretty_N_char_digit x :
  (x < 10)%N ->
  isDigit (pretty_N_char x) = true /\ digitValue (pretty_N_char x) = Z.of_N x.
Proof.
  intros H.
  assert (x = 0 \/ x = 1 \/ x = 2 \/ x = 3 \/ x = 4 \/ x = 5 \/ x = 6 \/ x = 7
          \/ x = 8 \/ x = 9)%N as Hx by lia.
  repeat (destruct Hx as [->|Hx]; [done|]). by subst x.
Qed.

Lemma pretty_N_go_digits x s :
  allDigits s = true ->
  allDigits (pretty_N_go x s) = true /\
  decValue (pretty_N_go x s) = Z.of_N x * 10 ^ Z.of_nat (String.length s) + decValue s.
Proof.
  revert s. induction (N.lt_wf_0 x) as [x _ IH]; intros s Hs.
  assert (x = 0 \/ 0 < x)%N as [->|Hx] by lia.
  - rewrite pretty_N_go_0. split; [done|]. lia.
  - rewrite pretty_N_go_step by done.
    destruct (pretty_N_char_digit (x `mod` 10)) as [Hd Hv].
    { apply N.mod_lt. lia. }
    destruct (IH (x `div` 10)%N) with (s := String (pretty_N_char (x `mod` 10)) s)
      as [Ha Hval].
    { by apply N.div_lt. }
    { cbn [allDigits]. by rewrite Hd, Hs. }
    split; [done|]. rewrite Hval, decValue_cons, Hv. cbn [String.length].
    rewrite Nat2Z.inj_succ, Z.pow_succ_r by lia.
    pose proof (N.div_mod x 10 ltac:(lia)) as Hdm.
    assert (Z.of_N x = 10 * Z.of_N (x `div` 10) + Z.of_N (x `mod` 10)) as -> by lia.
    lia.
Qed.

Lemma pretty_N_numeral (n : N) :
  allDigits (pretty n) = true /\ nonEmpty (pretty n) = true /\
  decValue (pretty n) = Z.of_N n.
Proof.
  unfold pretty, pretty_N. case_decide as Hn; [by subst n|].
  destruct (pretty_N_go_digits n "" eq_refl) as [Ha Hv].
  change (decValue "") with 0 in Hv. cbn [String.length] in Hv.
  rewrite Z.pow_0_r, Z.mul_1_r, Z.add_0_r in Hv.
  split; [done|]. split; [|done].
  destruct (pretty_N_go n ""); [|done]. cbn in Hv. lia.
Qed.

Lemma parseDigits_pretty_N (n : N) : parseDigits 10 (pretty n) = Some (Z.of_N n).
Proof.
  destruct (pretty_N_numeral n) as (Ha & Hne & Hv).
  unfold parseDigits. rewrite Hne, parseDigitsFrom_digits by done.
  by rewrite <- Hv.
Qed.

Lemma pretty_Z_noWhiteSpace (z : Z) : noWhiteSpace (pretty z) = true.
Proof.
  destruct z as [|p|p]; [done|..].
  - apply allDigits_noWhiteSpace. by destruct (pretty_N_numeral (Npos p)).
  - change (pretty (Zneg p)) with (String "-" (pretty (Npos p))).
    cbn [noWhiteSpace]. rewrite allDigits_noWhiteSpace; [done|].
    by destruct (pretty_N_numeral (Npos p)).
Qed.

Lemma pretty_Z_no_char (z : Z) (d : ascii) :
  isDigit d = false -> d <> "-"%char ->
  forall c, In c (list_ascii_of_string (pretty z)) -> c <> d.
Proof.
  intros Hd Hm. destruct z as [|p|p].
  - intros c [<-|[]]. by intros <-.
  - apply allDigits_no_char; [|done]. by destruct (pretty_N_numeral (Npos p)).
  - change (pretty (Zneg p)) with (String "-" (pretty (Npos p))).
    intros c [<-|Hc]; [done|].
    revert c Hc. apply allDigits_no_char; [|done].
    by destruct (pretty_N_numeral (Npos p)).
Qed.

Lemma split_concat (sep : ascii) (l : list string) :
  l <> [] ->
  Forall (fun s => forall c, In c (list_ascii_of_string s) -> c <> sep) l ->
  split sep (String.concat (String sep "") l) = l.
Proof.
  intros Hne Hl. induction Hl as [|s l Hs Hl IH]; [done|].
  destruct l as [|s' l'].
  - cbn [String.concat]. by apply split_no_sep.
  - change (String.concat (String sep "") (s :: s' :: l'))
      with (s +:+ String sep (String.concat (String sep "") (s' :: l'))).
    rewrite split_at_sep by done. by rewrite IH.
Qed.

Section DecimalToE6Facts.
Context `{B : Builtins}.


Lemma numGe_inject z k : numGe (Fin (inject_Z z)) k = (k <=? z).
Proof. unfold numGe, Qle_bool. simpl. by rewrite !Z.mul_1_r. Qed.















Lemma StringToNumber_pretty (z : Z) :
  Z.abs z < 2 ^ 53 -> StringToNumber (pretty z) = Fin (inject_Z z).
Proof.
  intros Hz. unfold StringToNumber.
  rewrite trim_noWhiteSpace by apply pretty_Z_noWhiteSpace.
  destruct z as [|p|p]; [done|..].
  - change (pretty (Zpos p)) with (pretty (Npos p)).
    pose proof (parseDigits_pretty_N (Npos p)) as Hp.
    destruct (pretty_N_numeral (Npos p)) as (Ha & Hne & _).
    destruct (pretty (Npos p)) as [|c r] eqn:E; [done|].
    cbn [allDigits] in Ha. apply andb_true_iff in Ha as [Hc _].
    rewrite (isDigit_neq c "+"), (isDigit_neq c "-") by done.
    rewrite Hp. by apply roundToDouble_exact.
  - change (pretty (Zneg p)) with (String "-" (pretty (Npos p))).
    change (Ascii.eqb "-" "+") with false. change (Ascii.eqb "-" "-") with true.
    cbn match. rewrite parseDigits_pretty_N. cbn [fmap option_fmap option_map].
    change (- Z.of_N (N.pos p)) with (Zneg p). by apply roundToDouble_exact.
Qed.

Lemma NumberToString_integer (z : Z) :
  Z.abs z < 2 ^ 53 -> NumberToString (Fin (inject_Z z)) = pretty z.
Proof.
  intros Hz. unfold NumberToString, isIntegerQ, truncQ. cbn [inject_Z Qnum Qden].
  rewrite Z.rem_1_r, Z.quot_1_r. cbn [Z.eqb andb].
  by destruct (Z.ltb_spec (Z.abs z) (2 ^ 53)); [|lia].
Qed.




End DecimalToE6Facts.

End StringFacts.



(** ** Matching *)

Section MatchFacts.
Import JS Db ReadServer Spec.
Context `{B : Builtins}.

Lemma elem_of_select {A} (tbl : table) cond (proj : Z -> row -> A) x :
  x ∈ select tbl cond proj <->
  exists id r, tbl !! id = Some r /\ sql_true (cond r) = true /\ x = proj id r.
Proof.
  unfold select. rewrite list_elem_of_fmap. split.
  - intros ([id r] & -> & Hin). apply list_elem_of_filter in Hin as [Hc Hin].
    apply elem_of_map_to_list in Hin. exists id, r. cbn in *.
    split; [done|]. split; [by apply Is_true_true|done].
  - intros (id & r & Hl & Hc & ->). exists (id, r). split; [done|].
    apply list_elem_of_filter. split; [by apply Is_true_true|].
    by apply elem_of_map_to_list.
Qed.

Lemma sql_true_and a b :
  sql_true (a AND b) = true <-> sql_true a = true /\ sql_true b = true.
Proof. destruct a as [[]|], b as [[]|]; cbn; intuition discriminate. Qed.

Lemma sql_true_or a b :
  sql_true (a OR b) = true <-> sql_true a = true \/ sql_true b = true.
Proof. destruct a as [[]|], b as [[]|]; cbn; intuition discriminate. Qed.

Lemma sql_true_eq x o : sql_true (sql_eq o (Some x)) = true <-> o = Some x.
Proof.
  destruct o as [y|]; cbn; [|intuition discriminate].
  destruct (Z.eqb_spec y x); split; intros; simplify_eq; done.
Qed.

Lemma sql_true_ne x y : sql_true (sql_ne (Some x) (Some y)) = true <-> x <> y.
Proof. cbn. destruct (Z.eqb_spec x y); cbn; intuition (try discriminate; done). Qed.

Lemma sql_true_le m o :
  sql_true (sql_le (Some m) o) = true <-> exists p, o = Some p /\ m <= p.
Proof.
  destruct o as [p|]; cbn.
  - destruct (Z.leb_spec m p); split; try discriminate; eauto.
    intros (? & ? & ?). simplify_eq. lia.
  - split; [discriminate|]. by intros (? & ? & ?).
Qed.

Lemma sql_true_ge m o :
  sql_true (sql_ge (Some m) o) = true <-> exists p, o = Some p /\ m >= p.
Proof.
  destruct o as [p|]; cbn.
  - rewrite Z.geb_leb. destruct (Z.leb_spec p m); split; try discriminate; eauto.
    + intros _. exists p. split; [done|lia].
    + intros (? & ? & ?). simplify_eq. lia.
  - split; [discriminate|]. by intros (? & ? & ?).
Qed.

Lemma matchEntry_where_spec a m r :
  sql_true (matchEntry_where a m m m m r) = true <-> isOrderOn a r /\ entryTrigger m r.
Proof.
  unfold matchEntry_where, isOrderOn, entryTrigger.
  rewrite !sql_true_and, !sql_true_or, !sql_true_and, !sql_true_or, !sql_true_and,
    !sql_true_eq, !sql_true_le, !sql_true_ge.
  split.
  - intros [[Ha Hs] H]. split; [split; [done|congruence]|].
    destruct H as [[Hl [[Hg (p & Hp & ?)]|[Hg (p & Hp & ?)]]]
                  |[Hl [[Hg (p & Hp & ?)]|[Hg (p & Hp & ?)]]]];
      exists p; (split; [done|]); simplify_eq; tauto.
  - intros [[Hs Ha] (p & Hp & H)]. split; [split; [congruence|done]|].
    destruct H as [(?&?&?)|[(?&?&?)|[(?&?&?)|(?&?&?)]]];
      [left; split; [congruence|left]|left; split; [congruence|right]
      |right; split; [congruence|left]|right; split; [congruence|right]];
      (split; [congruence|eauto]).
Qed.

Lemma matchEntry_kind_limit r :
  (matchEntry_kind r = "limit"%string <-> isLimit r = 1) /\
  (matchEntry_kind r = "stop"%string <-> isLimit r <> 1).
Proof.
  unfold matchEntry_kind. cbn. destruct (Z.eqb_spec (isLimit r) 1); cbn;
    split; split; intros; (done || discriminate).
Qed.

Lemma collectEntry_spec rows limit0 stop0 id :
  (id ∈ (collectEntry rows limit0 stop0).1 <->
     id ∈ limit0 \/ (id, "limit"%string) ∈ rows) /\
  (id ∈ (collectEntry rows limit0 stop0).2 <->
     id ∈ stop0 \/ (id, "stop"%string) ∈ rows).
Proof.
  revert limit0 stop0. induction rows as [|[i k] rest IH]; intros limit0 stop0.
  - cbn. rewrite !elem_of_nil. tauto.
  - cbn [collectEntry]. rewrite !elem_of_cons.
    destruct (String.eqb_spec k "limit") as [->|Hl].
    + destruct (IH (limit0 ++ [i]) stop0) as [-> ->].
      rewrite elem_of_app, list_elem_of_singleton.
      intuition (simplify_eq; auto).
    + destruct (String.eqb_spec k "stop") as [->|Hs].
      * destruct (IH limit0 (stop0 ++ [i])) as [-> ->].
        rewrite elem_of_app, list_elem_of_singleton.
        intuition (simplify_eq; auto).
      * destruct (IH limit0 stop0) as [-> ->].
        intuition (simplify_eq; auto).
Qed.

(** C1. GET /match/entry returns, under [limit] and [stop], exactly the ids
    of the rows in state Order on the queried asset whose trigger of the
    entry table holds, a limit order under [limit] and a stop order under
    [stop]; a market price equal to the open price triggers in all four
    cases. *)
Theorem entry_match_correct (tbl : table) (query : gmap string jsval) (a m : Z) :
  toInt (prop query "assetId") "assetId" = Normal a ->
  parseMarketE6 query = Normal m ->
  exists limit stop,
    matchEntryRoute tbl query = EntryMatches a m limit stop /\
    forall id,
      (id ∈ limit \/ id ∈ stop <->
         exists r, tbl !! id = Some r /\ isOrderOn a r /\ entryTrigger m r) /\
      (id ∈ limit <->
         exists r, tbl !! id = Some r /\ isOrderOn a r /\ entryTrigger m r /\ isLimit r = 1) /\
      (id ∈ stop <->
         exists r, tbl !! id = Some r /\ isOrderOn a r /\ entryTrigger m r /\ isLimit r = 0) /\
      (forall r, tbl !! id = Some r -> isOrderOn a r -> openPrice r = Some m ->
         isLimit r = 0 \/ isLimit r = 1 -> isLong r = 0 \/ isLong r = 1 ->
         id ∈ limit \/ id ∈ stop).
Proof.
  intros Ha Hm. unfold matchEntryRoute. rewrite Ha, Hm. cbn [mbind completion_bind].
  destruct (collectEntry (matchEntry tbl a m m m m) [] []) as [limit stop] eqn:E.
  exists limit, stop. split; [done|]. intros id.
  pose proof (collectEntry_spec (matchEntry tbl a m m m m) [] [] id) as [Hl Hs].
  rewrite E in Hl, Hs. cbn [fst snd] in Hl, Hs.
  assert (Hlim : id ∈ limit <->
    exists r, tbl !! id = Some r /\ isOrderOn a r /\ entryTrigger m r /\ isLimit r = 1).
  { rewrite Hl, elem_of_nil. unfold matchEntry. rewrite elem_of_select. split.
    - intros [[]|(i & r & Hr & Hw & Heq)]. simplify_eq.
      apply matchEntry_where_spec in Hw as [? ?]. exists r.
      split_and!; [done..|]. by apply matchEntry_kind_limit.
    - intros (r & Hr & Ho & Ht & Hk). right. exists id, r.
      split; [done|]. split; [by apply matchEntry_where_spec|].
      f_equal. symmetry. by apply matchEntry_kind_limit. }
  assert (Hstop : id ∈ stop <->
    exists r, tbl !! id = Some r /\ isOrderOn a r /\ entryTrigger m r /\ isLimit r = 0).
  { rewrite Hs, elem_of_nil. unfold matchEntry. rewrite elem_of_select. split.
    - intros [[]|(i & r & Hr & Hw & Heq)]. simplify_eq.
      apply matchEntry_where_spec in Hw as [? Ht]. exists r.
      split_and!; [done..|].
      assert (isLimit r <> 1) by (apply matchEntry_kind_limit; congruence).
      destruct Ht as (p & _ & Ht). lia.
    - intros (r & Hr & Ho & Ht & Hk). right. exists id, r.
      split; [done|]. split; [by apply matchEntry_where_spec|].
      f_equal. symmetry. apply matchEntry_kind_limit. lia. }
  assert (Hany : id ∈ limit \/ id ∈ stop <->
    exists r, tbl !! id = Some r /\ isOrderOn a r /\ entryTrigger m r).
  { rewrite Hlim, Hstop. split.
    - intros [(r & ? & ? & ? & _)|(r & ? & ? & ? & _)]; eauto.
    - intros (r & Hr & Ho & Ht). pose proof Ht as (p & _ & Hc).
      assert (isLimit r = 1 \/ isLimit r = 0) as [?|?] by lia; [left|right]; eauto 6. }
  split_and!; [done..|].
  intros r Hr Ho Hp Hlimit Hlong. apply Hany. exists r. split_and!; [done..|].
  exists m. split; [done|]. lia.
Qed.

Lemma stopLoss_fires_spec m r :
  sql_true (stopLoss_fires m m r) = true <-> stopLossTrigger m r.
Proof.
  unfold stopLoss_fires, stopLossTrigger.
  rewrite sql_true_and, sql_true_or, !sql_true_and, sql_true_ne, !sql_true_eq,
    sql_true_le, sql_true_ge.
  split.
  - intros [Hn [[Hl (p & ? & ?)]|[Hl (p & ? & ?)]]]; simplify_eq; (split; [done|]); tauto.
  - intros [Hn [[Hl ?]|[Hl ?]]]; (split; [done|]); [left|right];
      (split; [congruence|eauto]).
Qed.

Lemma takeProfit_fires_spec m r :
  sql_true (takeProfit_fires m m r) = true <-> takeProfitTrigger m r.
Proof.
  unfold takeProfit_fires, takeProfitTrigger.
  rewrite sql_true_and, sql_true_or, !sql_true_and, sql_true_ne, !sql_true_eq,
    sql_true_le, sql_true_ge.
  split.
  - intros [Hn [[Hl (p & ? & ?)]|[Hl (p & ? & ?)]]]; simplify_eq; (split; [done|]); tauto.
  - intros [Hn [[Hl ?]|[Hl ?]]]; (split; [done|]); [left|right];
      (split; [congruence|eauto]).
Qed.

Lemma matchExits_where_spec a m r :
  sql_true (matchExits_where a m m m m r) = true <->
  isOpenOn a r /\ (stopLossTrigger m r \/ takeProfitTrigger m r).
Proof.
  unfold matchExits_where, isOpenOn.
  rewrite !sql_true_and, sql_true_or, !sql_true_eq, stopLoss_fires_spec,
    takeProfit_fires_spec.
  split; [intros [[? ?] ?]|intros [[? ?] ?]]; (split; [split; congruence|done]).
Qed.

Lemma matchExits_kind_spec m r :
  (matchExits_kind m m m m r = Some "stopLoss"%string <-> stopLossTrigger m r) /\
  (matchExits_kind m m m m r = Some "takeProfit"%string <->
     takeProfitTrigger m r /\ ~ stopLossTrigger m r).
Proof.
  unfold matchExits_kind. rewrite <- stopLoss_fires_spec, <- takeProfit_fires_spec.
  destruct (sql_true (stopLoss_fires m m r)), (sql_true (takeProfit_fires m m r));
    split; split; try discriminate; try done; intros [? ?]; done.
Qed.

Lemma collectExits_spec rows sl0 tp0 id :
  (id ∈ (collectExits rows sl0 tp0).1 <->
     id ∈ sl0 \/ (id, Some "stopLoss"%string) ∈ rows) /\
  (id ∈ (collectExits rows sl0 tp0).2 <->
     id ∈ tp0 \/ (id, Some "takeProfit"%string) ∈ rows).
Proof.
  revert sl0 tp0. induction rows as [|[i k] rest IH]; intros sl0 tp0.
  - cbn. rewrite !elem_of_nil. tauto.
  - cbn [collectExits]. rewrite !elem_of_cons.
    case_bool_decide as Hl; [subst k|].
    + destruct (IH (sl0 ++ [i]) tp0) as [-> ->].
      rewrite elem_of_app, list_elem_of_singleton.
      intuition (simplify_eq; auto).
    + case_bool_decide as Hs; [subst k|].
      * destruct (IH sl0 (tp0 ++ [i])) as [-> ->].
        rewrite elem_of_app, list_elem_of_singleton.
        intuition (simplify_eq; auto).
      * destruct (IH sl0 tp0) as [-> ->].
        intuition (simplify_eq; auto).
Qed.

(** C2. GET /match/exits returns, under [stopLoss] and [takeProfit],
    exactly the ids of the open rows on the queried asset for which an
    enabled trigger fires; a row whose stop-loss fires is under [stopLoss]
    and never under [takeProfit]; a row whose take-profit is 0 is never
    under [takeProfit]. *)
Theorem exit_match_correct (tbl : table) (query : gmap string jsval) (a m : Z) :
  toInt (prop query "assetId") "assetId" = Normal a ->
  parseMarketE6 query = Normal m ->
  exists stopLossIds takeProfitIds,
    matchExitsRoute tbl query = ExitMatches a m stopLossIds takeProfitIds /\
    forall id,
      (id ∈ stopLossIds \/ id ∈ takeProfitIds <->
         exists r, tbl !! id = Some r /\ isOpenOn a r /\
                   (stopLossTrigger m r \/ takeProfitTrigger m r)) /\
      (id ∈ stopLossIds <->
         exists r, tbl !! id = Some r /\ isOpenOn a r /\ stopLossTrigger m r) /\
      (id ∈ takeProfitIds <->
         exists r, tbl !! id = Some r /\ isOpenOn a r /\
                   takeProfitTrigger m r /\ ~ stopLossTrigger m r) /\
      ~ (id ∈ stopLossIds /\ id ∈ takeProfitIds) /\
      (forall r, tbl !! id = Some r -> takeProfit r = 0 -> id ∉ takeProfitIds).
Proof.
  intros Ha Hm. unfold matchExitsRoute. rewrite Ha, Hm. cbn [mbind completion_bind].
  destruct (collectExits (matchExits tbl m m m m a m m m m) [] []) as [sl tp] eqn:E.
  exists sl, tp. split; [done|]. intros id.
  pose proof (collectExits_spec (matchExits tbl m m m m a m m m m) [] [] id) as [Hl Hs].
  rewrite E in Hl, Hs. cbn [fst snd] in Hl, Hs.
  assert (Hsl : id ∈ sl <->
    exists r, tbl !! id = Some r /\ isOpenOn a r /\ stopLossTrigger m r).
  { rewrite Hl, elem_of_nil. unfold matchExits. rewrite elem_of_select. split.
    - intros [[]|(i & r & Hr & Hw & Heq)]. simplify_eq.
      apply matchExits_where_spec in Hw as [? ?]. exists r.
      split_and!; [done..|]. by apply matchExits_kind_spec.
    - intros (r & Hr & Ho & Ht). right. exists id, r.
      split; [done|]. split; [apply matchExits_where_spec; tauto|].
      f_equal. symmetry. by apply matchExits_kind_spec. }
  assert (Htp : id ∈ tp <->
    exists r, tbl !! id = Some r /\ isOpenOn a r /\
              takeProfitTrigger m r /\ ~ stopLossTrigger m r).
  { rewrite Hs, elem_of_nil. unfold matchExits. rewrite elem_of_select. split.
    - intros [[]|(i & r & Hr & Hw & Heq)]. simplify_eq.
      apply matchExits_where_spec in Hw as [? ?]. exists r.
      split_and!; [done..|apply matchExits_kind_spec; congruence
                  |apply matchExits_kind_spec; congruence].
    - intros (r & Hr & Ho & Ht & Hn). right. exists id, r.
      split; [done|]. split; [apply matchExits_where_spec; tauto|].
      f_equal. symmetry. by apply matchExits_kind_spec. }
  split_and!; [|done|done| |].
  - rewrite Hsl, Htp. split.
    + intros [(r & ? & ? & ?)|(r & ? & ? & ? & _)]; eauto 6.
    + intros (r & Hr & Ho & Ht).
      destruct (decide (stopLoss r <> 0 /\
        ((isLong r = 1 /\ m <= stopLoss r) \/ (isLong r = 0 /\ m >= stopLoss r))))
        as [Hy|Hn]; [left; by exists r|].
      destruct Ht as [Ht|Ht]; [done|]. right. by exists r.
  - rewrite Hsl, Htp. intros [(r & Hr & _ & Ht) (r' & Hr' & _ & _ & Hn)].
    simplify_eq; done.
  - intros r Hr Hz. rewrite Htp. intros (r' & Hr' & _ & [Hne _] & _). simplify_eq; done.
Qed.

End MatchFacts.

(** The long limit order at 70000 is under [limit] when the market is at
    70000. *)
Lemma entry_match_correct_witness :
  exists limit stop,
    @ReadServer.matchEntryRoute JS.sampleBuiltins Samples.trades
      (Samples.queryE6 "70000000000")
    = ReadServer.EntryMatches 0 70000000000 limit stop /\ 7 ∈ limit.
Proof.
  destruct (@entry_match_correct JS.sampleBuiltins Samples.trades
              (Samples.queryE6 "70000000000") 0 70000000000 eq_refl eq_refl)
    as (limit & stop & Heq & H).
  exists limit, stop. split; [exact Heq|].
  apply (H 7). exists Samples.limitOrder.
  split; [reflexivity|]. split; [split; reflexivity|]. split; [|reflexivity].
  exists 70000000000. split; [reflexivity|]. left. repeat split. lia.
Defined.

(** The open long with a stop-loss at 65000 is under [stopLoss] when the
    market is at 65000. *)
Lemma exit_match_correct_witness :
  exists stopLossIds takeProfitIds,
    @ReadServer.matchExitsRoute JS.sampleBuiltins Samples.trades
      (Samples.queryE6 "65000000000")
    = ReadServer.ExitMatches 0 65000000000 stopLossIds takeProfitIds /\
    8 ∈ stopLossIds /\ 8 ∉ takeProfitIds.
Proof.
  destruct (@exit_match_correct JS.sampleBuiltins Samples.trades
              (Samples.queryE6 "65000000000") 0 65000000000 eq_refl eq_refl)
    as (sl & tp & Heq & H).
  exists sl, tp. split; [exact Heq|]. split.
  - apply (H 8). exists Samples.openLong.
    split; [reflexivity|]. split; [split; reflexivity|].
    split; [discriminate|]. left. split; [reflexivity|]. cbn. lia.
  - apply (H 8) with (r := Samples.openLong); reflexivity.
Defined.

(** ** Tasks *)

Section AsyncFacts.
Import Async.
Context {St Req Resp Exn : Type}.
Implicit Types s : St.

Lemma ensures_exec {A} (P : St -> A -> Prop) (x : step St Req Resp Exn A) script tr s a :
  ensures P x -> exec x script = (tr, Finished s a) -> P s a.
Proof.
  revert x tr. induction script as [|[[resp s'] now'] rest IH]; intros x tr Hx He.
  - destruct x; cbn in *; simplify_eq; done.
  - destruct x as [s0 a0|s0 e|s0 r k]; cbn in *; simplify_eq; [done|].
    destruct (exec (k resp s' now') rest) as [tr' o] eqn:E. simplify_eq.
    by eapply IH.
Qed.


Lemma ensures_bind {A C} (P : St -> C -> Prop) now
    (x : step St Req Resp Exn A) (f : A -> task St Req Resp Exn C) :
  ensures (fun s a => forall now', ensures P (f a s now')) x ->
  ensures P (bind_step now x f).
Proof.
  revert now. induction x as [s a|s e|s r k IH]; intros now Hx; cbn in *; [done..|].
  intros resp s' now'. apply IH, Hx.
Qed.

Lemma requests_bind {A C} (ok : Req -> Prop) now
    (x : step St Req Resp Exn A) (f : A -> task St Req Resp Exn C) :
  requests ok x ->
  ensures (fun s a => forall now', requests ok (f a s now')) x ->
  requests ok (bind_step now x f).
Proof.
  revert now. induction x as [s a|s e|s r k IH]; intros now Hr Hx; cbn in *; [done..|].
  destruct Hr as [Hr Hk]. split; [done|]. intros resp s' now'. by apply IH.
Qed.

Lemma ensures_mono {A} (P Q : St -> A -> Prop) (x : step St Req Resp Exn A) :
  (forall s a, P s a -> Q s a) -> ensures P x -> ensures Q x.
Proof.
  intros HPQ. induction x as [s a|s e|s r k IH]; cbn; [by apply HPQ|done|].
  intros Hk resp s' now'. apply IH, Hk.
Qed.

Lemma ensures_always {A} (P : St -> A -> Prop) (x : step St Req Resp Exn A) :
  (forall s a, P s a) -> ensures P x.
Proof. intros HP. induction x; cbn; auto. Qed.

Lemma stable_bind {V A C} (view : St -> V) v now
    (x : step St Req Resp Exn A) (f : A -> task St Req Resp Exn C) :
  stable view v x ->
  (forall a s now', stable view (view s) (f a s now')) ->
  stable view v (bind_step now x f).
Proof.
  intros Hx Hf. revert v now Hx.
  induction x as [s a|s e|s r k IH]; intros v now Hx; cbn in *.
  - subst v. apply Hf.
  - done.
  - destruct Hx as [Hv Hk]. split; [done|]. intros resp s' now'. apply IH, Hk.
Qed.

Lemma stable_catch {V A} (view : St -> V) v now
    (x : step St Req Resp Exn A) (h : Exn -> task St Req Resp Exn A) :
  stable view v x ->
  (forall e s now', stable view (view s) (h e s now')) ->
  stable view v (catch_step now x h).
Proof.
  intros Hx Hh. revert v now Hx.
  induction x as [s a|s e|s r k IH]; intros v now Hx; cbn in *.
  - done.
  - subst v. apply Hh.
  - destruct Hx as [Hv Hk]. split; [done|]. intros resp s' now'. apply IH, Hk.
Qed.

Lemma stable_yielded {V A} (view : St -> V) v (x : step St Req Resp Exn A) :
  stable view v x -> view (yielded x) = v.
Proof. destruct x; cbn; tauto. Qed.

Lemma settle_shared (l : loop St Req Resp Exn) c x :
  shared (settle l c x).1 = yielded x.
Proof. by destruct x. Qed.

Lemma settle_started (l : loop St Req Resp Exn) c x :
  started (settle l c x).1 = started l.
Proof. by destruct x. Qed.

Lemma turn_started (l : loop St Req Resp Exn) i :
  (started l <= started (turn l i).1)%nat.
Proof.
  destruct i as [t now|c resp now]; cbn.
  - rewrite settle_started. cbn. lia.
  - destruct (parked l !! c) as [[r k]|]; [by rewrite settle_started|done].
Qed.

(** A call that has started and is not parked has finished: it issues no
    further request, whatever the loop is given. *)
Lemma finished_turn (l : loop St Req Resp Exn) i c :
  (c < started l)%nat -> parked l !! c = None ->
  (c < started (turn l i).1)%nat /\ parked (turn l i).1 !! c = None /\
  forall r, (c, r) ∉ (turn l i).2.
Proof.
  intros Hc Hp. destruct i as [t now|c' resp now]; cbn.
  - destruct (t (shared l) now) as [s a|s e|s r k]; cbn.
    + split; [lia|]. split; [by rewrite lookup_delete_ne by lia|].
      intros r. apply not_elem_of_nil.
    + split; [lia|]. split; [by rewrite lookup_delete_ne by lia|].
      intros r. apply not_elem_of_nil.
    + split; [lia|]. split; [by rewrite lookup_insert_ne by lia|].
      intros r'. rewrite list_elem_of_singleton. intros ?; simplify_eq; lia.
  - destruct (parked l !! c') as [[r k]|] eqn:E; cbn.
    + assert (c' <> c) by congruence.
      destruct (k resp (shared l) now) as [s a|s e|s r' k']; cbn.
      * split; [done|]. split; [by rewrite lookup_delete_ne|].
        intros ?. apply not_elem_of_nil.
      * split; [done|]. split; [by rewrite lookup_delete_ne|].
        intros ?. apply not_elem_of_nil.
      * split; [done|]. split; [by rewrite lookup_insert_ne|].
        intros ?. rewrite list_elem_of_singleton. intros ?; simplify_eq.
    + split; [done|]. split; [done|]. intros ?. apply not_elem_of_nil.
Qed.

Lemma finished_turns (l : loop St Req Resp Exn) ins c :
  (c < started l)%nat -> parked l !! c = None ->
  forall r, (c, r) ∉ (turns l ins).2.
Proof.
  revert l. induction ins as [|i rest IH]; intros l Hc Hp r; cbn.
  - apply not_elem_of_nil.
  - destruct (finished_turn l i c Hc Hp) as (Hc' & Hp' & Hout).
    destruct (turn l i) as [l' out] eqn:E. cbn in *.
    specialize (IH l' Hc' Hp' r).
    destruct (turns l' rest) as [l'' out']. cbn in *.
    rewrite elem_of_app. intros [?|?]; [by eapply Hout|done].
Qed.

End AsyncFacts.

Ltac task_unfold :=
  unfold mbind, mret, Async.task_bind, Async.task_ret, Async.bind, Async.ret,
    Async.dateNow, Async.get, Async.modify, Async.throw, Async.await,
    Async.try_catch;
  cbn [Async.bind_step Async.catch_step].

(** ** Proof fetcher *)

Section ProofFacts.
Import JS Async ProofClient.
Context `{B : Builtins}.

Lemma merge_sort_perm_eq (l1 l2 : list Z) :
  l1 ≡ₚ l2 -> merge_sort Z.le l1 = merge_sort Z.le l2.
Proof.
  intros Hp. apply (Sorted_unique Z.le).
  - apply Sorted_merge_sort, _.
  - apply Sorted_merge_sort, _.
  - by rewrite !merge_sort_Permutation.
Qed.

Lemma makeKey_perm (l1 l2 : list Z) : l1 ≡ₚ l2 -> makeKey l1 = makeKey l2.
Proof. intros Hp. unfold makeKey. by rewrite (merge_sort_perm_eq l1 l2). Qed.

Lemma fetchProof_hit rpc ct (l : list Z) (c : cache) now proof ts :
  c !! makeKey l = Some (proof, ts) -> now - ts < 1000 ->
  fetchProof rpc ct l c now = Return c proof.
Proof.
  intros Hc Hts. unfold fetchProof. task_unfold. rewrite Hc.
  apply Z.ltb_lt in Hts. by rewrite Hts.
Qed.

Lemma fetchProof_caches rpc ct (l : list Z) (c : cache) now :
  ensures (fun c' proof => exists ts, c' !! makeKey l = Some (proof, ts) /\ now - ts < 1000)
    (fetchProof rpc ct l c now).
Proof.
  unfold fetchProof. task_unfold.
  destruct (c !! makeKey l) as [[proof ts]|] eqn:E;
    [destruct (Z.ltb_spec (now - ts) 1000); [cbn; eauto|]|];
    (apply ensures_bind, ensures_always; intros c' data now'; cbn;
     exists now; rewrite lookup_insert_eq; split; [done|lia]).
Qed.

(** C8 (amended). The cache key is the sorted, comma-joined list of asset
    indices with duplicates kept, so two requests whose lists are
    permutations of each other share a key; after a request for one has
    finished, a request for the other that starts less than 1000 ms after
    the cached fetch time returns the cached proof without awaiting any
    network call. *)
Theorem proof_cache_key_permutation rpc ct (l1 l2 : list Z) :
  l1 ≡ₚ l2 ->
  makeKey l1 = makeKey l2 /\
  forall (c : cache) t1 script tr c' proof,
    exec (fetchProof rpc ct l1 c t1) script = (tr, Finished c' proof) ->
    exists ts, c' !! makeKey l2 = Some (proof, ts) /\ t1 - ts < 1000 /\
      forall t2, t2 - ts < 1000 -> fetchProof rpc ct l2 c' t2 = Return c' proof.
Proof.
  intros Hp. split; [by apply makeKey_perm|].
  intros c t1 script tr c' proof He.
  destruct (ensures_exec _ _ _ _ _ _ (fetchProof_caches rpc ct l1 c t1) He)
    as (ts & Hc & Hts).
  rewrite (makeKey_perm l1 l2 Hp) in Hc.
  exists ts. split; [done|]. split; [done|]. intros t2 Ht2.
  by apply fetchProof_hit with (ts := ts).
Qed.

End ProofFacts.

(** A request for [5000, 5001] after one for [5001, 5000]: same key, and a
    cache hit 999 ms after the fetch. *)
Lemma proof_cache_key_permutation_witness :
  ProofClient.makeKey [5001; 5000] = ProofClient.makeKey [5000; 5001] /\
  @ProofClient.fetchProof JS.sampleBuiltins "http://dora" "evm" [5000; 5001]
    (<["5000,5001"%string := ("0xabcd"%string, 1000)]> ∅) 1999
  = Async.Return (<["5000,5001"%string := ("0xabcd"%string, 1000)]> ∅) "0xabcd"%string.
Proof.
  destruct (@proof_cache_key_permutation JS.sampleBuiltins "http://dora" "evm"
              [5001; 5000] [5000; 5001] (perm_swap _ _ _)) as [Hk Hhit].
  split; [exact Hk|].
  assert (He :
    Async.exec
      (@ProofClient.fetchProof JS.sampleBuiltins "http://dora" "evm" [5001; 5000] ∅ 1000)
      [(JS.Normal {| ProofClient.result_proof_bytes := JS.JStr "0xabcd";
                     ProofClient.result_proofBytes := JS.JUndefined;
                     ProofClient.proof_bytes := JS.JUndefined;
                     ProofClient.proofBytes := JS.JUndefined;
                     ProofClient.data_proof_bytes := JS.JUndefined;
                     ProofClient.data_proofBytes := JS.JUndefined |}, ∅, 1200)]
    = ([ProofClient.Post "http://dora" (ProofClient.RpcBody [5001; 5000] "evm")],
       Async.Finished (<["5000,5001"%string := ("0xabcd"%string, 1000)]> ∅)
         "0xabcd"%string)) by (vm_compute; reflexivity).
  destruct (Hhit _ _ _ _ _ _ He) as (ts & Hc & _ & Hret).
  assert (ts = 1000) as -> by (vm_compute in Hc; congruence).
  apply Hret. lia.
Defined.

(** C8 as stated fails: [5000] and [5000, 5000] are equal as sets but get
    different keys, so a request for the second after the first is cached
    awaits the network. *)
Lemma proof_cache_key_keeps_duplicates :
  (forall x : Z, x ∈ [5000] <-> x ∈ [5000; 5000]) /\
  ProofClient.makeKey [5000] = "5000"%string /\
  ProofClient.makeKey [5000; 5000] = "5000,5000"%string /\
  @ProofClient.fetchProof JS.sampleBuiltins "http://dora" "evm" [5000]
    (<["5000"%string := ("0xabcd"%string, 1000)]> ∅) 1001
  = Async.Return (<["5000"%string := ("0xabcd"%string, 1000)]> ∅) "0xabcd"%string /\
  (Async.exec
     (@ProofClient.fetchProof JS.sampleBuiltins "http://dora" "evm" [5000; 5000]
        (<["5000"%string := ("0xabcd"%string, 1000)]> ∅) 1001) []).1
  = [ProofClient.Post "http://dora" (ProofClient.RpcBody [5000; 5000] "evm")].
Proof.
  split; [intros x; rewrite !elem_of_cons; tauto|].
  repeat split; vm_compute; reflexivity.
Qed.

(** ** Wallet pool *)

Section WalletFacts.
Import JS WalletPool.
Context {Wallet : Type} (newWallet : string -> Wallet).
Implicit Types p : @pool Wallet.

Lemma scan_Some p now remaining tries i :
  scan p now remaining tries = Some i ->
  exists b, busyUntil p !! i = Some b /\ b <= now.
Proof.
  revert tries. induction remaining as [|k IH]; intros tries H; [done|].
  cbn [scan] in H.
  destruct (busyUntil p !! ((nextIndex p + tries) mod length (wallets p))%nat)
    as [b|] eqn:E; [|by eapply IH].
  destruct (Z.leb_spec b now); [|by eapply IH].
  simplify_eq. eauto.
Qed.

Lemma scan_all_busy p now remaining tries :
  (forall b, b ∈ busyUntil p -> now < b) -> scan p now remaining tries = None.
Proof.
  intros Hbusy. revert tries. induction remaining as [|k IH]; intros tries; [done|].
  cbn [scan].
  destruct (busyUntil p !! ((nextIndex p + tries) mod length (wallets p))%nat)
    as [b|] eqn:E; [|done].
  assert (now < b) by (eapply Hbusy, list_elem_of_lookup_2; done).
  destruct (Z.leb_spec b now); [lia|done].
Qed.

Lemma attempt_cases p now p' it :
  attempt p now = (p', it) ->
  (exists i b, scan p now (length (wallets p)) 0 = Some i /\
     busyUntil p !! i = Some b /\ b <= now /\
     it = Acquired (wallets p !! i) /\
     wallets p' = wallets p /\ perWalletDelayMs p' = perWalletDelayMs p /\
     busyUntil p' = <[i := now + perWalletDelayMs p]> (busyUntil p)) \/
  (p' = p /\ it = Sleep ((fun earliest => Z.max 10 (earliest - now)) <$> mathMin (busyUntil p))).
Proof.
  unfold attempt. destruct (scan p now (length (wallets p)) 0) as [i|] eqn:E;
    intros H; simplify_eq; [left|right; done].
  destruct (scan_Some _ _ _ _ _ E) as (b & Hb & Hle).
  exists i, b. done.
Qed.

Lemma attempt_covered p now p' it t w :
  0 <= perWalletDelayMs p -> NoDup (wallets p) ->
  attempt p now = (p', it) -> covered p t w -> covered p' t w.
Proof.
  intros HD Hnd H Hc.
  apply attempt_cases in H as [(i & b & _ & Hb & Hle & _ & Hw & Hd & Hbu)|[-> _]];
    [|done].
  intros j Hj. rewrite Hw in Hj. destruct (Hc j Hj) as (bj & Hbj & Ht).
  rewrite Hbu, Hd. destruct (decide (i = j)) as [->|Hne].
  - exists (now + perWalletDelayMs p). split; [|simplify_eq; lia].
    apply list_lookup_insert_eq. by eapply lookup_lt_Some.
  - exists bj. by rewrite list_lookup_insert_ne.
Qed.

Lemma attempt_acquired_covered p now p' w :
  attempt p now = (p', Acquired (Some w)) -> NoDup (wallets p) -> covered p' now w.
Proof.
  intros H Hnd.
  apply attempt_cases in H as [(i & b & _ & Hb & Hle & Hit & Hw & Hd & Hbu)|[_ ?]];
    [|done].
  simplify_eq. intros j Hj. rewrite Hw in Hj.
  assert (j = i) as -> by (eapply NoDup_lookup; done).
  rewrite Hbu, Hd. exists (now + perWalletDelayMs p). split; [|lia].
  apply list_lookup_insert_eq. by eapply lookup_lt_Some.
Qed.

Lemma attempt_acquired_after p now p' w t :
  attempt p now = (p', Acquired (Some w)) -> covered p t w ->
  t + perWalletDelayMs p <= now.
Proof.
  intros H Hc.
  apply attempt_cases in H as [(i & b & _ & Hb & Hle & Hit & _)|[_ ?]]; [|done].
  simplify_eq. destruct (Hc i) as (b' & Hb' & Ht); [done|]. simplify_eq. lia.
Qed.

Lemma attempt_same_config p now p' it :
  attempt p now = (p', it) ->
  wallets p' = wallets p /\ perWalletDelayMs p' = perWalletDelayMs p.
Proof.
  intros H. by apply attempt_cases in H as [(i & b & _ & _ & _ & _ & ? & ? & _)|[-> _]].
Qed.

Lemma run_after_covered p clock t w j t2 :
  0 <= perWalletDelayMs p -> NoDup (wallets p) -> covered p t w ->
  run p clock !! j = Some (t2, Acquired (Some w)) ->
  t + perWalletDelayMs p <= t2.
Proof.
  revert p j. induction clock as [|now later IH]; intros p j HD Hnd Hc Hj; [done|].
  cbn [run] in Hj. destruct (attempt p now) as [p' it] eqn:E.
  destruct (attempt_same_config _ _ _ _ E) as [Hw Hd].
  destruct j as [|j]; cbn in Hj.
  - simplify_eq. by eapply attempt_acquired_after.
  - rewrite <- Hd. eapply IH; [by rewrite Hd|by rewrite Hw| |done].
    by eapply attempt_covered.
Qed.

Lemma run_spaced p clock i j t1 t2 w :
  0 <= perWalletDelayMs p -> NoDup (wallets p) -> (i < j)%nat ->
  run p clock !! i = Some (t1, Acquired (Some w)) ->
  run p clock !! j = Some (t2, Acquired (Some w)) ->
  t1 + perWalletDelayMs p <= t2.
Proof.
  revert p i j. induction clock as [|now later IH]; intros p i j HD Hnd Hij Hi Hj; [done|].
  cbn [run] in Hi, Hj. destruct (attempt p now) as [p' it] eqn:E.
  destruct (attempt_same_config _ _ _ _ E) as [Hw Hd].
  destruct j as [|j]; [lia|]. cbn in Hj. destruct i as [|i]; cbn in Hi.
  - simplify_eq. rewrite <- Hd.
    eapply run_after_covered; [by rewrite Hd|by rewrite Hw| |done].
    by eapply attempt_acquired_covered.
  - rewrite <- Hd. eapply (IH p' i j); [by rewrite Hd|by rewrite Hw|lia|done..].
Qed.

Lemma run_sleep p clock j t ms :
  busyUntil p <> [] -> run p clock !! j = Some (t, Sleep ms) ->
  exists m, ms = Some m /\ 10 <= m.
Proof.
  revert p j. induction clock as [|now later IH]; intros p j Hne Hj; [done|].
  cbn [run] in Hj. destruct (attempt p now) as [p' it] eqn:E.
  pose proof E as E'.
  apply attempt_cases in E as [(i & b & _ & _ & _ & -> & _ & _ & Hbu)|[-> ->]].
  - destruct j as [|j]; cbn in Hj; [done|]. eapply IH; [|done].
    rewrite Hbu. intros Hnil. apply (f_equal length) in Hnil.
    rewrite length_insert in Hnil. by destruct (busyUntil p).
  - destruct j as [|j]; cbn in Hj; [|by eapply IH].
    simplify_eq. destruct (busyUntil p) as [|b bs]; [done|]. cbn.
    eexists. split; [done|]. lia.
Qed.

Lemma attempt_all_busy p now :
  busyUntil p <> [] -> (forall b, b ∈ busyUntil p -> now < b) ->
  exists m, attempt p now = (p, Sleep (Some m)) /\ 10 <= m.
Proof.
  intros Hne Hbusy. unfold attempt. rewrite scan_all_busy by done.
  destruct (busyUntil p) as [|b bs]; [done|]. cbn.
  eexists. split; [done|]. lia.
Qed.

(** C6. Constructing the pool with no key throws; a pool built from keys
    of distinct signers never returns the same signer at two clock
    readings less than [perWalletDelayMs] (1000 by default) apart,
    whatever the interleaving of the pending [acquire()] calls; an
    iteration that finds every signer busy sleeps, and every sleep is of at
    least 10 ms. *)
Theorem wallet_pool_spacing (privateKeys : list string) (delay : option Z) :
  (privateKeys = [] ->
     construct newWallet privateKeys delay
     = Throw (Error "No PRIVATE_KEYS provided" None)) /\
  (privateKeys <> [] ->
     exists p, construct newWallet privateKeys delay = Normal p /\
       perWalletDelayMs p = default 1000 delay /\
       (NoDup (newWallet <$> privateKeys) ->
          forall clock i j t1 t2 w, (i < j)%nat ->
            run p clock !! i = Some (t1, Acquired (Some w)) ->
            run p clock !! j = Some (t2, Acquired (Some w)) ->
            ~ (Z.abs (t2 - t1) < perWalletDelayMs p)) /\
       (forall clock j t ms, run p clock !! j = Some (t, Sleep ms) ->
          exists m, ms = Some m /\ 10 <= m)) /\
  (forall p now, busyUntil p <> [] -> (forall b, b ∈ busyUntil p -> now < b) ->
     exists m, attempt p now = (p, Sleep (Some m)) /\ 10 <= m).
Proof.
  split; [|split].
  - intros ->. done.
  - intros Hne. unfold construct. rewrite bool_decide_eq_false_2 by done.
    match goal with |- context [Normal ?q] => set (p := q) end.
    exists p. split; [done|]. split; [done|]. split.
    + intros Hnd clock i j t1 t2 w Hij Hi Hj.
      destruct (Z.lt_ge_cases (perWalletDelayMs p) 0) as [?|HD]; [lia|].
      pose proof (run_spaced p clock i j t1 t2 w HD Hnd Hij Hi Hj) as H. lia.
    + intros clock j t ms. apply run_sleep. cbn.
      destruct privateKeys; [done|]. done.
  - apply attempt_all_busy.
Qed.

End WalletFacts.

(** Two signers, two acquisitions of each, one second apart. *)
Lemma wallet_pool_spacing_witness :
  exists p,
    WalletPool.construct (fun pk : string => pk) ["k1"; "k2"]%string None = JS.Normal p /\
    WalletPool.run p [5000; 5000; 5500; 6000]
    = [(5000, WalletPool.Acquired (Some "k1"%string));
       (5000, WalletPool.Acquired (Some "k2"%string));
       (5500, WalletPool.Sleep (Some 500));
       (6000, WalletPool.Acquired (Some "k1"%string))] /\
    ~ (Z.abs (6000 - 5000) < WalletPool.perWalletDelayMs p).
Proof.
  destruct (wallet_pool_spacing (fun pk : string => pk) ["k1"; "k2"]%string None)
    as (_ & H & _).
  destruct (H ltac:(discriminate)) as (p & Hp & Hd & Hsp & _).
  exists p. split; [exact Hp|].
  assert (Hrun : WalletPool.run p [5000; 5000; 5500; 6000]
    = [(5000, WalletPool.Acquired (Some "k1"%string));
       (5000, WalletPool.Acquired (Some "k2"%string));
       (5500, WalletPool.Sleep (Some 500));
       (6000, WalletPool.Acquired (Some "k1"%string))]).
  { cbv [WalletPool.construct] in Hp. cbn in Hp. injection Hp as <-. reflexivity. }
  split; [exact Hrun|].
  assert (Hnd : NoDup ((fun pk : string => pk) <$> ["k1"; "k2"]%string)).
  { cbn. apply NoDup_cons. split; [|apply NoDup_singleton].
    rewrite list_elem_of_singleton. discriminate. }
  apply (Hsp Hnd [5000; 5000; 5500; 6000] 0%nat 3%nat
           5000 6000 "k1"%string ltac:(lia)); rewrite Hrun; reflexivity.
Defined.

(** ** Write routes *)

Section WriteFacts.
Import JS WriteRoutes.
Context `{B : Builtins}.

Lemma throwsPlain_bind {A C} (c : completion A) (f : A -> completion C) :
  throwsPlain c -> (forall a, throwsPlain (f a)) -> throwsPlain (c ≫= f).
Proof. destruct c; cbn; auto. Qed.

Lemma toInt_plain v name : throwsPlain (toInt v name).
Proof. unfold toInt. destruct (isNullish v), (negb (isFinite (Number v))); done. Qed.

Lemma optInt_plain v name : throwsPlain (optInt v name).
Proof.
  unfold optInt. destruct (isNullish v); [done|].
  pose proof (toInt_plain v name). by destruct (toInt v name).
Qed.

Lemma intOr0_plain v name : throwsPlain (intOr0 v name).
Proof. unfold intOr0. destruct (isNullish v); [done|apply toInt_plain]. Qed.

Lemma toBoolInt_plain v name : throwsPlain (toBoolInt v name).
Proof.
  unfold toBoolInt. destruct v as [| |[]|[| |q]|s|]; try done.
  - destruct (Qeq_bool q 1), (Qeq_bool q 0); done.
  - destruct (String.eqb s "1" || String.eqb s "true"),
      (String.eqb s "0" || String.eqb s "false"); done.
Qed.

Lemma caught_4xx e : plain e ->
  exists status err, caught e = Rejected status err /\ 400 <= status < 500.
Proof.
  destruct e as [msg|msg [status|]]; cbn; intros H; subst; cbn;
    eexists _, _; (split; [done|lia]).
Qed.

Lemma putPayload_plain idParam b : throwsPlain (putPayload idParam b).
Proof.
  unfold putPayload.
  repeat (apply throwsPlain_bind;
          [first [apply toInt_plain|apply toBoolInt_plain|apply optInt_plain
                 |apply intOr0_plain]|intros ?]).
  done.
Qed.

Lemma patchFields_plain b : throwsPlain (patchFields b).
Proof.
  unfold patchFields.
  repeat (apply throwsPlain_bind; [apply optInt_plain|intros ?]). done.
Qed.

Ltac bind_inv H :=
  repeat match type of H with
         | context [mbind _ ?c] =>
             let E := fresh "E" in
             destruct c eqn:E; cbn [mbind completion_bind] in H; [|discriminate H]
         end.

Lemma putPayload_fields idParam b id payload :
  putPayload idParam b = Normal (id, payload) ->
  exists st cp, toInt (prop b "state") "state" = Normal st /\
    intOr0 (prop b "closePrice") "closePrice" = Normal cp /\
    Db.state payload = Some st /\ Db.closePrice payload = Some cp.
Proof.
  unfold putPayload. intros H. bind_inv H. simplify_eq. cbn.
  do 2 eexists; split_and!; reflexivity.
Qed.

Lemma patchFields_fields b patch :
  patchFields b = Normal patch ->
  optInt (prop b "state") "state" = Normal (Db.p_state patch) /\
  optInt (prop b "closePrice") "closePrice" = Normal (Db.p_closePrice patch) /\
  optInt (prop b "closedLotSize") "closedLotSize" = Normal (Db.p_closedLotSize patch).
Proof.
  unfold patchFields. intros H. bind_inv H. simplify_eq. cbn. done.
Qed.

(** C9. A PUT with state 2 and a close price that is absent or zero is
    rejected with a 4xx status and leaves the table as it was; so is a
    PATCH with state 2 unless a nonzero close price is in the patch or
    already stored; an accepted closing PATCH that omits [closedLotSize]
    stores the row's [lotSize] there (the column keeps its value when
    [lotSize] is NULL). *)
Theorem close_requires_close_price (tbl : Db.table) (idParam : jsval)
    (body : gmap string jsval) :
  (toInt (prop body "state") "state" = Normal 2 ->
   isNullish (prop body "closePrice") = true \/
     toInt (prop body "closePrice") "closePrice" = Normal 0 ->
   exists status err,
     putTrade tbl idParam body = (tbl, Rejected status err) /\ 400 <= status < 500) /\
  (optInt (prop body "state") "state" = Normal (Some 2) ->
   (forall c, optInt (prop body "closePrice") "closePrice" = Normal (Some c) -> c = 0) ->
   (forall id existing c,
      toInt idParam "id" = Normal id -> tbl !! id = Some existing ->
      Db.closePrice existing = Some c -> c = 0) ->
   exists status err,
     patchTrade tbl idParam body = (tbl, Rejected status err) /\ 400 <= status < 500) /\
  (optInt (prop body "state") "state" = Normal (Some 2) ->
   forall tbl' trade,
     patchTrade tbl idParam body = (tbl', Accepted trade) ->
     exists id existing updated c,
       toInt idParam "id" = Normal id /\ tbl !! id = Some existing /\
       tbl' = <[id := updated]> tbl /\ trade = Some updated /\
       Db.state updated = Some 2 /\
       Db.closePrice updated = Some c /\ c <> 0 /\
       (optInt (prop body "closePrice") "closePrice" = Normal (Some c) \/
        optInt (prop body "closePrice") "closePrice" = Normal None /\
          Db.closePrice existing = Some c) /\
       (optInt (prop body "closedLotSize") "closedLotSize" = Normal None ->
        Db.closedLotSize updated
        = default (Db.closedLotSize existing) (Db.lotSize existing))).
Proof.
  split; [|split].
  - intros Hst Hcp. unfold putTrade.
    pose proof (putPayload_plain idParam body) as Hplain.
    destruct (putPayload idParam body) as [[id payload]|e] eqn:E.
    + apply putPayload_fields in E as (st & cp & Hst' & Hcp' & Hs & Hc).
      assert (st = 2) as -> by congruence.
      assert (cp = 0) as ->.
      { unfold intOr0 in Hcp'. destruct Hcp as [Hn|Hz].
        - rewrite Hn in Hcp'. congruence.
        - destruct (isNullish (prop body "closePrice")); congruence. }
      destruct (invalidTrader (Db.trader payload)); [eexists _, _; split; [done|lia]|].
      rewrite Hs, Hc. cbn. eexists _, _; split; [done|lia].
    + destruct (caught_4xx e Hplain) as (status & err & -> & ?). eauto.
  - intros Hst Hsupplied Hstored. unfold patchTrade.
    pose proof (toInt_plain idParam "id") as Hp1.
    destruct (toInt idParam "id") as [id|e] eqn:Eid; cbn [mbind completion_bind];
      [|destruct (caught_4xx e Hp1) as (status & err & -> & ?); eauto].
    unfold requireTradeExists, Db.getTradeById.
    destruct (tbl !! id) as [existing|] eqn:Erow; cbn [mbind completion_bind];
      [|cbn; eexists _, _; split; [done|lia]].
    pose proof (patchFields_plain body) as Hp2.
    destruct (patchFields body) as [patch|e] eqn:Ep; cbn [mbind completion_bind];
      [|destruct (caught_4xx e Hp2) as (status & err & -> & ?); eauto].
    apply patchFields_fields in Ep as (Hs & Hc & _).
    assert (Db.p_state patch = Some 2) as -> by congruence. cbn.
    assert (noClose (closeOf existing patch) = true) as ->.
    { unfold closeOf, noClose. destruct (Db.p_closePrice patch) as [c|] eqn:Ec.
      - rewrite (Hsupplied c) by done. done.
      - destruct (Db.closePrice existing) as [c|] eqn:Ec'; [|done].
        by rewrite (Hstored id existing c). }
    eexists _, _; split; [done|lia].
  - intros Hst tbl' trade. unfold patchTrade.
    destruct (toInt idParam "id") as [id|e] eqn:Eid; cbn [mbind completion_bind];
      [|by destruct e as [|? []]].
    unfold requireTradeExists, Db.getTradeById.
    destruct (tbl !! id) as [existing|] eqn:Erow; cbn [mbind completion_bind]; [|done].
    destruct (patchFields body) as [patch|e] eqn:Ep; cbn [mbind completion_bind];
      [|by destruct e as [|? []]].
    apply patchFields_fields in Ep as (Hs & Hc & Hl).
    assert (Hp2 : Db.p_state patch = Some 2) by congruence.
    rewrite bool_decide_eq_true_2 by done.
    destruct (noClose (closeOf existing patch)) eqn:Hclose; [done|].
    unfold Db.tx_patchTrade, Db.patchTrade, Db.getTradeById. rewrite Erow. cbn.
    rewrite lookup_insert_eq. intros H. simplify_eq.
    unfold closeOf, noClose in Hclose.
    exists id, existing, (Db.patchRow (fillClosedLotSize existing patch) existing).
    assert (Hfill : optInt (prop body "closedLotSize") "closedLotSize" = Normal None ->
      Db.closedLotSize (Db.patchRow (fillClosedLotSize existing patch) existing)
      = default (Db.closedLotSize existing) (Db.lotSize existing)).
    { intros Hn. rewrite Hl in Hn. injection Hn as Hn. cbn. by rewrite Hn. }
    destruct (Db.p_closePrice patch) as [c|] eqn:Ec.
    + exists c. split_and!; try done.
      * cbn. by rewrite Hp2.
      * cbn. by rewrite Ec.
      * by apply Z.eqb_neq.
      * left. by rewrite Hc.
    + destruct (Db.closePrice existing) as [c|] eqn:Ec'; [|done].
      exists c. split_and!; try done.
      * cbn. by rewrite Hp2.
      * cbn. by rewrite Ec.
      * by apply Z.eqb_neq.
      * right. by rewrite Hc.
Qed.

End WriteFacts.

(** Closing trade 8 without a close price is rejected by PUT and by PATCH
    (its stored close price is NULL); closing it at 66000 by PATCH is
    accepted and records its whole lot size, 3, as closed. *)
Lemma close_requires_close_price_witness :
  (exists status err,
     @WriteRoutes.putTrade JS.sampleBuiltins Samples.trades (JS.JStr "8")
       Samples.closeWithoutPrice
     = (Samples.trades, WriteRoutes.Rejected status err) /\ 400 <= status < 500) /\
  (exists status err,
     @WriteRoutes.patchTrade JS.sampleBuiltins Samples.trades (JS.JStr "8")
       Samples.closeWithoutPrice
     = (Samples.trades, WriteRoutes.Rejected status err) /\ 400 <= status < 500) /\
  (exists tbl' updated,
     @WriteRoutes.patchTrade JS.sampleBuiltins Samples.trades (JS.JStr "8")
       Samples.closeAt66000
     = (tbl', WriteRoutes.Accepted (Some updated)) /\
     Db.closedLotSize updated = 3).
Proof.
  split; [|split].
  - destruct (@close_requires_close_price JS.sampleBuiltins Samples.trades
                (JS.JStr "8") Samples.closeWithoutPrice) as (H & _).
    apply H; [reflexivity|left; reflexivity].
  - destruct (@close_requires_close_price JS.sampleBuiltins Samples.trades
                (JS.JStr "8") Samples.closeWithoutPrice) as (_ & H & _).
    apply H; [reflexivity|discriminate|].
    intros id existing c Hid Hrow Hc. vm_compute in Hid. injection Hid as <-.
    vm_compute in Hrow. injection Hrow as <-. discriminate Hc.
  - destruct (@close_requires_close_price JS.sampleBuiltins Samples.trades
                (JS.JStr "8") Samples.closeAt66000) as (_ & _ & H).
    destruct (@WriteRoutes.patchTrade JS.sampleBuiltins Samples.trades (JS.JStr "8")
                Samples.closeAt66000) as [tbl' resp] eqn:E.
    assert (Hacc : exists trade, resp = WriteRoutes.Accepted trade).
    { vm_compute in E. injection E as _ <-. eauto. }
    destruct Hacc as [trade ->].
    destruct (H eq_refl tbl' trade eq_refl)
      as (id & existing & updated & c & Hid & Hrow & -> & -> & _ & _ & _ & _ & Hfill).
    exists (<[id := updated]> Samples.trades), updated. split; [reflexivity|].
    rewrite (Hfill eq_refl).
    vm_compute in Hid. injection Hid as <-.
    vm_compute in Hrow. injection Hrow as <-. reflexivity.
Defined.

(** ** Execution orchestrator *)

Section ExecFacts.
Import JS Async Executor.
Context `{B : Builtins} {Wallet : Type}.
Abbreviation task := (Async.task state (@request Wallet) (@response Wallet) exn).
Abbreviation loop := (Async.loop state (@request Wallet) (@response Wallet) exn).

Lemma quiet_ret {A} (a : A) : quiet (mret a : task A).
Proof. by intros s now. Qed.

Lemma quiet_bind {A C} (t : task A) (f : A -> task C) :
  quiet t -> (forall a, quiet (f a)) -> quiet (t ≫= f).
Proof. intros Ht Hf s now. apply stable_bind; [apply Ht|intros a s' now'; apply Hf]. Qed.

Lemma quiet_throw {A} e : quiet (throw e : task A).
Proof. by intros s now. Qed.

Lemma quiet_unexpected {A} : quiet (unexpected : task A).
Proof. by intros s now. Qed.

Lemma quiet_await r : quiet (await r : task _).
Proof. intros s now. cbn. split; [done|]. by intros resp s' now'. Qed.

Lemma quiet_get : quiet (get : task _).
Proof. by intros s now. Qed.

Lemma quiet_dateNow : quiet (dateNow : task _).
Proof. by intros s now. Qed.

Lemma quiet_modify f :
  (forall s, recentlySent (f s) = recentlySent s) -> quiet (modify f : task _).
Proof. intros Hf s now. cbn. apply Hf. Qed.

Lemma quiet_try_catch {A} (t : task A) h :
  quiet t -> (forall e, quiet (h e)) -> quiet (try_catch t h).
Proof. intros Ht Hh s now. apply stable_catch; [apply Ht|intros e s' now'; apply Hh]. Qed.

Ltac quiet_step :=
  first [ apply quiet_ret | apply quiet_throw | apply quiet_unexpected
        | apply quiet_await | apply quiet_get | apply quiet_dateNow
        | apply quiet_modify; intros ?; reflexivity
        | apply quiet_bind; [|intros ?]
        | apply quiet_try_catch; [|intros ?]
        | match goal with
          | |- quiet (if ?b then _ else _) => destruct b
          | |- quiet (match ?x with _ => _ end) => destruct x
          end ].

Lemma quiet_getLpFreeCapitalE6 cfg : quiet (getLpFreeCapitalE6 cfg : task _).
Proof. unfold getLpFreeCapitalE6. repeat quiet_step. Qed.

Lemma quiet_getTradeLockedE6 tradeId : quiet (getTradeLockedE6 tradeId : task _).
Proof. unfold getTradeLockedE6. repeat quiet_step. Qed.

Lemma quiet_submit kind tradeId assetId : quiet (submit kind tradeId assetId : task _).
Proof. unfold submit. repeat quiet_step. Qed.

Lemma quiet_flush : quiet (flush : task _).
Proof. unfold flush. repeat quiet_step. Qed.

Lemma quiet_onFlushTimer : quiet (onFlushTimer : task _).
Proof. unfold onFlushTimer. apply quiet_bind; [quiet_step|intros _; apply quiet_flush]. Qed.

(** Dedup: within the window of the last recorded attempt the call returns
    at once, the state untouched. *)
Lemma executeOnchain_skipped cfg kind tradeId assetId (s : state) now :
  now - lastSent s (dedupKey kind tradeId) < DEDUP_MS cfg ->
  (executeOnchain cfg kind tradeId assetId : task _) s now = Return s tt.
Proof.
  intros H. unfold executeOnchain. task_unfold.
  apply Z.ltb_lt in H. by rewrite H.
Qed.

(** Otherwise the attempt is recorded first, and nothing after that touches
    the record. *)
Lemma quiet_admitAndSubmit cfg kind tradeId assetId :
  quiet (admitAndSubmit cfg kind tradeId assetId : task _).
Proof.
  unfold admitAndSubmit. destruct (String.eqb kind "entry"); [|apply quiet_submit].
  apply quiet_bind; [apply quiet_getTradeLockedE6|intros locked].
  destruct (locked <=? 0); [quiet_step|].
  apply quiet_bind; [apply quiet_getLpFreeCapitalE6|intros free].
  destruct (Z.of_N free <? locked); [quiet_step|apply quiet_submit].
Qed.

Lemma executeOnchain_passed cfg kind tradeId assetId (s : state) now :
  ~ (now - lastSent s (dedupKey kind tradeId) < DEDUP_MS cfg) ->
  (executeOnchain cfg kind tradeId assetId : task _) s now
  = admitAndSubmit cfg kind tradeId assetId
      (set_recentlySent (insert (dedupKey kind tradeId) now) s) now.
Proof.
  intros H. unfold executeOnchain. task_unfold.
  apply Z.ltb_nlt in H. by rewrite H.
Qed.

Lemma executeOnchain_recorded cfg kind tradeId assetId (s : state) now :
  ~ (now - lastSent s (dedupKey kind tradeId) < DEDUP_MS cfg) ->
  stable recentlySent (<[dedupKey kind tradeId := now]> (recentlySent s))
    ((executeOnchain cfg kind tradeId assetId : task _) s now).
Proof.
  intros H. rewrite executeOnchain_passed by done.
  pose proof (quiet_admitAndSubmit cfg kind tradeId assetId
                (set_recentlySent (insert (dedupKey kind tradeId) now) s) now) as Hq.
  exact Hq.
Qed.

Lemma enqueue_pending tradeId b : 0 < tradeId -> tradeId ∈ pending (enqueue tradeId b).
Proof.
  intros H. unfold enqueue. apply Z.leb_gt in H. rewrite H.
  unfold scheduleFlush, setAdd. cbn.
  destruct (timer b); cbn; case_bool_decide; try done;
    apply elem_of_app; right; by apply list_elem_of_singleton.
Qed.

Lemma freeStage_after cfg kind locked tradeId assetId (s : state) now :
  0 < locked ->
  freeStage cfg locked tradeId s now
    (bind_step now ((getLpFreeCapitalE6 cfg : task _) s now)
       (fun free => if Z.of_N free <? locked then mret tt
                    else submit kind tradeId assetId)).
Proof.
  intros Hpos. unfold freeStage, getLpFreeCapitalE6. task_unfold. split.
  - intros Hfresh Hlow. apply Z.ltb_lt in Hfresh, Hlow. rewrite Hfresh. cbn.
    rewrite Hlow. by exists s.
  - intros Hstale. apply Z.ltb_nlt in Hstale. rewrite Hstale. cbn.
    eexists _, _. split; [done|]. split; [done|].
    intros free s' now' Hlow. apply Z.ltb_lt in Hlow. cbn. rewrite Hlow.
    by eexists.
Qed.

(** C4. An entry attempt that passes the dedup check reads the locked
    amount from its cache or from the index. When the amount is zero (or
    below) the attempt ends there, having enqueued the trade id for resync;
    when it is positive and the free capital, cached or read from the
    vault, is below it, the attempt ends without enqueueing. In both cases
    the only requests issued are those two reads: no wallet, proof or
    ledger request. *)
Theorem admission_control cfg tradeId assetId (s : state) now :
  ~ (now - lastSent s (dedupKey "entry" tradeId) < DEDUP_MS cfg) ->
  let x := (executeOnchain cfg "entry" tradeId assetId : task _) s now in
  (forall b, 0 < tradeId -> tradeId ∈ pending (enqueue tradeId b)) /\
  (forall locked, lockedCache s !! tradeId = Some locked ->
     (locked <= 0 -> skips true tradeId s x) /\
     (0 < locked -> freeStage cfg locked tradeId s now x)) /\
  (lockedCache s !! tradeId = None ->
     exists s1 k, x = Await s1 (HttpGetTrade tradeId) k /\
       resyncBatcher s1 = resyncBatcher s /\
       forall lp locked s' now', lockedOf lp = Normal locked ->
         (locked <= 0 -> skips true tradeId s' (k (TradeJson lp) s' now')) /\
         (0 < locked ->
          freeStage cfg locked tradeId s' now' (k (TradeJson lp) s' now'))).
Proof.
  intros Hpass x. subst x. rewrite executeOnchain_passed by done.
  split; [intros b; apply enqueue_pending|]. split.
  - intros locked Hhit. unfold admitAndSubmit. cbn [String.eqb Ascii.eqb Bool.eqb].
    split.
    + intros Hz. unfold getTradeLockedE6. task_unfold.
      cbn [lockedCache set_recentlySent]. rewrite Hhit. cbn [bind_step].
      apply Z.leb_le in Hz. rewrite Hz. cbn. by eexists.
    + intros Hpos.
      pose proof (freeStage_after cfg "entry" locked tradeId assetId
        (set_recentlySent (insert (dedupKey "entry" tradeId) now) s) now Hpos) as Hfree.
      unfold getTradeLockedE6. task_unfold.
      cbn [lockedCache set_recentlySent]. rewrite Hhit. cbn [bind_step].
      pose proof Hpos as Hnz. apply Z.leb_gt in Hnz. rewrite Hnz. exact Hfree.
  - intros Hmiss. unfold admitAndSubmit. cbn [String.eqb Ascii.eqb Bool.eqb].
    unfold getTradeLockedE6 at 1. task_unfold. cbn [lockedCache set_recentlySent].
    rewrite Hmiss. cbn [bind_step].
    eexists _, _. split; [done|]. split; [done|].
    intros lp locked s' now' Hlp. cbn [bind_step]. rewrite Hlp. cbn [bind_step]. split.
    + intros Hz. apply Z.leb_le in Hz. rewrite Hz. cbn. by eexists.
    + intros Hpos.
      pose proof (freeStage_after cfg "entry" locked tradeId assetId
        (set_lockedCache (insert tradeId locked) s') now' Hpos) as Hfree.
      pose proof Hpos as Hnz. apply Z.leb_gt in Hnz. rewrite Hnz. exact Hfree.
Qed.

(** *** The dedup window over the event loop *)

Lemma loopInv_start (s : state) : loopInv (start s : loop).
Proof.
  split; [intros c r k H|intros c [? H]]; cbn in H; by rewrite lookup_empty in H.
Qed.

Lemma settle_loopInv (l : loop) c x v :
  loopInv l -> (c < started l)%nat -> stable recentlySent v x ->
  loopInv (settle l c x).1.
Proof.
  intros [Hq Hs] Hc Hx. destruct x as [s a|s e|s r k]; cbn in *.
  - split.
    + intros c' r' k' H. cbn in H. apply lookup_delete_Some in H as [_ H]. by eapply Hq.
    + intros c' [? H]. cbn in H |- *. apply lookup_delete_Some in H as [_ H]. by apply Hs.
  - split.
    + intros c' r' k' H. cbn in H. apply lookup_delete_Some in H as [_ H]. by eapply Hq.
    + intros c' [? H]. cbn in H |- *. apply lookup_delete_Some in H as [_ H]. by apply Hs.
  - destruct Hx as [_ Hk]. split.
    + intros c' r' k' H. cbn in H. apply lookup_insert_Some in H as [[<- ?]|[_ H]].
      * simplify_eq. apply Hk.
      * by eapply Hq.
    + intros c' [? H]. cbn in H |- *. apply lookup_insert_Some in H as [[<- ?]|[_ H]]; [done|].
      by apply Hs.
Qed.

Lemma loopInv_next (l : loop) :
  loopInv l ->
  loopInv ({| shared := shared l; parked := parked l; started := S (started l) |} : loop).
Proof.
  intros [Hq Hs]. split; [done|]. intros c H. cbn in *. specialize (Hs c H). lia.
Qed.

(** What one turn does to the dedup record: a call that passes the dedup
    check sets its key to the clock reading, and nothing else changes it. *)
Lemma turn_recentlySent cfg (l : loop) e :
  loopInv l ->
  loopInv (turn l (input_of cfg e)).1 /\
  (recentlySent (shared (turn l (input_of cfg e)).1) = recentlySent (shared l) \/
   exists kind tradeId assetId now,
     e = Start kind tradeId assetId now /\
     ~ (now - lastSent (shared l) (dedupKey kind tradeId) < DEDUP_MS cfg) /\
     recentlySent (shared (turn l (input_of cfg e)).1)
     = <[dedupKey kind tradeId := now]> (recentlySent (shared l))).
Proof.
  intros Hinv. destruct e as [kind tradeId assetId now|now|c resp now]; cbn [input_of turn].
  - destruct (decide (now - lastSent (shared l) (dedupKey kind tradeId) < DEDUP_MS cfg))
      as [Hskip|Hpass].
    + rewrite executeOnchain_skipped by done. split.
      * eapply settle_loopInv; [by apply loopInv_next|cbn; lia|done].
      * by left.
    + pose proof (executeOnchain_recorded cfg kind tradeId assetId (shared l) now Hpass)
        as Hst.
      split.
      * eapply settle_loopInv; [by apply loopInv_next|cbn; lia|exact Hst].
      * right. exists kind, tradeId, assetId, now. split; [done|]. split; [done|].
        rewrite settle_shared. by apply stable_yielded in Hst.
  - pose proof (quiet_onFlushTimer (shared l) now) as Hst. split.
    + eapply settle_loopInv; [by apply loopInv_next|cbn; lia|exact Hst].
    + left. rewrite settle_shared. by apply stable_yielded in Hst.
  - destruct (parked l !! c) as [[r k]|] eqn:E; [|by split; [|left]].
    destruct Hinv as [Hq Hs].
    pose proof (Hq c r k E resp (shared l) now) as Hst. split.
    + eapply settle_loopInv; [done|apply Hs; by eexists|exact Hst].
    + left. rewrite settle_shared. by apply stable_yielded in Hst.
Qed.

Lemma turn_lastSent_mono cfg (l : loop) e key :
  0 <= DEDUP_MS cfg -> loopInv l ->
  lastSent (shared l) key <= lastSent (shared (turn l (input_of cfg e)).1) key.
Proof.
  intros HD Hinv. destruct (turn_recentlySent cfg l e Hinv) as [_ [Heq|H]].
  - unfold lastSent. by rewrite Heq.
  - destruct H as (kind & tradeId & assetId & now & _ & Hpass & Heq).
    unfold lastSent in *. rewrite Heq.
    destruct (decide (dedupKey kind tradeId = key)) as [<-|Hne].
    + rewrite lookup_insert_eq. cbn. lia.
    + by rewrite lookup_insert_ne.
Qed.

Lemma run_lastSent_mono cfg (l : loop) events key :
  0 <= DEDUP_MS cfg -> loopInv l ->
  loopInv (run cfg l events).1 /\
  lastSent (shared l) key <= lastSent (shared (run cfg l events).1) key.
Proof.
  intros HD. revert l. induction events as [|e rest IH]; intros l Hinv; [by split|].
  unfold run in *. cbn [fmap list_fmap turns].
  pose proof (turn_lastSent_mono cfg l e key HD Hinv) as Hmono.
  destruct (turn_recentlySent cfg l e Hinv) as [Hinv' _].
  destruct (turn l (input_of cfg e)) as [l' out]. cbn [fst] in *.
  destruct (IH l' Hinv') as [Hinv'' Hle].
  change (list_fmap _ _ (input_of cfg) rest) with (input_of cfg <$> rest).
  destruct (turns l' (input_of cfg <$> rest)) as [l'' out']. cbn [fst] in *.
  split; [done|lia].
Qed.

(** The heart of the dedup: once a call for a key has passed the check at
    [t1], every call for that key started at a clock reading less than the
    window after [t1] returns at once, whatever happened in between, and
    never issues a request. *)
Lemma dedup_window_core cfg (l1 : loop) kind tradeId a1 a2 t1 t2 mid post :
  0 <= DEDUP_MS cfg -> loopInv l1 ->
  ~ (t1 - lastSent (shared l1) (dedupKey kind tradeId) < DEDUP_MS cfg) ->
  t2 - t1 < DEDUP_MS cfg ->
  let l3 := (run cfg l1 (Start kind tradeId a1 t1 :: mid)).1 in
  shared (run cfg l3 [Start kind tradeId a2 t2]).1 = shared l3 /\
  forall r, (started l3, r) ∉ (run cfg l3 (Start kind tradeId a2 t2 :: post)).2.
Proof.
  intros HD Hinv Hpass Hwin l3.
  assert (Hl3 : loopInv l3 /\ t1 <= lastSent (shared l3) (dedupKey kind tradeId)).
  { subst l3. unfold run. cbn [fmap list_fmap turns].
    destruct (turn_recentlySent cfg l1 (Start kind tradeId a1 t1) Hinv) as [Hinv2 Hrec].
    assert (Hlast : lastSent (shared (turn l1 (input_of cfg (Start kind tradeId a1 t1))).1)
                      (dedupKey kind tradeId) = t1).
    { pose proof (executeOnchain_recorded cfg kind tradeId a1 (shared l1) t1 Hpass) as Hst.
      apply stable_yielded in Hst. cbn [input_of turn]. rewrite settle_shared.
      unfold lastSent. by rewrite Hst, lookup_insert_eq. }
    destruct (turn l1 (input_of cfg (Start kind tradeId a1 t1))) as [l2 out]. cbn [fst] in *.
    destruct (run_lastSent_mono cfg l2 mid (dedupKey kind tradeId) HD Hinv2) as [Hinv3 Hle].
    unfold run in *.
    change (list_fmap _ _ (input_of cfg) mid) with (input_of cfg <$> mid).
    destruct (turns l2 (input_of cfg <$> mid)) as [l3' out']. cbn [fst] in *.
    split; [done|lia]. }
  destruct Hl3 as [Hinv3 Hle].
  assert (Hskip : t2 - lastSent (shared l3) (dedupKey kind tradeId) < DEDUP_MS cfg) by lia.
  assert (Hturn : turn l3 (input_of cfg (Start kind tradeId a2 t2))
    = ({| shared := shared l3; parked := delete (started l3) (parked l3);
          started := S (started l3) |}, [])).
  { cbn [input_of turn]. by rewrite executeOnchain_skipped. }
  split.
  - unfold run. cbn [fmap list_fmap turns]. by rewrite Hturn.
  - intros r. unfold run. cbn [fmap list_fmap turns]. rewrite Hturn.
    change (list_fmap _ _ (input_of cfg) post) with (input_of cfg <$> post).
    pose proof (finished_turns
      ({| shared := shared l3; parked := delete (started l3) (parked l3);
          started := S (started l3) |} : loop)
      (input_of cfg <$> post) (started l3) ltac:(cbn; lia)
      ltac:(cbn; apply lookup_delete_eq) r) as Hfin.
    destruct (turns _ (input_of cfg <$> post)) as [l5 out5]. cbn in *. done.
Qed.

Lemma run_cons cfg (l : loop) e rest :
  (run cfg l (e :: rest)).1 = (run cfg (run cfg l [e]).1 rest).1.
Proof.
  unfold run. cbn [fmap list_fmap turns].
  change (list_fmap _ _ (input_of cfg) rest) with (input_of cfg <$> rest).
  destruct (turn l (input_of cfg e)) as [l' out]. cbn [fst].
  by destruct (turns l' (input_of cfg <$> rest)).
Qed.

Lemma run_single cfg (l : loop) e :
  (run cfg l [e]).1 = (turn l (input_of cfg e)).1.
Proof.
  unfold run. cbn [fmap list_fmap turns]. by destruct (turn l (input_of cfg e)).
Qed.

Lemma run_loopInv cfg (l : loop) events : loopInv l -> loopInv (run cfg l events).1.
Proof.
  revert l. induction events as [|e rest IH]; intros l Hinv; [done|].
  rewrite run_cons. apply IH. unfold run. cbn [fmap list_fmap turns].
  destruct (turn_recentlySent cfg l e Hinv) as [Hinv' _].
  by destruct (turn l (input_of cfg e)).
Qed.

(** C3 (amended). When a call of [executeOnchain] for a (kind, tradeId) is
    not itself skipped by the dedup check, every later call for the same
    (kind, tradeId) whose start time is less than the dedup window after
    it returns at once: it leaves the shared state as it is and never
    issues a request (no wallet, proof or ledger request), whatever the
    event loop ran in between and runs afterwards. *)
Theorem dedup_window cfg (st0 : state) pre mid post kind tradeId a1 a2 t1 t2 :
  0 <= DEDUP_MS cfg ->
  let l1 : loop := (run cfg (start st0) pre).1 in
  ~ (t1 - lastSent (shared l1) (dedupKey kind tradeId) < DEDUP_MS cfg) ->
  t2 - t1 < DEDUP_MS cfg ->
  let l3 := (run cfg l1 (Start kind tradeId a1 t1 :: mid)).1 in
  shared (run cfg l3 [Start kind tradeId a2 t2]).1 = shared l3 /\
  forall r, (started l3, r) ∉ (run cfg l3 (Start kind tradeId a2 t2 :: post)).2.
Proof.
  intros HD l1 Hpass Hwin. apply dedup_window_core; try done.
  apply run_loopInv, loopInv_start.
Qed.

(** C10. An entry attempt that passes the dedup check has its timestamp
    recorded in the segment in which it starts, before any admission read;
    when the attempt is then skipped by admission (it is over, and issued
    nothing but the reads of the locked and the free capital), every
    further call for the same trade started less than the dedup window
    after it still returns without issuing any request. *)
Theorem skipped_entry_consumes_window cfg (st0 : state) pre mid post tradeId a1 a2 t1 t2 :
  0 <= DEDUP_MS cfg ->
  let l1 : loop := (run cfg (start st0) pre).1 in
  ~ (t1 - lastSent (shared l1) (dedupKey "entry" tradeId) < DEDUP_MS cfg) ->
  let l2 := (run cfg l1 [Start "entry" tradeId a1 t1]).1 in
  let l3 := (run cfg l2 mid).1 in
  recentlySent (shared l2) !! dedupKey "entry" tradeId = Some t1 /\
  (parked l3 !! started l1 = None ->
   (forall r, (started l1, r) ∈ (run cfg l1 (Start "entry" tradeId a1 t1 :: mid)).2 ->
      r = HttpGetTrade tradeId \/ r = VaultLpFreeCapital) ->
   t2 - t1 < DEDUP_MS cfg ->
   forall r, (started l3, r) ∉ (run cfg l3 (Start "entry" tradeId a2 t2 :: post)).2).
Proof.
  intros HD l1 Hpass l2 l3. split.
  - subst l2. rewrite run_single. cbn [input_of turn]. rewrite settle_shared.
    pose proof (executeOnchain_recorded cfg "entry" tradeId a1 (shared l1) t1 Hpass) as Hst.
    apply stable_yielded in Hst. by rewrite Hst, lookup_insert_eq.
  - intros _ _ Hwin r.
    assert (Hl1 : loopInv l1) by apply run_loopInv, loopInv_start.
    destruct (dedup_window_core cfg l1 "entry" tradeId a1 a2 t1 t2 mid post
                HD Hl1 Hpass Hwin) as [_ H].
    subst l3 l2. rewrite <- run_cons. apply H.
Qed.

End ExecFacts.

(** Three exits for trade 7, at T, T + 10 s and T + 16 s: the second is
    skipped, and the third, 6 s after it, acquires a wallet. *)
Lemma dedup_ignores_skipped_attempts :
  (@Executor.run JS.sampleBuiltins string Executor.defaultConfig
     (Async.start Executor.initial)
     [Executor.Start "exit" 7 5000 1700000000000;
      Executor.Start "exit" 7 5000 1700000010000;
      Executor.Start "exit" 7 5000 1700000016000]).2
  = [(0%nat, Executor.WalletAcquire); (2%nat, Executor.WalletAcquire)] /\
  1700000016000 - 1700000010000 < Executor.DEDUP_MS Executor.defaultConfig.
Proof. split; [vm_compute; reflexivity|reflexivity]. Qed.

(** An exit for trade 7 passes the dedup check at T; the exit for it at
    T + 14.999 s leaves the state as it is and issues nothing. *)
Lemma dedup_window_witness :
  let l3 :=
    (@Executor.run JS.sampleBuiltins string Executor.defaultConfig
       (@Executor.run JS.sampleBuiltins string Executor.defaultConfig
          (Async.start Executor.initial) []).1
       [Executor.Start "exit" 7 5000 1700000000000]).1 in
  Async.shared
    (@Executor.run JS.sampleBuiltins string Executor.defaultConfig l3
       [Executor.Start "exit" 7 5000 1700000014999]).1
  = Async.shared l3 /\
  forall r,
    (Async.started l3, r) ∉
    (@Executor.run JS.sampleBuiltins string Executor.defaultConfig l3
       [Executor.Start "exit" 7 5000 1700000014999]).2.
Proof.
  apply (@dedup_window JS.sampleBuiltins string Executor.defaultConfig
           Executor.initial [] [] [] "exit" 7 5000 5000
           1700000000000 1700000014999).
  - cbn. lia.
  - vm_compute. intros H. discriminate H.
  - cbn. lia.
Defined.

(** An entry for trade 7 at T = 1700000000000: with no locked capital it is
    skipped and enqueued for resync; with 1000 locked against 500 free it is
    skipped and not enqueued. *)
Lemma admission_control_witness :
  Executor.skips true 7 Samples.staleTrade
    (@Executor.executeOnchain JS.sampleBuiltins string Executor.defaultConfig
       "entry" 7 5000 Samples.staleTrade 1700000000000) /\
  7 ∈ Executor.pending (Executor.enqueue 7 (Executor.resyncBatcher Samples.staleTrade)) /\
  Executor.skips false 7 Samples.lowLiquidity
    (@Executor.executeOnchain JS.sampleBuiltins string Executor.defaultConfig
       "entry" 7 5000 Samples.lowLiquidity 1700000000000).
Proof.
  split; [|split].
  - destruct (@admission_control JS.sampleBuiltins string Executor.defaultConfig
                7 5000 Samples.staleTrade 1700000000000) as (_ & H & _).
    + vm_compute. intros H. discriminate H.
    + destruct (H 0 eq_refl) as [Hskip _]. apply Hskip. lia.
  - destruct (@admission_control JS.sampleBuiltins string Executor.defaultConfig
                7 5000 Samples.staleTrade 1700000000000) as (H & _).
    + vm_compute. intros H. discriminate H.
    + apply H. lia.
  - destruct (@admission_control JS.sampleBuiltins string Executor.defaultConfig
                7 5000 Samples.lowLiquidity 1700000000000) as (_ & H & _).
    + vm_compute. intros H. discriminate H.
    + destruct (H 1000 eq_refl) as [_ Hfree].
      destruct (Hfree ltac:(lia)) as [Hfresh _].
      apply Hfresh; cbn; lia.
Defined.

(** An entry for trade 7 passes the dedup check at T and is skipped when
    the index answers that nothing is locked; the entry for it at
    T + 14.999 s issues nothing. *)
Lemma skipped_entry_consumes_window_witness :
  let l2 :=
    (@Executor.run JS.sampleBuiltins string Executor.defaultConfig
       (@Executor.run JS.sampleBuiltins string Executor.defaultConfig
          (Async.start Executor.initial) []).1
       [Executor.Start "entry" 7 5000 1700000000000]).1 in
  let l3 :=
    (@Executor.run JS.sampleBuiltins string Executor.defaultConfig l2
       [Executor.Settle 0 (Executor.TradeJson (JS.JStr "0")) 1700000000050]).1 in
  Executor.recentlySent (Async.shared l2) !! Executor.dedupKey "entry" 7
  = Some 1700000000000 /\
  forall r,
    (Async.started l3, r) ∉
    (@Executor.run JS.sampleBuiltins string Executor.defaultConfig l3
       [Executor.Start "entry" 7 5000 1700000014999]).2.
Proof.
  intros l2 l3.
  destruct (@skipped_entry_consumes_window JS.sampleBuiltins string
              Executor.defaultConfig Executor.initial []
              [Executor.Settle 0 (Executor.TradeJson (JS.JStr "0")) 1700000000050] []
              7 5000 5000 1700000000000 1700000014999) as [Hrec Hwin].
  - cbn. lia.
  - vm_compute. intros H. discriminate H.
  - split; [exact Hrec|]. apply Hwin.
    + vm_compute. reflexivity.
    + intros r Hin.
      assert (Htr :
        (@Executor.run JS.sampleBuiltins string Executor.defaultConfig
           (@Executor.run JS.sampleBuiltins string Executor.defaultConfig
              (Async.start Executor.initial) []).1
           [Executor.Start "entry" 7 5000 1700000000000;
            Executor.Settle 0 (Executor.TradeJson (JS.JStr "0")) 1700000000050]).2
        = [(0%nat, Executor.HttpGetTrade 7)]) by (vm_compute; reflexivity).
      rewrite Htr in Hin. apply list_elem_of_singleton in Hin.
      injection Hin as ->. by left.
    + cbn. lia.
Defined.

(** ** Reconciliation *)

Section SyncFacts.
Import JS Async Sync.
Abbreviation stask := (Async.task Db.table request response exn).

Lemma partitionIds_filter (tbl : Db.table) max ids missing present :
  partitionIds tbl max ids missing present
  = (missing ++ filter (fun id => id <= max /\ tbl !! id = None) ids,
     present ++ filter (fun id => id <= max /\ is_Some (tbl !! id)) ids).
Proof.
  revert missing present. induction ids as [|id rest IH]; intros missing present.
  - cbn. by rewrite !app_nil_r.
  - cbn [partitionIds]. rewrite !filter_cons.
    destruct (Z.ltb_spec max id) as [Hgt|Hle].
    + rewrite IH. rewrite !decide_False by (intros [? ?]; lia). done.
    + case_bool_decide as Hnone.
      * rewrite IH. rewrite decide_True by done.
        rewrite decide_False by (intros [_ [? ?]]; congruence).
        by rewrite <- app_assoc.
      * rewrite IH. rewrite decide_False by (intros [_ ?]; done).
        rewrite decide_True by (split; [done|]; by destruct (tbl !! id); [eexists|]).
        by rewrite <- app_assoc.
Qed.

Lemma payloadsOf_ids ids trades payloads :
  payloadsOf ids trades = Normal payloads -> payloads.*1 = ids.
Proof.
  revert trades payloads. induction ids as [|id rest IH]; intros trades payloads H.
  - cbn in H. by simplify_eq.
  - cbn in H. destruct trades as [|t trades']; [done|].
    destruct (payloadsOf rest trades') as [ps|] eqn:E; cbn in H; [|done].
    simplify_eq. cbn. f_equal. by eapply IH.
Qed.



(** A finished run of [syncFull] on a non-empty list, followed by [f]: the
    fetch and the upsert are answered by the first two entries of the
    script. *)
Lemma exec_syncFull_bind {A} ids (f : Z -> stask A) (tbl : Db.table) now script tr tbl' a :
  ids <> [] ->
  exec (bind_step now ((syncFull ids : stask Z) tbl now) f) script = (tr, Finished tbl' a) ->
  exists trades payloads cnt s1 now1 s2 now2 rest tr',
    script = (Trades trades, s1, now1) :: (Posted cnt, s2, now2) :: rest /\
    payloadsOf ids trades = Normal payloads /\
    tr = GetTradesFromList ids :: PostBatchUpsert payloads :: tr' /\
    exec (f (default (Z.of_nat (length payloads)) cnt) s2 now2) rest
    = (tr', Finished tbl' a).
Proof.
  intros Hne. unfold syncFull. rewrite bool_decide_eq_false_2 by done.
  task_unfold. cbn [exec]. intros H.
  destruct script as [|[[resp s1] now1] rest]; [done|].
  destruct resp as [trades| | | |e]; cbn in H;
    try (destruct rest as [|[[? ?] ?] ?]; cbn in H; discriminate H).
  destruct (payloadsOf ids trades) as [payloads|e] eqn:Ep; cbn in H; [|done].
  destruct rest as [|[[resp2 s2] now2] rest]; [done|].
  destruct resp2 as [| | |cnt|e]; cbn in H; try discriminate H.
  destruct (exec (f (default (Z.of_nat (length payloads)) cnt) s2 now2) rest)
    as [tr' o] eqn:E.
  simplify_eq. by eexists _, _, _, _, _, _, _, _, _.
Qed.








End SyncFacts.


(** ** The trader and trade routes, and the batch routes *)

Ltac binds_inv H :=
  repeat match type of H with
         | context [mbind _ ?c] =>
             let E := fresh "E" in
             destruct c eqn:E; cbn [mbind JS.completion_bind] in H; [|discriminate H]
         end.

Section RouteFacts.
Import JS.
Context `{B : Builtins}.

Lemma descending_strict (l : list Z) :
  StronglySorted (flip Z.le) l -> NoDup l -> StronglySorted (fun a b => b < a) l.
Proof.
  induction 1 as [|x l Hs IH Hall]; intros Hnd; [constructor|].
  apply NoDup_cons in Hnd as [Hx Hnd]. constructor; [by apply IH|].
  apply Forall_forall. intros y Hy.
  rewrite Forall_forall in Hall. specialize (Hall y Hy). unfold flip in Hall.
  assert (y <> x) by (intros ->; done). lia.
Qed.

Lemma select_ids_NoDup (tbl : Db.table) cond :
  NoDup (Db.select tbl cond (fun id _ => id)).
Proof.
  unfold Db.select.
  assert (Hnd : NoDup (filter (fun ir : Z * Db.row => Db.sql_true (cond ir.2))
                         (map_to_list tbl)).*1).
  { eapply sublist_NoDup; [apply (NoDup_fst_map_to_list tbl)|].
    apply fmap_sublist, sublist_filter. }
  revert Hnd. generalize (filter (fun ir : Z * Db.row => Db.sql_true (cond ir.2))
                            (map_to_list tbl)).
  intros l. induction l as [|[id r] l IH]; cbn; [done|].
  rewrite !NoDup_cons. intros [Hx Hnd]. split; [|by apply IH].
  intros Hin. apply Hx. apply list_elem_of_fmap in Hin as ([id' r'] & -> & Hin).
  apply list_elem_of_fmap. by exists (id', r').
Qed.

Lemma orderByIdDesc_spec (l : list Z) :
  NoDup l ->
  StronglySorted (fun a b => b < a) (DbStatements.orderByIdDesc l) /\
  forall id, id ∈ DbStatements.orderByIdDesc l <-> id ∈ l.
Proof.
  intros Hnd. unfold DbStatements.orderByIdDesc. split.
  - apply descending_strict.
    + apply StronglySorted_merge_sort.
      * intros x y z. unfold flip. lia.
      * intros x y. unfold flip. lia.
    + by rewrite merge_sort_Permutation.
  - intros id. by rewrite merge_sort_Permutation.
Qed.

(** X1. GET /trader/:address/ids answers under the trimmed, lower-cased
    address, which starts with 0x and has at least 10 characters; the ids are
    strictly descending; without a [state] parameter (or with [all]) they
    are the ids of all rows stored under that trader, and with a state that
    reads as [st] the ids of those in that state. *)
Theorem trader_ids_listing (tbl : Db.table) (address : string)
    (query : gmap string jsval) trader ids :
  ReadRoutes.traderIdsRoute tbl address query = ReadRoutes.TraderIds trader ids ->
  let stateQ :=
    toLowerCase (ToString (if truthy (prop query "state") then prop query "state"
                           else JStr "all")) in
  trader = toLowerCase (trim address) /\
  startsWith "0x" trader = true /\ (10 <= String.length trader)%nat /\
  StronglySorted (fun a b => b < a) ids /\
  (stateQ = "all"%string ->
   forall id, id ∈ ids <-> exists row, tbl !! id = Some row /\ Db.trader row = trader) /\
  (stateQ <> "all"%string ->
   exists st, ReadServer.toInt (JStr stateQ) "state" = Normal st /\
     forall id, id ∈ ids <->
       exists row, tbl !! id = Some row /\ Db.trader row = trader /\
                   Db.state row = Some st).
Proof.
  intros H stateQ. unfold ReadRoutes.traderIdsRoute in H.
  cbn [ReadRoutes.normalizeAddress] in H.
  destruct (negb (startsWith "0x" (toLowerCase (trim address)))
            || (Z.of_nat (String.length (toLowerCase (trim address))) <? 10)) eqn:Hv;
    [discriminate H|].
  apply orb_false_elim in Hv as [Hp Hl]. apply negb_false_iff in Hp.
  apply Z.ltb_ge in Hl. fold stateQ in H.
  destruct (String.eqb_spec stateQ "all") as [Hall|Hall].
  - injection H as <- <-. unfold DbStatements.getTraderIdsAll.
    destruct (orderByIdDesc_spec _ (select_ids_NoDup tbl
      (fun r => Some (String.eqb (Db.trader r) (toLowerCase (trim address))))))
      as [Hs Hm].
    split; [done|]. split; [done|]. split; [lia|]. split; [done|].
    split; [|done]. intros _ id. rewrite Hm, elem_of_select. split.
    + intros (id' & r & Hr & Hc & ->). exists r. split; [done|].
      unfold Db.sql_true in Hc.
      destruct (String.eqb_spec (Db.trader r) (toLowerCase (trim address)));
        [done|discriminate Hc].
    + intros (r & Hr & Ht). exists id, r. split; [done|]. split; [|done].
      unfold Db.sql_true. by rewrite (proj2 (String.eqb_eq _ _) Ht).
  - destruct (ReadServer.toInt (JStr stateQ) "state") as [st|e] eqn:Est; [|discriminate H].
    injection H as <- <-. unfold DbStatements.getTraderIdsByState.
    destruct (orderByIdDesc_spec _ (select_ids_NoDup tbl
      (fun r => Db.sql_and (Some (String.eqb (Db.trader r) (toLowerCase (trim address))))
                  (Db.sql_eq (Db.state r) (Some st)))))
      as [Hs Hm].
    split; [done|]. split; [done|]. split; [lia|]. split; [done|].
    split; [done|]. intros _. exists st. split; [done|].
    intros id. rewrite Hm, elem_of_select. split.
    + intros (id' & r & Hr & Hc & ->). exists r. split; [done|].
      apply sql_true_and in Hc as [Ht Hst]. unfold Db.sql_true in Ht.
      split; [|by apply sql_true_eq].
      destruct (String.eqb_spec (Db.trader r) (toLowerCase (trim address)));
        [done|discriminate Ht].
    + intros (r & Hr & Ht & Hst). exists id, r. split; [done|]. split; [|done].
      apply sql_true_and. split; [|by apply sql_true_eq].
      unfold Db.sql_true. by rewrite (proj2 (String.eqb_eq _ _) Ht).
Qed.

Lemma toInt_param (s name : string) :
  WriteRoutes.toInt (JStr s) name = ReadServer.toInt (JStr s) name.
Proof. done. Qed.

(** X2. The trade that PUT /trade/:id or PATCH /trade/:id answers with is
    the row GET /trade/:id then reads under the same id parameter, and
    GET /trade/:id of every other id reads what it read before the write. *)
Theorem written_trade_is_read (tbl : Db.table) (idParam : string)
    (body : gmap string jsval) tbl' trade :
  WriteRoutes.putTrade tbl (JStr idParam) body = (tbl', WriteRoutes.Accepted trade) \/
  WriteRoutes.patchTrade tbl (JStr idParam) body = (tbl', WriteRoutes.Accepted trade) ->
  exists id row,
    trade = Some row /\
    ReadRoutes.tradeRoute tbl' idParam = ReadRoutes.Trade id row /\
    forall other, ReadServer.toInt (JStr other) "id" <> Normal id ->
      ReadRoutes.tradeRoute tbl' other = ReadRoutes.tradeRoute tbl other.
Proof.
  assert (Hother : forall id row other,
    ReadServer.toInt (JStr other) "id" <> Normal id ->
    ReadRoutes.tradeRoute (<[id := row]> tbl) other = ReadRoutes.tradeRoute tbl other).
  { intros id row other Hne. unfold ReadRoutes.tradeRoute, Db.getTradeById.
    destruct (ReadServer.toInt (JStr other) "id") as [id'|e]; [|done].
    rewrite lookup_insert_ne by congruence. done. }
  intros [H|H].
  - unfold WriteRoutes.putTrade in H.
    destruct (WriteRoutes.putPayload (JStr idParam) body) as [[id payload]|e] eqn:E;
      [|by destruct e as [|? [?|]]].
    assert (Hid : ReadServer.toInt (JStr idParam) "id" = Normal id).
    { rewrite <- toInt_param. unfold WriteRoutes.putPayload in E.
      destruct (WriteRoutes.toInt (JStr idParam) "id") as [id'|]; [|discriminate E].
      cbn [mbind completion_bind] in E. binds_inv E. by simplify_eq. }
    destruct (WriteRoutes.invalidTrader (Db.trader payload)); [discriminate H|].
    destruct (bool_decide (Db.state payload = Some 2)
              && bool_decide (Db.closePrice payload = Some 0)); [discriminate H|].
    destruct (Db.isRowid id); [|discriminate H]. cbn [negb] in H.
    unfold Db.tx_upsertTrade, Db.upsertTrade, Db.getTradeById in H.
    rewrite lookup_insert_eq in H. simplify_eq.
    exists id, payload. split; [done|]. split; [|by apply Hother].
    unfold ReadRoutes.tradeRoute, Db.getTradeById. by rewrite Hid, lookup_insert_eq.
  - unfold WriteRoutes.patchTrade in H.
    rewrite toInt_param in H.
    destruct (ReadServer.toInt (JStr idParam) "id") as [id|e] eqn:Hid;
      cbn [mbind completion_bind] in H; [|by destruct e as [|? [?|]]].
    unfold WriteRoutes.requireTradeExists, Db.getTradeById in H.
    destruct (tbl !! id) as [existing|] eqn:Erow; cbn [mbind completion_bind] in H;
      [|discriminate H].
    destruct (WriteRoutes.patchFields body) as [patch|e] eqn:Ep;
      cbn [mbind completion_bind] in H; [|by destruct e as [|? [?|]]].
    assert (Hpatch : forall p, Db.tx_patchTrade id p tbl
                      = (<[id := Db.patchRow p existing]> tbl, Some (Db.patchRow p existing))).
    { intros p. unfold Db.tx_patchTrade, Db.patchTrade, Db.getTradeById.
      rewrite Erow. cbn. by rewrite lookup_insert_eq. }
    rewrite !Hpatch in H.
    destruct (bool_decide (Db.p_state patch = Some 2));
      [destruct (WriteRoutes.noClose (WriteRoutes.closeOf existing patch));
         [discriminate H|]|];
      simplify_eq; eexists id, _; (split; [done|]); (split; [|by apply Hother]);
      unfold ReadRoutes.tradeRoute, Db.getTradeById; by rewrite Hid, lookup_insert_eq.
Qed.

End RouteFacts.

Section BatchFacts.
Import JS RouteSpec.
Context `{B : Builtins}.

Lemma throwsNoStatus_bind {A C} (c : completion A) (f : A -> completion C) :
  throwsNoStatus c -> (forall a, throwsNoStatus (f a)) -> throwsNoStatus (c ≫= f).
Proof. destruct c; cbn; auto. Qed.

Lemma toInt_noStatus v name : throwsNoStatus (WriteRoutes.toInt v name).
Proof.
  unfold WriteRoutes.toInt. destruct (isNullish v), (negb (isFinite (Number v))); done.
Qed.

Lemma optInt_noStatus v name : throwsNoStatus (WriteRoutes.optInt v name).
Proof.
  unfold WriteRoutes.optInt. destruct (isNullish v); [done|].
  pose proof (toInt_noStatus v name). by destruct (WriteRoutes.toInt v name).
Qed.

Lemma intOr0_noStatus v name : throwsNoStatus (WriteRoutes.intOr0 v name).
Proof. unfold WriteRoutes.intOr0. destruct (isNullish v); [done|apply toInt_noStatus]. Qed.

Lemma toBoolInt_noStatus v name : throwsNoStatus (WriteRoutes.toBoolInt v name).
Proof.
  unfold WriteRoutes.toBoolInt. destruct v as [| |[]|[| |q]|s|]; try done.
  - destruct (Qeq_bool q 1), (Qeq_bool q 0); done.
  - destruct (String.eqb s "1" || String.eqb s "true"),
      (String.eqb s "0" || String.eqb s "false"); done.
Qed.

Lemma props_noStatus it : throwsNoStatus (BatchRoutes.props it).
Proof. by destruct it. Qed.

Lemma rowid_noStatus id : throwsNoStatus (BatchRoutes.rowid id).
Proof.
  destruct id as [| |q]; cbn; try done.
  by destruct (isIntegerQ q && Db.isRowid (truncQ q)).
Qed.

Ltac noStatus_binds :=
  repeat (apply throwsNoStatus_bind;
          [first [apply toInt_noStatus|apply toBoolInt_noStatus|apply optInt_noStatus
                 |apply intOr0_noStatus|apply props_noStatus|apply rowid_noStatus]
          |intros ?]).

Lemma upsertPayload_noStatus it : throwsNoStatus (BatchRoutes.upsertPayload it).
Proof.
  unfold BatchRoutes.upsertPayload. noStatus_binds.
  destruct (negb (isFinite (Number (prop a "id")))); [done|].
  destruct (WriteRoutes.invalidTrader _); [done|]. noStatus_binds. done.
Qed.

Lemma statePatch_noStatus it : throwsNoStatus (BatchRoutes.statePatch it).
Proof. unfold BatchRoutes.statePatch. noStatus_binds. done. Qed.

Lemma sltpPatch_noStatus it : throwsNoStatus (BatchRoutes.sltpPatch it).
Proof. unfold BatchRoutes.sltpPatch. noStatus_binds. done. Qed.

Lemma mapM_noStatus {A C} (f : A -> completion C) l :
  (forall x, throwsNoStatus (f x)) -> throwsNoStatus (mapM f l).
Proof.
  intros Hf. induction l as [|x l IH]; cbn; [done|].
  apply throwsNoStatus_bind; [apply Hf|intros y].
  apply throwsNoStatus_bind; [apply IH|done].
Qed.

Lemma runBatch_noStatus ps tbl : throwsNoStatus (BatchRoutes.runBatch ps tbl).
Proof.
  revert tbl. induction ps as [|[id payload] ps IH]; intros tbl; cbn; [done|].
  apply throwsNoStatus_bind; [apply rowid_noStatus|intros key; apply IH].
Qed.

Lemma caught_400 e : noStatus e -> exists err, BatchRoutes.caught e = BatchRoutes.Rejected 400 err.
Proof. destruct e as [msg|msg [status|]]; cbn; intros H; [eauto|done|eauto]. Qed.

Lemma mapM_Normal {A C} (f : A -> completion C) l ps :
  mapM f l = Normal ps <-> Forall2 (fun x p => f x = Normal p) l ps.
Proof.
  revert ps. induction l as [|x l IH]; intros ps; cbn.
  - split; [intros [= <-]; constructor|by inversion 1].
  - destruct (f x) as [y|e] eqn:Ex; cbn.
    + destruct (mapM f l) as [k|e] eqn:Ek; cbn.
      * split.
        -- unfold mret, completion_ret. intros [= <-]. constructor; [done|]. by apply IH.
        -- inversion 1 as [|? p' ? ps' Hp Hps]; subst.
           apply IH in Hps. unfold mret, completion_ret. congruence.
      * split; [done|]. inversion 1 as [|? p' ? ps' Hp Hps]; subst.
        apply IH in Hps. congruence.
    + split; [done|]. inversion 1; subst. congruence.
Qed.

Lemma runBatch_Normal ps tbl tbl' :
  BatchRoutes.runBatch ps tbl = Normal tbl' ->
  exists rows : list (Z * Db.row),
    Forall2 (fun p kv => BatchRoutes.rowid p.1 = Normal kv.1 /\ p.2 = kv.2) ps rows /\
    tbl' = foldl (fun t kv => <[kv.1 := kv.2]> t) tbl rows.
Proof.
  revert tbl. induction ps as [|[id payload] ps IH]; intros tbl; cbn.
  - intros [= <-]. exists []. split; [constructor|done].
  - destruct (BatchRoutes.rowid id) as [key|e] eqn:Ek; cbn; [|done].
    intros H. apply IH in H as (rows & Hrows & ->).
    exists ((key, payload) :: rows). split; [by constructor|done].
Qed.

Lemma foldl_insert_lookup (rows : list (Z * Db.row)) (tbl : Db.table) id :
  let tbl' := foldl (fun t kv => <[kv.1 := kv.2]> t) tbl rows in
  (id ∉ rows.*1 -> tbl' !! id = tbl !! id) /\
  (forall i row, rows !! i = Some (id, row) ->
     (forall j row', (i < j)%nat -> rows !! j <> Some (id, row')) ->
     tbl' !! id = Some row).
Proof.
  induction rows as [|[k v] rows IH] using rev_ind; cbn.
  - split; [done|]. intros i row Hi. by rewrite lookup_nil in Hi.
  - rewrite foldl_app. cbn. destruct IH as [IH1 IH2]. split.
    + rewrite fmap_app, not_elem_of_app. cbn. rewrite list_elem_of_singleton.
      intros [Hin Hne]. rewrite lookup_insert_ne by done. by apply IH1.
    + intros i row Hi Hlast.
      destruct (decide (k = id)) as [->|Hne].
      * rewrite lookup_insert_eq.
        destruct (decide (i = length rows)) as [->|Hi'].
        -- rewrite lookup_app_r, Nat.sub_diag in Hi by lia. cbn in Hi. by simplify_eq.
        -- exfalso. apply (Hlast (length rows) v).
           ++ apply lookup_lt_Some in Hi. rewrite length_app in Hi. cbn in Hi. lia.
           ++ by rewrite lookup_app_r, Nat.sub_diag by lia.
      * rewrite lookup_insert_ne by done.
        assert (Hlt : (i < length rows)%nat).
        { destruct (decide (i < length rows)%nat); [done|].
          rewrite lookup_app_r in Hi by lia.
          destruct (i - length rows)%nat; cbn in Hi; [by simplify_eq|done]. }
        rewrite lookup_app_l in Hi by done.
        apply (IH2 i row Hi). intros j row' Hij Hj.
        apply (Hlast j row' Hij). rewrite lookup_app_l; [done|].
        by apply lookup_lt_Some in Hj.
Qed.

(** X3. POST /trades/batchUpsert is all or nothing: it answers 400 and
    leaves the table as it was, or it answers with the number of items,
    between 1 and 2000, every item has built a payload with an integer id,
    an id no item names keeps its row, and an id holds the payload of the
    last item that names it. *)
Theorem batch_upsert_all_or_nothing (tbl : Db.table) items tbl' resp :
  BatchRoutes.batchUpsert tbl items = (tbl', resp) ->
  (exists err, resp = BatchRoutes.Rejected 400 err /\ tbl' = tbl) \/
  (exists its (rows : list (Z * Db.row)),
     items = Some its /\ (1 <= length its <= 2000)%nat /\
     resp = BatchRoutes.Upserted (Z.of_nat (length its)) /\
     Forall2 (fun it kv => exists idn,
                BatchRoutes.upsertPayload it = Normal (idn, kv.2) /\
                BatchRoutes.rowid idn = Normal kv.1) its rows /\
     forall id,
       (id ∉ rows.*1 -> tbl' !! id = tbl !! id) /\
       (forall i row, rows !! i = Some (id, row) ->
          (forall j row', (i < j)%nat -> rows !! j <> Some (id, row')) ->
          tbl' !! id = Some row)).
Proof.
  unfold BatchRoutes.batchUpsert. intros H.
  destruct items as [[|it its]|]; [left; simplify_eq; eauto| |left; simplify_eq; eauto].
  destruct (2000 <? Z.of_nat (length (it :: its))) eqn:Hlen; [left; simplify_eq; eauto|].
  apply Z.ltb_ge in Hlen.
  pose proof (mapM_noStatus BatchRoutes.upsertPayload (it :: its) upsertPayload_noStatus)
    as Hns.
  destruct (mapM BatchRoutes.upsertPayload (it :: its)) as [payloads|e] eqn:Em.
  - pose proof (runBatch_noStatus payloads tbl) as Hns'.
    destruct (BatchRoutes.runBatch payloads tbl) as [tbl1|e] eqn:Er.
    + right. simplify_eq. apply mapM_Normal in Em.
      apply runBatch_Normal in Er as (rows & Hrows & ->).
      exists (it :: its), rows. split; [done|]. split; [cbn in *; lia|].
      split; [by rewrite (Forall2_length _ _ _ Em)|]. split.
      * clear Hlen Hns Hns'. revert rows Hrows.
        induction Em as [|x [idn row] l ps Hx Hl IH]; intros rows Hrows.
        -- inversion Hrows. constructor.
        -- inversion Hrows as [|? [k v] ? rows' [Hk Hv] Hrows']; subst. cbn in *. subst.
           constructor; [by exists idn|by apply IH].
      * intros id. apply foldl_insert_lookup.
    + left. destruct (caught_400 e Hns') as [err He]. rewrite He in H.
      simplify_eq. eauto.
  - left. destruct (caught_400 e Hns) as [err He]. rewrite He in H.
    simplify_eq. eauto.
Qed.

Lemma isRowid_spec (id : Z) :
  Db.isRowid id = true <-> - 2 ^ 63 < id < 2 ^ 63 - 1.
Proof. unfold Db.isRowid. rewrite andb_true_iff, !Z.ltb_lt. done. Qed.

Lemma rowid_integer (id : Z) :
  - 2 ^ 63 < id < 2 ^ 63 - 1 -> BatchRoutes.rowid (Fin (inject_Z id)) = Normal id.
Proof.
  intros Hid. unfold BatchRoutes.rowid, isIntegerQ, truncQ.
  cbn [inject_Z Qnum Qden]. rewrite Z.rem_1_r, Z.quot_1_r. cbn [Z.eqb andb].
  by rewrite (proj2 (isRowid_spec id) Hid).
Qed.

(** X4. POST /trades/batchUpsert applies no close-price rule: a body that
    PUT /trade/:id turns into a closed trade with close price 0, and so
    rejects, is stored by the batch route when it carries the id as an
    integer that the primary key takes, one strictly between the smallest
    and the largest integer of 64 bits. *)
Theorem batch_upsert_no_close_rule (tbl : Db.table) (idParam : jsval)
    (b : gmap string jsval) id payload :
  WriteRoutes.putPayload idParam b = Normal (id, payload) ->
  WriteRoutes.invalidTrader (Db.trader payload) = false ->
  Db.state payload = Some 2 -> Db.closePrice payload = Some 0 ->
  Number (prop b "id") = Fin (inject_Z id) -> - 2 ^ 63 < id < 2 ^ 63 - 1 ->
  WriteRoutes.putTrade tbl idParam b
    = (tbl, WriteRoutes.Rejected 400 "state=2 requires closePrice != 0") /\
  BatchRoutes.batchUpsert tbl (Some [Some b])
    = (<[id := payload]> tbl, BatchRoutes.Upserted 1).
Proof.
  intros Hput Hvalid Hst Hcp Hid Hrange. split.
  - unfold WriteRoutes.putTrade. rewrite Hput, Hvalid, Hst, Hcp. done.
  - assert (Hpay : BatchRoutes.upsertPayload (Some b) = Normal (Fin (inject_Z id), payload)).
    { unfold BatchRoutes.upsertPayload. cbn [BatchRoutes.props mbind completion_bind].
      rewrite Hid. cbn [isFinite negb].
      unfold WriteRoutes.putPayload in Hput.
      destruct (WriteRoutes.toInt idParam "id") as [id'|]; [|discriminate Hput].
      cbn [mbind completion_bind] in Hput. binds_inv Hput.
      injection Hput as <- <-. cbn [Db.trader] in Hvalid. rewrite Hvalid.
      cbn [mbind completion_bind]. done. }
    assert (Hkey : BatchRoutes.rowid (Fin (inject_Z id)) = Normal id)
      by (by apply rowid_integer).
    unfold BatchRoutes.batchUpsert. cbn [length Z.of_nat Z.ltb Z.compare Pos.compare
      Pos.compare_cont mapM mbind completion_bind].
    rewrite Hpay. cbn [mbind completion_bind mret completion_ret BatchRoutes.runBatch fst snd].
    rewrite Hkey. done.
Qed.

Lemma patchesFor_cons {P} id id0 (p0 : P) rest :
  patchesFor id ((id0, p0) :: rest)
  = if decide (id0 = id) then p0 :: patchesFor id rest else patchesFor id rest.
Proof.
  unfold patchesFor. rewrite filter_cons. cbn. by destruct (decide (id0 = id)).
Qed.

Lemma batchLoop_spec {P} (f : P -> Db.row -> Db.row) run patches (tbl : Db.table) n :
  (forall id p (t : Db.table),
     run id p t = match t !! id with
                  | Some r => (<[id := f p r]> t, 1)
                  | None => (t, 0)
                  end) ->
  (DbStatements.batchLoop run patches tbl n).2
  = n + Z.of_nat (length (filter (fun p => is_Some (tbl !! p.1)) patches)) /\
  forall id, (DbStatements.batchLoop run patches tbl n).1 !! id
             = (fun r => foldl (fun r p => f p r) r (patchesFor id patches)) <$> tbl !! id.
Proof.
  intros Hrun. revert tbl n.
  induction patches as [|[id0 p0] rest IH]; intros tbl n; cbn [DbStatements.batchLoop].
  - cbn. split; [lia|]. intros id. by destruct (tbl !! id).
  - rewrite Hrun. rewrite filter_cons. cbn [fst].
    destruct (tbl !! id0) as [r0|] eqn:E0.
    + destruct (IH (<[id0 := f p0 r0]> tbl) (n + 1)) as [IHn IHl].
      cbn [Z.eqb]. split.
      * rewrite IHn. rewrite decide_True by done. cbn [length].
        rewrite (list_filter_iff _ (fun p => is_Some (tbl !! p.1))); [lia|].
        intros [k v]. cbn. destruct (decide (k = id0)) as [->|Hne].
        -- rewrite lookup_insert_eq, E0. split; eauto.
        -- by rewrite lookup_insert_ne.
      * intros id. rewrite IHl, patchesFor_cons.
        destruct (decide (id0 = id)) as [->|Hne].
        -- by rewrite lookup_insert_eq, E0.
        -- by rewrite lookup_insert_ne.
    + destruct (IH tbl (n + 0)) as [IHn IHl]. cbn [Z.eqb]. split.
      * rewrite IHn. rewrite decide_False by (by intros [? ?]). lia.
      * intros id. rewrite IHl, patchesFor_cons.
        destruct (decide (id0 = id)) as [->|Hne]; [by rewrite E0|done].
Qed.

Lemma batchPatch_cases {P} (build : BatchRoutes.item -> completion (Z * P))
    transaction (tbl : Db.table) items tbl' resp :
  (forall it, throwsNoStatus (build it)) ->
  BatchRoutes.batchPatch build transaction tbl items = (tbl', resp) ->
  (exists err, resp = BatchRoutes.Rejected 400 err /\ tbl' = tbl) \/
  (exists its patches,
     items = Some its /\ (1 <= length its <= 5000)%nat /\
     Forall2 (fun it p => build it = Normal p) its patches /\
     tbl' = (transaction patches tbl).1 /\
     resp = BatchRoutes.Updated (transaction patches tbl).2).
Proof.
  intros Hb. unfold BatchRoutes.batchPatch. intros H.
  destruct items as [[|it its]|]; [left; simplify_eq; eauto| |left; simplify_eq; eauto].
  destruct (5000 <? Z.of_nat (length (it :: its))) eqn:Hlen; [left; simplify_eq; eauto|].
  apply Z.ltb_ge in Hlen.
  pose proof (mapM_noStatus build (it :: its) Hb) as Hns.
  destruct (mapM build (it :: its)) as [patches|e] eqn:Em.
  - right. apply mapM_Normal in Em. exists (it :: its), patches.
    destruct (transaction patches tbl) as [t u]. simplify_eq.
    split; [done|]. split; [cbn in *; lia|]. done.
  - left. destruct (caught_400 e Hns) as [err He]. rewrite He in H.
    simplify_eq. eauto.
Qed.

(** X5. POST /trades/batchPatchSLTP answers 400 and leaves the table as it
    was, or it answers with the number of patches whose id is stored; it
    never adds or removes a row, and a stored row is left with the patches
    for its id applied in order: its other columns are as they were, and a
    row no patch names is unchanged. *)
Theorem batch_patch_sltp_effect (tbl : Db.table) items tbl' resp :
  BatchRoutes.batchPatchSLTP tbl items = (tbl', resp) ->
  (exists err, resp = BatchRoutes.Rejected 400 err /\ tbl' = tbl) \/
  (exists its patches,
     items = Some its /\ (1 <= length its <= 5000)%nat /\
     Forall2 (fun it p => BatchRoutes.sltpPatch it = Normal p) its patches /\
     resp = BatchRoutes.Updated
              (Z.of_nat (length (filter (fun p => is_Some (tbl !! p.1)) patches))) /\
     dom tbl' = dom tbl /\
     forall id r, tbl !! id = Some r ->
       exists r',
         tbl' !! id = Some r' /\
         r' = foldl (fun r p => DbStatements.patchSLTPRow p r) r (patchesFor id patches) /\
         r' = DbStatements.patchSLTPRow
                {| DbStatements.l_stopLoss := Some (Db.stopLoss r');
                   DbStatements.l_takeProfit := Some (Db.takeProfit r') |} r /\
         (patchesFor id patches = [] -> r' = r)).
Proof.
  intros H. apply batchPatch_cases in H as [H|H]; [by left|right|apply sltpPatch_noStatus].
  destruct H as (its & patches & -> & Hlen & Hbuild & -> & ->).
  exists its, patches.
  destruct (batchLoop_spec DbStatements.patchSLTPRow DbStatements.patchSLTP patches tbl 0)
    as [Hn Hl]; [done|].
  unfold DbStatements.batchPatchSLTP. rewrite Hn, Z.add_0_l.
  split; [done|]. split; [done|]. split; [done|]. split; [done|]. split.
  - apply set_eq. intros id. rewrite !elem_of_dom, Hl.
    destruct (tbl !! id); cbn; [split; eauto|]. split; intros [? ?]; done.
  - intros id r Hr. rewrite Hl, Hr. cbn. eexists. split; [done|]. split; [done|].
    split; [|by intros ->].
    generalize (patchesFor id patches). intros ps.
    assert (Hgen : forall r0,
      foldl (fun r p => DbStatements.patchSLTPRow p r) r0 ps
      = DbStatements.patchSLTPRow
          {| DbStatements.l_stopLoss :=
               Some (Db.stopLoss (foldl (fun r p => DbStatements.patchSLTPRow p r) r0 ps));
             DbStatements.l_takeProfit :=
               Some (Db.takeProfit (foldl (fun r p => DbStatements.patchSLTPRow p r) r0 ps)) |}
          r0).
    { induction ps as [|p ps IH]; intros r0; cbn [foldl].
      - by destruct r0.
      - rewrite (IH (DbStatements.patchSLTPRow p r0)) at 1. done. }
    apply Hgen.
Qed.

(** X6. POST /trades/batchPatchStates answers 400 and leaves the table as
    it was, or it answers with the number of patches whose id is stored and
    leaves every stored row with the patches for its id applied in order,
    adding and removing no row. It applies no close-price rule: a single
    patch with state 2 and no close price closes a stored trade and leaves
    its close price as it was, NULL or 0 included. *)
Theorem batch_patch_states_effect (tbl : Db.table) items tbl' resp :
  BatchRoutes.batchPatchStates tbl items = (tbl', resp) ->
  (exists err, resp = BatchRoutes.Rejected 400 err /\ tbl' = tbl) \/
  (exists its patches,
     items = Some its /\ (1 <= length its <= 5000)%nat /\
     Forall2 (fun it p => BatchRoutes.statePatch it = Normal p) its patches /\
     resp = BatchRoutes.Updated
              (Z.of_nat (length (filter (fun p => is_Some (tbl !! p.1)) patches))) /\
     dom tbl' = dom tbl /\
     forall id r, tbl !! id = Some r ->
       exists r',
         tbl' !! id = Some r' /\
         r' = foldl (fun r p => DbStatements.patchStateRow p r) r (patchesFor id patches) /\
         (forall p, patchesFor id patches = [p] ->
            DbStatements.s_state p = Some 2 -> DbStatements.s_closePrice p = None ->
            Db.state r' = Some 2 /\ Db.closePrice r' = Db.closePrice r)).
Proof.
  intros H. apply batchPatch_cases in H as [H|H]; [by left|right|apply statePatch_noStatus].
  destruct H as (its & patches & -> & Hlen & Hbuild & -> & ->).
  exists its, patches.
  destruct (batchLoop_spec DbStatements.patchStateRow DbStatements.patchState patches tbl 0)
    as [Hn Hl]; [done|].
  unfold DbStatements.batchPatchStates. rewrite Hn, Z.add_0_l.
  split; [done|]. split; [done|]. split; [done|]. split; [done|]. split.
  - apply set_eq. intros id. rewrite !elem_of_dom, Hl.
    destruct (tbl !! id); cbn; [split; eauto|]. split; intros [? ?]; done.
  - intros id r Hr. rewrite Hl, Hr. cbn. eexists. split; [done|]. split; [done|].
    intros p -> Hs Hc. cbn. by rewrite Hs, Hc.
Qed.

End BatchFacts.

(** The ids of trader 0x...aa, asked for in upper case with blanks around:
    trade 7. *)
Lemma trader_ids_listing_witness :
  @ReadRoutes.traderIdsRoute JS.sampleBuiltins Samples.trades
    " 0X00000000000000000000000000000000000000AA " ∅
  = ReadRoutes.TraderIds "0x00000000000000000000000000000000000000aa" [7] /\
  (7 ∈ [7] <->
   exists row, Samples.trades !! 7 = Some row /\
     Db.trader row = "0x00000000000000000000000000000000000000aa"%string).
Proof.
  assert (H : @ReadRoutes.traderIdsRoute JS.sampleBuiltins Samples.trades
                " 0X00000000000000000000000000000000000000AA " ∅
              = ReadRoutes.TraderIds "0x00000000000000000000000000000000000000aa" [7])
    by (vm_compute; reflexivity).
  split; [exact H|].
  destruct (trader_ids_listing _ _ _ _ _ H) as (_ & _ & _ & _ & Hall & _).
  apply Hall. vm_compute. reflexivity.
Defined.

(** Trade 8, closed at 66000 by PATCH, is read back closed by
    GET /trade/8. *)
Lemma written_trade_is_read_witness :
  exists tbl' id row,
    @WriteRoutes.patchTrade JS.sampleBuiltins Samples.trades (JS.JStr "8")
      Samples.closeAt66000 = (tbl', WriteRoutes.Accepted (Some row)) /\
    @ReadRoutes.tradeRoute JS.sampleBuiltins tbl' "8" = ReadRoutes.Trade id row.
Proof.
  destruct (@WriteRoutes.patchTrade JS.sampleBuiltins Samples.trades (JS.JStr "8")
              Samples.closeAt66000) as [tbl' resp] eqn:E.
  assert (Hacc : exists trade, resp = WriteRoutes.Accepted trade).
  { vm_compute in E. injection E as _ <-. eauto. }
  destruct Hacc as [trade ->].
  destruct (@written_trade_is_read JS.sampleBuiltins Samples.trades "8"
              Samples.closeAt66000 tbl' trade (or_intror E))
    as (id & row & -> & Hget & _).
  exists tbl', id, row. split; [reflexivity|exact Hget].
Defined.

(** A batch of one closed trade without close price is stored, and trade 7
    keeps its row. *)
Lemma batch_upsert_all_or_nothing_witness :
  let out := @BatchRoutes.batchUpsert JS.sampleBuiltins Samples.trades
               (Some [Some RouteSamples.closedTrade9]) in
  out.2 = BatchRoutes.Upserted 1 /\ out.1 !! 7 = Some Samples.limitOrder.
Proof.
  intros out.
  destruct (@batch_upsert_all_or_nothing JS.sampleBuiltins Samples.trades
              (Some [Some RouteSamples.closedTrade9]) out.1 out.2
              (surjective_pairing out))
    as [(err & Hr & _)|(its & rows & Hits & _ & Hr & Hrows & Hl)].
  - vm_compute in Hr. discriminate Hr.
  - injection Hits as <-. split; [exact Hr|].
    destruct (Hl 7) as [Hkeep _]. rewrite Hkeep; [reflexivity|].
    inversion Hrows as [|it [k v] ? rows' (idn & Hp & Hk) Hrest]; subst.
    inversion Hrest; subst. vm_compute in Hp. injection Hp as <- _.
    vm_compute in Hk. injection Hk as <-.
    cbn. rewrite list_elem_of_singleton. discriminate.
Defined.

(** PUT /trade/9 rejects the closed trade without close price; the batch
    route stores it. *)
Lemma batch_upsert_no_close_rule_witness :
  exists payload,
    @WriteRoutes.putTrade JS.sampleBuiltins Samples.trades (JS.JStr "9")
      RouteSamples.closedTrade9
    = (Samples.trades, WriteRoutes.Rejected 400 "state=2 requires closePrice != 0") /\
    @BatchRoutes.batchUpsert JS.sampleBuiltins Samples.trades
      (Some [Some RouteSamples.closedTrade9])
    = (<[9 := payload]> Samples.trades, BatchRoutes.Upserted 1) /\
    Db.state payload = Some 2 /\ Db.closePrice payload = Some 0.
Proof.
  destruct (@WriteRoutes.putPayload JS.sampleBuiltins (JS.JStr "9")
              RouteSamples.closedTrade9) as [[id payload]|e] eqn:E;
    [|vm_compute in E; discriminate E].
  assert (Hid : id = 9) by (vm_compute in E; congruence). subst id.
  assert (Hs : Db.state payload = Some 2) by (vm_compute in E; by simplify_eq).
  assert (Hc : Db.closePrice payload = Some 0) by (vm_compute in E; by simplify_eq).
  assert (Hv : WriteRoutes.invalidTrader (Db.trader payload) = false)
    by (vm_compute in E; by simplify_eq).
  destruct (@batch_upsert_no_close_rule JS.sampleBuiltins Samples.trades (JS.JStr "9")
              RouteSamples.closedTrade9 9 payload E Hv Hs Hc eq_refl ltac:(lia))
    as [Hput Hbatch].
  exists payload. split; [exact Hput|]. split; [exact Hbatch|]. split; [exact Hs|exact Hc].
Defined.

(** Stop-loss patches for the stored trade 8 and the absent trade 5: one
    row updated, trade 8 keeps its open price and its state. *)
Lemma batch_patch_sltp_effect_witness :
  let out := @BatchRoutes.batchPatchSLTP JS.sampleBuiltins Samples.trades
               (Some [Some (RouteSamples.stopLossOf 8 64000000000);
                      Some (RouteSamples.stopLossOf 5 1)]) in
  out.2 = BatchRoutes.Updated 1 /\ dom out.1 = dom Samples.trades /\
  exists r', out.1 !! 8 = Some r' /\
    Db.openPrice r' = Some 69000000000 /\ Db.state r' = Some 1.
Proof.
  intros out.
  destruct (@batch_patch_sltp_effect JS.sampleBuiltins Samples.trades _ out.1 out.2
              (surjective_pairing out))
    as [(err & Hr & _)|(its & patches & Hits & _ & _ & Hr & Hdom & Hrows)].
  - vm_compute in Hr. discriminate Hr.
  - split; [vm_compute; reflexivity|]. split; [exact Hdom|].
    destruct (Hrows 8 Samples.openLong eq_refl) as (r' & Hl & _ & Hshape & _).
    exists r'. split; [exact Hl|]. rewrite Hshape. split; reflexivity.
Defined.

(** A state patch closes trade 8, whose close price is NULL. *)
Lemma batch_patch_states_effect_witness :
  let out := @BatchRoutes.batchPatchStates JS.sampleBuiltins Samples.trades
               (Some [Some (RouteSamples.closeOf 8)]) in
  out.2 = BatchRoutes.Updated 1 /\
  exists r', out.1 !! 8 = Some r' /\ Db.state r' = Some 2 /\ Db.closePrice r' = None.
Proof.
  intros out.
  destruct (@batch_patch_states_effect JS.sampleBuiltins Samples.trades _ out.1 out.2
              (surjective_pairing out))
    as [(err & Hr & _)|(its & patches & Hits & _ & Hbuild & Hr & _ & Hrows)].
  - vm_compute in Hr. discriminate Hr.
  - split; [vm_compute; reflexivity|].
    injection Hits as <-.
    inversion Hbuild as [|it p ? ps Hp Hrest]; subst. inversion Hrest; subst.
    vm_compute in Hp. injection Hp as <-.
    destruct (Hrows 8 Samples.openLong eq_refl) as (r' & Hl & _ & Hclose).
    exists r'. split; [exact Hl|].
    exact (Hclose _ eq_refl eq_refl eq_refl).
Defined.

(** ** Numbers in transit: the command line of the sync and the query of
    the read server *)

Section CallFacts.
Import JS.
Context `{B : Builtins}.

Lemma joinIds_pretty (ids : list Z) :
  Forall (fun id => 0 < id < 2 ^ 53) ids ->
  ExecutorCalls.joinIds ids = String.concat "," (pretty <$> ids).
Proof.
  intros H. unfold ExecutorCalls.joinIds. f_equal.
  apply Forall_fmap_ext_1. eapply Forall_impl; [exact H|].
  intros id Hid. cbn beta in Hid. apply NumberToString_integer.
  rewrite Z.abs_eq by lia. apply Hid.
Qed.

Lemma nonEmpty_app a b : nonEmpty a = true -> nonEmpty (a +:+ b) = true.
Proof. by destruct a. Qed.

Lemma idsOption_pretty (ids : list Z) :
  ids <> [] -> Forall (fun id => 0 < id < 2 ^ 53) ids ->
  SyncArgs.idsOption (String.concat "," (pretty <$> ids))
  = (fun id => Fin (inject_Z id)) <$> ids.
Proof.
  intros Hne H. unfold SyncArgs.idsOption.
  rewrite split_concat.
  - rewrite <- list_fmap_compose. clear Hne.
    induction H as [|id ids Hid H IH]; [done|].
    cbn beta in Hid. cbn [fmap list_fmap compose]. rewrite filter_cons.
    rewrite trim_noWhiteSpace by apply pretty_Z_noWhiteSpace.
    rewrite StringToNumber_pretty by (rewrite Z.abs_eq; lia).
    rewrite numGe_inject. cbn [isFinite andb].
    destruct (Z.leb_spec 1 id); [|lia].
    rewrite decide_True by done. f_equal. exact IH.
  - by destruct ids.
  - apply Forall_fmap, Forall_true. intros id. unfold compose.
    by apply pretty_Z_no_char.
Qed.

(** X17. The ids the executor's batcher flushes are the ids the sync it
    spawns works on: for a non-empty list of ids between 1 and 2^53, the
    child reads the mode [full] from its command line and selects, from
    [--ids], the same numbers in the same order, duplicates included. *)
Theorem resync_ids_reach_sync (execPath scriptPath : string) (ids : list Z) :
  ids <> [] -> Forall (fun id => 0 < id < 2 ^ 53) ids ->
  let a := SyncArgs.parseArgs (ExecutorCalls.syncArgv execPath scriptPath ids) in
  SyncArgs.mode a = Some "full"%string /\
  SyncArgs.validMode (SyncArgs.mode a) = true /\
  SyncArgs.selected a = SyncArgs.Ids ((fun id => Fin (inject_Z id)) <$> ids).
Proof.
  intros Hne H a.
  assert (Ha : a = {| SyncArgs.mode := Some "full"%string;
                      SyncArgs.ids := Some (ExecutorCalls.joinIds ids);
                      SyncArgs.range := None; SyncArgs.missingScan := None |})
    by reflexivity.
  rewrite Ha. split; [done|]. split; [done|].
  unfold SyncArgs.selected. cbn [SyncArgs.ids].
  rewrite joinIds_pretty by done.
  assert (Hs : nonEmpty (String.concat "," (pretty <$> ids)) = true).
  { destruct ids as [|id rest]; [done|].
    assert (Hid : nonEmpty (pretty id) = true).
    { apply Forall_cons in H as [Hid _].
      destruct id as [|p|p]; [lia| |lia].
      change (pretty (Zpos p)) with (pretty (Npos p)).
      by destruct (pretty_N_numeral (Npos p)) as (_ & ? & _). }
    destruct rest; [done|]. by apply nonEmpty_app. }
  rewrite Hs. f_equal. by apply idsOption_pretty.
Qed.

Lemma queryValue_no_plus (s : string) :
  (forall c, In c (list_ascii_of_string s) -> c <> "+"%char) ->
  ExecutorCalls.queryValue s = s.
Proof.
  induction s as [|c r IH]; intros H; [done|]. cbn [ExecutorCalls.queryValue].
  destruct (Ascii.eqb_spec c "+") as [->|_].
  - exfalso. apply (H "+"%char); [by left|done].
  - rewrite IH; [done|]. intros d Hd. apply H. by right.
Qed.

Lemma queryValue_integer (z : Z) :
  Z.abs z < 2 ^ 53 ->
  ExecutorCalls.queryValue (NumberToString (Fin (inject_Z z))) = pretty z.
Proof.
  intros Hz. rewrite NumberToString_integer by done.
  apply queryValue_no_plus. by apply pretty_Z_no_char.
Qed.

Lemma trunc_integer (z : Z) : trunc (Fin (inject_Z z)) = z.
Proof. unfold trunc, truncQ. cbn [inject_Z Qnum Qden]. apply Z.quot_1_r. Qed.

Lemma matchQuery_read (assetId marketE6 : Z) :
  Z.abs assetId < 2 ^ 53 -> Z.abs marketE6 < 2 ^ 53 ->
  let query := ExecutorCalls.matchQuery (Fin (inject_Z assetId)) (BigIntToNumber marketE6) in
  ReadServer.toInt (prop query "assetId") "assetId" = Normal assetId /\
  ReadServer.parseMarketE6 query = Normal marketE6.
Proof.
  intros Ha Hm query. subst query. unfold BigIntToNumber.
  rewrite roundToDouble_exact by done. unfold ExecutorCalls.matchQuery.
  rewrite !queryValue_integer by done. split.
  - unfold ReadServer.toInt, prop. rewrite lookup_insert_eq. cbn [default from_option id Number].
    rewrite StringToNumber_pretty by done. cbn [isFinite negb].
    by rewrite trunc_integer.
  - unfold ReadServer.parseMarketE6, prop.
    rewrite (lookup_insert_ne _ "assetId" "market") by done.
    rewrite lookup_insert_eq. cbn [default from_option id].
    rewrite (lookup_insert_ne _ "assetId" "unit") by done.
    rewrite (lookup_insert_ne _ "market" "unit") by done.
    rewrite lookup_singleton_eq. cbn [default from_option id truthy nonEmpty Number].
    rewrite StringToNumber_pretty by done. cbn [isFinite negb].
    change (toLowerCase (ToString (JStr "e6")) =? "e6")%string with true.
    cbn match. by rewrite trunc_integer.
Qed.

(** X18. The price of a tick reaches the matcher as the executor computed
    it: for an asset id and an E6 price below 2^53 in magnitude, the read
    server parses the query of the executor's two requests back to the same
    two integers, answers neither with a 400, and matches the orders of
    that asset against that price. *)
Theorem tick_price_reaches_matcher (tbl : Db.table) (assetId marketE6 : Z) :
  Z.abs assetId < 2 ^ 53 -> Z.abs marketE6 < 2 ^ 53 ->
  let query := ExecutorCalls.matchQuery (Fin (inject_Z assetId)) (BigIntToNumber marketE6) in
  ReadServer.matchEntryRoute tbl query
  = (let '(limit, stop) :=
       ReadServer.collectEntry
         (Db.matchEntry tbl assetId marketE6 marketE6 marketE6 marketE6) [] [] in
     ReadServer.EntryMatches assetId marketE6 limit stop) /\
  ReadServer.matchExitsRoute tbl query
  = (let '(stopLoss, takeProfit) :=
       ReadServer.collectExits
         (Db.matchExits tbl marketE6 marketE6 marketE6 marketE6 assetId
            marketE6 marketE6 marketE6 marketE6) [] [] in
     ReadServer.ExitMatches assetId marketE6 stopLoss takeProfit).
Proof.
  intros Ha Hm query. destruct (matchQuery_read assetId marketE6 Ha Hm) as [Hid Hprice].
  fold query in Hid, Hprice.
  unfold ReadServer.matchEntryRoute, ReadServer.matchExitsRoute.
  rewrite Hid, Hprice. cbn [mbind completion_bind]. split.
  - by destruct (ReadServer.collectEntry _ _ _).
  - by destruct (ReadServer.collectExits _ _ _).
Qed.

End CallFacts.

(** The batcher flushes 7 and 9. *)
Lemma resync_ids_reach_sync_witness :
  [7; 9] <> [] /\
  @SyncArgs.selected JS.sampleBuiltins
    (@SyncArgs.parseArgs JS.sampleBuiltins
       (@ExecutorCalls.syncArgv JS.sampleBuiltins "/usr/bin/node" "/srv/sync.js" [7; 9]))
  = SyncArgs.Ids [JS.Fin (inject_Z 7); JS.Fin (inject_Z 9)].
Proof.
  split; [done|].
  apply (@resync_ids_reach_sync JS.sampleBuiltins "/usr/bin/node" "/srv/sync.js" [7; 9]);
    [done|]. by repeat constructor.
Defined.

(** EUR/USD (5000) at 1.084250. *)
Lemma tick_price_reaches_matcher_witness :
  @ReadServer.parseMarketE6 JS.sampleBuiltins
    (@ExecutorCalls.matchQuery JS.sampleBuiltins
       (JS.Fin (inject_Z 5000)) (JS.BigIntToNumber 1084250)) = JS.Normal 1084250 /\
  @ReadServer.matchEntryRoute JS.sampleBuiltins ∅
    (@ExecutorCalls.matchQuery JS.sampleBuiltins
       (JS.Fin (inject_Z 5000)) (JS.BigIntToNumber 1084250))
  = ReadServer.EntryMatches 5000 1084250 [] [].
Proof.
  split; [reflexivity|].
  exact (proj1 (@tick_price_reaches_matcher JS.sampleBuiltins ∅ 5000 1084250
                  eq_refl eq_refl)).
Defined.

(** ** The periodic sync: which ids it reaches *)

Section CronFacts.
Import JS.
Context `{B : Builtins}.

Lemma filter_fmap_Fin (P : Z -> Prop) `{!forall z, Decision (P z)}
    (Q : jsnum -> Prop) `{!forall n, Decision (Q n)} (l : list Z) :
  (forall z, Q (Fin (inject_Z z)) <-> P z) ->
  filter Q ((fun z => Fin (inject_Z z)) <$> l) = (fun z => Fin (inject_Z z)) <$> filter P l.
Proof.
  intros HPQ. induction l as [|z l IH]; [done|].
  rewrite fmap_cons, !filter_cons, IH.
  destruct (decide (Q _)) as [HQ|HQ], (decide (P z)) as [HP|HP]; try done.
  - by apply HPQ in HQ.
  - by apply HPQ in HP.
Qed.

Lemma filter_all {A} (P : A -> Prop) `{!forall x, Decision (P x)} (l : list A) :
  Forall P l -> filter P l = l.
Proof.
  induction 1 as [|x l Hx _ IH]; [done|]. by rewrite filter_cons, decide_True, IH.
Qed.

Lemma filter_none {A} (P : A -> Prop) `{!forall x, Decision (P x)} (l : list A) :
  Forall (fun x => ~ P x) l -> filter P l = [].
Proof.
  induction 1 as [|x l Hx _ IH]; [done|]. by rewrite filter_cons, decide_False, IH.
Qed.

Lemma filter_seqZ_upto (hi n : Z) :
  0 <= n -> 1 <= hi ->
  filter (fun id => 1 <= id /\ id <= hi) (seqZ 1 n) = seqZ 1 (Z.min hi n).
Proof.
  intros Hn Hhi.
  replace n with (Z.min hi n + (n - Z.min hi n)) at 1 by lia.
  rewrite seqZ_app by lia. rewrite filter_app.
  rewrite filter_all by (apply Forall_seqZ; lia).
  rewrite filter_none by (apply Forall_seqZ; lia).
  by rewrite app_nil_r.
Qed.

Lemma numLe_inject z k : SyncArgs.numLe (Fin (inject_Z z)) k = (z <=? k).
Proof. unfold SyncArgs.numLe, Qle_bool. simpl. by rewrite !Z.mul_1_r. Qed.

Lemma rangeIds_from_one (addOther : jsnum -> jsnum -> jsnum) (count : Z) :
  0 <= count < 2 ^ 52 ->
  SyncArgs.rangeIds addOther (Fin (inject_Z 1)) (Fin (inject_Z count))
  = Some ((fun z => Fin (inject_Z z)) <$> seqZ 1 count).
Proof.
  intros Hc. unfold SyncArgs.rangeIds, SyncArgs.iterations.
  assert (Hle : Qle_bool (inject_Z count) (inject_Z (2 ^ 53)) = true).
  { unfold Qle_bool. simpl. rewrite !Z.mul_1_r. apply Z.leb_le.
    change (2 ^ 52) with 4503599627370496 in Hc. lia. }
  rewrite Hle. cbn [fmap option_fmap option_map]. f_equal.
  assert (Hq : Qceiling (inject_Z count) = count).
  { unfold Qceiling, Qfloor. simpl. rewrite Z.div_1_r. lia. }
  rewrite Hq, Z.max_r by lia.
  replace (seqZ 1 count) with (Z.add 1 <$> seqZ 0 count) by (by rewrite fmap_add_seqZ).
  rewrite <- list_fmap_compose.
  apply Forall_fmap_ext_1, Forall_seqZ. intros i Hi. unfold compose.
  change (SyncArgs.max1 (Fin (inject_Z 1))) with (Fin (inject_Z 1)).
  unfold SyncArgs.numAdd, isIntegerQ, truncQ. cbn [inject_Z Qnum Qden].
  rewrite !Z.rem_1_r, !Z.quot_1_r. cbn [Z.eqb andb].
  apply roundToDouble_exact.
  change (2 ^ 52) with 4503599627370496 in Hc.
  change (2 ^ 53) with 9007199254740992. lia.
Qed.

(** X21. Each of the two runs the cron starts, [states] then [sltp], gives
    the sync a valid mode and the range from 1 of one million ids; with
    [maxExistingId] trades on the ledger the run works on the ids from 1 to
    the smaller of [maxExistingId] and 1 000 000, in order and once each: a
    trade with an id above one million is never reached by the cron. *)
Theorem cron_reaches_first_million (addOther : jsnum -> jsnum -> jsnum)
    (execPath scriptPath : string) (args : list string) (maxExistingId : Z) :
  args ∈ Cron.runHourly -> 1 <= maxExistingId ->
  let a := SyncArgs.parseArgs (Cron.syncArgv execPath scriptPath args) in
  SyncArgs.validMode (SyncArgs.mode a) = true /\
  SyncArgs.selected a = SyncArgs.Range (Fin (inject_Z 1)) (Fin (inject_Z 1000000)) /\
  SyncArgs.withinLedger maxExistingId
    <$> SyncArgs.rangeIds addOther (Fin (inject_Z 1)) (Fin (inject_Z 1000000))
  = Some ((fun z => Fin (inject_Z z)) <$> seqZ 1 (Z.min maxExistingId 1000000)) /\
  forall id, id ∈ seqZ 1 (Z.min maxExistingId 1000000) -> id <= 1000000.
Proof.
  intros Hargs Hmax a.
  assert (Ha : SyncArgs.validMode (SyncArgs.mode a) = true /\
               SyncArgs.selected a
               = SyncArgs.Range (Fin (inject_Z 1)) (Fin (inject_Z 1000000))).
  { subst a. unfold Cron.runHourly in Hargs.
    apply elem_of_cons in Hargs as [->|Hargs];
      [|apply list_elem_of_singleton in Hargs as ->]; split; reflexivity. }
  destruct Ha as [Hmode Hsel]. split; [done|]. split; [done|]. split.
  - rewrite rangeIds_from_one by done. cbn [fmap option_fmap option_map]. f_equal.
    unfold SyncArgs.withinLedger.
    rewrite (filter_fmap_Fin (fun id => 1 <= id /\ id <= maxExistingId)).
    + by rewrite filter_seqZ_upto.
    + intros z. rewrite numGe_inject, numLe_inject, andb_true_iff, !Z.leb_le. done.
  - intros id Hid. apply elem_of_seqZ in Hid. lia.
Qed.

End CronFacts.

(** The states run, with three trades on the ledger. *)
Lemma cron_reaches_first_million_witness :
  @Cron.rangeArgs JS.sampleBuiltins "states" ∈ @Cron.runHourly JS.sampleBuiltins /\
  SyncArgs.withinLedger 3
    <$> SyncArgs.rangeIds (fun _ _ => JS.NaN) (JS.Fin (inject_Z 1)) (JS.Fin (inject_Z 1000000))
  = Some [JS.Fin (inject_Z 1); JS.Fin (inject_Z 2); JS.Fin (inject_Z 3)].
Proof.
  assert (H : @Cron.rangeArgs JS.sampleBuiltins "states" ∈ @Cron.runHourly JS.sampleBuiltins)
    by (by left).
  split; [exact H|].
  destruct (@cron_reaches_first_million JS.sampleBuiltins (fun _ _ => JS.NaN)
              "/usr/bin/node" "/srv/sync.js" _ 3 H ltac:(lia)) as (_ & _ & H3 & _).
  exact H3.
Defined.

(** ** Invariants of tasks and loops *)

Section InvariantFacts.
Import Async Invariants.
Context {St Req Resp Exn : Type}.
Implicit Types I : St -> Prop.

Lemma keeps_bind {A C} I now (x : step St Req Resp Exn A)
    (f : A -> task St Req Resp Exn C) :
  keeps I x -> (forall a s now', I s -> keeps I (f a s now')) ->
  keeps I (bind_step now x f).
Proof.
  intros Hx Hf. revert now Hx.
  induction x as [s a|s e|s r k IH]; intros now Hx; cbn in *; [by apply Hf|done|].
  destruct Hx as [Hs Hk]. split; [done|]. intros resp s' now' Hs'. by apply IH, Hk.
Qed.

Lemma keeps_catch {A} I now (x : step St Req Resp Exn A)
    (h : Exn -> task St Req Resp Exn A) :
  keeps I x -> (forall e s now', I s -> keeps I (h e s now')) ->
  keeps I (catch_step now x h).
Proof.
  intros Hx Hh. revert now Hx.
  induction x as [s a|s e|s r k IH]; intros now Hx; cbn in *; [done|by apply Hh|].
  destruct Hx as [Hs Hk]. split; [done|]. intros resp s' now' Hs'. by apply IH, Hk.
Qed.

Lemma keeps_yielded {A} I (x : step St Req Resp Exn A) : keeps I x -> I (yielded x).
Proof. destruct x; cbn; tauto. Qed.

Lemma holds_start I (s : St) : I s -> holds I (start s : loop St Req Resp Exn).
Proof. intros Hs. split; [done|]. intros c r k H. cbn in H. by rewrite lookup_empty in H. Qed.

Lemma settle_holds I (l : loop St Req Resp Exn) c x :
  holds I l -> keeps I x -> holds I (settle l c x).1.
Proof.
  intros [Hs Hp] Hx. destruct x as [s a|s e|s r k]; cbn in *.
  - split; [done|]. intros c' r' k' H. cbn in H.
    apply lookup_delete_Some in H as [_ H]. by eapply Hp.
  - split; [done|]. intros c' r' k' H. cbn in H.
    apply lookup_delete_Some in H as [_ H]. by eapply Hp.
  - destruct Hx as [Hs' Hk]. split; [done|]. intros c' r' k' H. cbn in H.
    apply lookup_insert_Some in H as [[<- ?]|[_ H]]; [by simplify_eq|by eapply Hp].
Qed.

Lemma turn_holds I (l : loop St Req Resp Exn) i :
  holds I l ->
  (forall t now, i = Call t now -> forall s, I s -> keeps I (t s now)) ->
  holds I (turn l i).1.
Proof.
  intros Hl Hcall. destruct i as [t now|c resp now]; cbn.
  - apply settle_holds.
    + destruct Hl as [Hs Hp]. by split.
    + apply (Hcall t now eq_refl). apply Hl.
  - destruct (parked l !! c) as [[r k]|] eqn:E; [|done].
    apply settle_holds; [done|]. destruct Hl as [Hs Hp]. by eapply Hp.
Qed.

Lemma turns_holds I (l : loop St Req Resp Exn) ins :
  holds I l ->
  (forall t now, Call t now ∈ ins -> forall s, I s -> keeps I (t s now)) ->
  holds I (turns l ins).1.
Proof.
  revert l. induction ins as [|i rest IH]; intros l Hl Hcalls; cbn; [done|].
  assert (Hl' : holds I (turn l i).1).
  { apply turn_holds; [done|]. intros t now -> s Hs. apply Hcalls; [by left|done]. }
  destruct (turn l i) as [l' out]. cbn in Hl'.
  specialize (IH l' Hl'). destruct (turns l' rest) as [l'' out']. cbn in *.
  apply IH. intros t now Hin. apply Hcalls. by right.
Qed.

Lemma calm_bind {V A C} (view : St -> V) ok v now (x : step St Req Resp Exn A)
    (f : A -> task St Req Resp Exn C) :
  calm view ok v x -> (forall a s now', calm view ok (view s) (f a s now')) ->
  calm view ok v (bind_step now x f).
Proof.
  intros Hx Hf. revert v now Hx.
  induction x as [s a|s e|s r k IH]; intros v now Hx; cbn in *.
  - subst v. apply Hf.
  - done.
  - destruct Hx as (Hv & Hr & Hk). split; [done|]. split; [done|].
    intros resp s' now'. apply IH, Hk.
Qed.

Lemma calm_guarded {V A} (view : St -> V) ok v (x : step St Req Resp Exn A) :
  calm view ok v x -> guarded view ok x.
Proof.
  revert v. induction x as [s a|s e|s r k IH]; intros v Hx; cbn in *; [done..|].
  destruct Hx as (_ & _ & Hk). intros resp s' now'. split; [|intros _; apply Hk].
  eapply IH, Hk.
Qed.

Lemma guarded_bind_calm {V A C} (view : St -> V) ok now (x : step St Req Resp Exn A)
    (f : A -> task St Req Resp Exn C) :
  guarded view ok x -> (forall a s now', calm view ok (view s) (f a s now')) ->
  guarded view ok (bind_step now x f).
Proof.
  intros Hx Hf. revert now Hx.
  induction x as [s a|s e|s r k IH]; intros now Hx; cbn in *.
  - eapply calm_guarded, Hf.
  - done.
  - intros resp s' now'. destruct (Hx resp s' now') as [Hg Hc]. split; [by apply IH|].
    intros Hr. apply calm_bind; [by apply Hc|done].
Qed.

Lemma calm_view {V A} (view : St -> V) ok v (x : step St Req Resp Exn A) :
  calm view ok v x -> view (yielded x) = v.
Proof. destruct x; cbn; tauto. Qed.

End InvariantFacts.

(** ** The executor: submission, the resync batcher, the locked cache *)

Section ExecMoreFacts.
Import JS Async Executor Invariants.
Context `{B : Builtins} {Wallet : Type}.
Abbreviation etask := (Async.task state (@request Wallet) (@response Wallet) exn).
Abbreviation eloop := (Async.loop state (@request Wallet) (@response Wallet) exn).
Abbreviation estep := (Async.step state (@request Wallet) (@response Wallet) exn).

Lemma neverThrows_catch {A} now (x : estep A) (h : exn -> etask A) :
  (forall e s now', neverThrows (h e s now')) -> neverThrows (catch_step now x h).
Proof.
  intros Hh. revert now. induction x as [s a|s e|s r k IH]; intros now; cbn;
    [done|apply Hh|]. intros resp s' now'. apply IH.
Qed.

(** X10. [executeOnchain] from the wallet on: it first asks the pool for
    a wallet, and a rejection there is thrown to the caller with nothing
    enqueued. Once a wallet is acquired the call never throws: it fetches
    the proof for the asset, submits [executeOrder] for an entry and
    [executeStopOrTakeProfit] for an exit with that wallet, waits for one
    confirmation, and ends; a rejected proof, submission or wait, and a kind
    that is neither, end the call with the trade enqueued for resync. *)
Theorem submit_failures_resync (kind : string) (tradeId assetId : Z) (s : state) now :
  exists k,
    (submit kind tradeId assetId : etask unit) s now = Await s WalletAcquire k /\
    (forall e s1 now1, k (Rejects e) s1 now1 = Raise s1 e) /\
    forall w s1 now1,
      neverThrows (k (AWallet w) s1 now1) /\
      exists k2,
        k (AWallet w) s1 now1 = Await s1 (FetchProof [assetId]) k2 /\
        (forall e s2 now2,
           k2 (Rejects e) s2 now2 = Return (set_resyncBatcher (enqueue tradeId) s2) tt) /\
        forall proof s2 now2,
          (kind = "entry"%string ->
           exists k3, k2 (ProofBytes proof) s2 now2
                      = Await s2 (ExecuteOrder w tradeId proof) k3 /\
                      confirms tradeId k3) /\
          (kind = "exit"%string ->
           exists k3, k2 (ProofBytes proof) s2 now2
                      = Await s2 (ExecuteStopOrTakeProfit w tradeId proof) k3 /\
                      confirms tradeId k3) /\
          (kind <> "entry"%string -> kind <> "exit"%string ->
           k2 (ProofBytes proof) s2 now2
           = Return (set_resyncBatcher (enqueue tradeId) s2) tt).
Proof.
  unfold submit. task_unfold. eexists. split; [reflexivity|]. split; [done|].
  intros w s1 now1. cbn [bind_step]. split.
  - intros resp s2 now2. apply neverThrows_catch. intros e s' now'. exact I.
  - cbn [catch_step]. eexists. split; [reflexivity|]. split; [done|].
    intros proof s2 now2. cbn [bind_step catch_step]. split; [|split].
    + intros ->. cbn [String.eqb Ascii.eqb Bool.eqb andb]. cbn [bind_step catch_step].
      eexists. split; [reflexivity|]. split; [done|].
      intros hash s3 now3. cbn [bind_step catch_step]. eexists.
      split; [reflexivity|]. split; done.
    + intros ->. cbn [String.eqb Ascii.eqb Bool.eqb andb]. cbn [bind_step catch_step].
      eexists. split; [reflexivity|]. split; [done|].
      intros hash s3 now3. cbn [bind_step catch_step]. eexists.
      split; [reflexivity|]. split; done.
    + intros Hn1 Hn2. apply String.eqb_neq in Hn1, Hn2. rewrite Hn1, Hn2. done.
Qed.

(** *** The batcher stays tidy *)

Lemma tidy_scheduleFlush b :
  NoDup (pending b) -> Forall (fun id => 0 < id) (pending b) -> tidy (scheduleFlush b).
Proof.
  intros Hnd Hpos. unfold scheduleFlush. destruct (timer b) eqn:Et; split_and!; cbn; auto.
Qed.

Lemma tidy_enqueue tradeId b : tidy b -> tidy (enqueue tradeId b).
Proof.
  intros (Hnd & Hpos & Hcov). unfold enqueue.
  destruct (Z.leb_spec tradeId 0) as [|Hid]; [done|].
  apply tidy_scheduleFlush; cbn; unfold setAdd; case_bool_decide; try done.
  - apply NoDup_app. split; [done|]. split; [|apply NoDup_singleton].
    intros x Hx ->%list_elem_of_singleton. done.
  - apply Forall_app. split; [done|]. by constructor.
Qed.

Lemma keeps_tidy_flush (s : state) now :
  NoDup (pending (resyncBatcher s)) ->
  Forall (fun id => 0 < id) (pending (resyncBatcher s)) ->
  keeps (fun s => tidy (resyncBatcher s)) ((flush : etask unit) s now).
Proof.
  intros Hnd Hpos. unfold flush. task_unfold.
  destruct (inFlight (resyncBatcher s)) eqn:Ef.
  - cbn. by apply tidy_scheduleFlush.
  - case_bool_decide as Hp.
    + cbn. split_and!; [done..|]. intros ?. done.
    + cbn. split.
      * split_and!; cbn; [apply NoDup_nil_2|constructor|done].
      * intros resp s' now' (Hnd' & Hpos' & Hcov'). cbn.
        case_bool_decide as Hp'.
        -- split_and!; done.
        -- by apply tidy_scheduleFlush.
Qed.

Lemma keeps_tidy_onFlushTimer (s : state) now :
  tidy (resyncBatcher s) ->
  keeps (fun s => tidy (resyncBatcher s)) ((onFlushTimer : etask unit) s now).
Proof.
  intros (Hnd & Hpos & _). unfold onFlushTimer. task_unfold.
  by apply keeps_tidy_flush.
Qed.

Lemma keeps_tidy_submit kind tradeId assetId (s : state) now :
  tidy (resyncBatcher s) ->
  keeps (fun s => tidy (resyncBatcher s)) ((submit kind tradeId assetId : etask unit) s now).
Proof.
  intros Hs. unfold submit. task_unfold. cbn. split; [done|].
  intros resp s1 now1 Hs1. destruct resp; cbn; try done.
  split; [done|]. intros resp s2 now2 Hs2.
  destruct resp; cbn; try done; try (by apply tidy_enqueue).
  destruct (String.eqb kind "entry"); cbn.
  { split; [done|]. intros resp s3 now3 Hs3.
    destruct resp; cbn; try done; try (by apply tidy_enqueue).
    split; [done|]. intros resp s4 now4 Hs4.
    destruct resp; cbn; try done; by apply tidy_enqueue. }
  destruct (String.eqb kind "exit"); cbn; [|by apply tidy_enqueue].
  split; [done|]. intros resp s3 now3 Hs3.
  destruct resp; cbn; try done; try (by apply tidy_enqueue).
  split; [done|]. intros resp s4 now4 Hs4.
  destruct resp; cbn; try done; by apply tidy_enqueue.
Qed.

Lemma keeps_tidy_executeOnchain cfg kind tradeId assetId (s : state) now :
  tidy (resyncBatcher s) ->
  keeps (fun s => tidy (resyncBatcher s))
    ((executeOnchain cfg kind tradeId assetId : etask unit) s now).
Proof.
  intros Hs. unfold executeOnchain. task_unfold.
  destruct (now - lastSent s (dedupKey kind tradeId) <? DEDUP_MS cfg); [done|].
  cbn [bind_step]. unfold admitAndSubmit.
  destruct (String.eqb kind "entry"); [|by apply keeps_tidy_submit].
  apply keeps_bind.
  - unfold getTradeLockedE6. task_unfold. cbn [lockedCache set_recentlySent].
    destruct (lockedCache s !! tradeId); cbn; [done|]. split; [done|].
    intros resp s1 now1 Hs1. destruct resp; cbn; try done.
    destruct (lockedOf lpLockedCapital); cbn; done.
  - intros locked s1 now1 Hs1. destruct (locked <=? 0).
    + cbn. by apply tidy_enqueue.
    + apply keeps_bind.
      * unfold getLpFreeCapitalE6. task_unfold.
        destruct (now1 - (lpFreeCache s1).1 <? LP_FREE_TTL_MS cfg); cbn; [done|].
        split; [done|]. intros resp s2 now2 Hs2. destruct resp; cbn; done.
      * intros free s2 now2 Hs2. destruct (Z.of_N free <? locked); [done|].
        by apply keeps_tidy_submit.
Qed.

(** X11. In every state the executor reaches, from its start and over
    any calls of [executeOnchain], flush timers and responses, the resync
    batcher holds no id twice, holds positive ids only, and, while it holds
    any, has its flush timer armed or a sync in flight: a pending id is
    never left without a flush to come. *)
Theorem batcher_stays_tidy (cfg : config) (events : list (@event Wallet)) :
  let b := resyncBatcher (shared (run cfg (start initial) events).1) in
  NoDup (pending b) /\ Forall (fun id => 0 < id) (pending b) /\
  (pending b <> [] -> timer b = true \/ inFlight b = true).
Proof.
  intros b. subst b. unfold run.
  apply (turns_holds (fun s => tidy (resyncBatcher s))).
  - apply holds_start. split_and!; cbn; [apply NoDup_nil_2|constructor|done].
  - intros t now Hin s Hs. apply list_elem_of_fmap in Hin as (e & He & _).
    destruct e as [kind tradeId assetId now0|now0|c resp now0]; cbn in He; simplify_eq.
    + by apply keeps_tidy_executeOnchain.
    + by apply keeps_tidy_onFlushTimer.
Qed.

(** *** Views that a call of [executeOnchain] leaves alone *)

Section CalmTasks.
Context {V : Type} (view : state -> V) (ok : @request Wallet -> Prop).
Hypothesis view_recentlySent : forall f s, view (set_recentlySent f s) = view s.
Hypothesis view_lpFreeCache : forall c s, view (set_lpFreeCache c s) = view s.
Hypothesis view_enqueue : forall id s, view (set_resyncBatcher (enqueue id) s) = view s.
Hypothesis view_lockedCache : forall id locked s,
  ok (HttpGetTrade id) -> view (set_lockedCache (insert id locked) s) = view s.
Hypothesis ok_other : forall r,
  match r with
  | HttpGetTrade _ | SpawnSync _ => True
  | _ => ok r
  end.

Lemma calm_submit kind tradeId assetId (s : state) now :
  calm view ok (view s) ((submit kind tradeId assetId : etask unit) s now).
Proof.
  unfold submit. task_unfold. cbn. split; [done|]. split; [exact (ok_other WalletAcquire)|].
  intros resp s1 now1. destruct resp; cbn; try done.
  split; [done|]. split; [exact (ok_other (FetchProof _))|]. intros resp s2 now2.
  destruct resp; cbn; try done; try apply view_enqueue.
  destruct (String.eqb kind "entry"); cbn.
  { split; [done|]. split; [exact (ok_other (ExecuteOrder _ _ _))|]. intros resp s3 now3.
    destruct resp; cbn; try done; try apply view_enqueue.
    split; [done|]. split; [exact (ok_other (TxWait _ _))|]. intros resp s4 now4.
    destruct resp; cbn; try done; apply view_enqueue. }
  destruct (String.eqb kind "exit"); cbn; [|apply view_enqueue].
  split; [done|]. split; [exact (ok_other (ExecuteStopOrTakeProfit _ _ _))|].
  intros resp s3 now3.
  destruct resp; cbn; try done; try apply view_enqueue.
  split; [done|]. split; [exact (ok_other (TxWait _ _))|]. intros resp s4 now4.
  destruct resp; cbn; try done; apply view_enqueue.
Qed.

Lemma calm_getLpFreeCapitalE6 cfg (s : state) now :
  calm view ok (view s) ((getLpFreeCapitalE6 cfg : etask N) s now).
Proof.
  unfold getLpFreeCapitalE6. task_unfold.
  destruct (now - (lpFreeCache s).1 <? LP_FREE_TTL_MS cfg); cbn; [done|].
  split; [done|]. split; [exact (ok_other VaultLpFreeCapital)|].
  intros resp s2 now2. destruct resp; cbn; try done; apply view_lpFreeCache.
Qed.

(** [executeOnchain] for an entry, from the locked amount on. *)
Lemma calm_admitted cfg kind tradeId assetId locked (s : state) now :
  calm view ok (view s)
    ((if locked <=? 0 then modify (set_resyncBatcher (enqueue tradeId))
      else free ← getLpFreeCapitalE6 cfg;
           if Z.of_N free <? locked then mret tt
           else submit kind tradeId assetId : etask unit) s now).
Proof.
  destruct (locked <=? 0); [cbn; apply view_enqueue|].
  task_unfold. apply calm_bind; [apply calm_getLpFreeCapitalE6|].
  intros free s2 now2. destruct (Z.of_N free <? locked); [done|]. apply calm_submit.
Qed.

Lemma guarded_getTradeLockedE6 tradeId (s : state) now :
  guarded view ok ((getTradeLockedE6 tradeId : etask Z) s now) /\
  (ok (HttpGetTrade tradeId) \/ is_Some (lockedCache s !! tradeId) ->
   calm view ok (view s) ((getTradeLockedE6 tradeId : etask Z) s now)).
Proof.
  unfold getTradeLockedE6. task_unfold.
  destruct (lockedCache s !! tradeId) as [hit|] eqn:E; cbn; [done|].
  split.
  - intros resp s' now'. split.
    + destruct resp; cbn; try done. by destruct (lockedOf lpLockedCapital).
    + intros Hok. destruct resp; cbn; try done.
      destruct (lockedOf lpLockedCapital); cbn; [|done]. by apply view_lockedCache.
  - intros [Hok|[? ?]]; [|done]. split; [done|]. split; [done|].
    intros resp s' now'. destruct resp; cbn; try done.
    destruct (lockedOf lpLockedCapital); cbn; [|done]. by apply view_lockedCache.
Qed.

Lemma guarded_executeOnchain cfg kind tradeId assetId (s : state) now :
  guarded view ok ((executeOnchain cfg kind tradeId assetId : etask unit) s now) /\
  (ok (HttpGetTrade tradeId) \/ is_Some (lockedCache s !! tradeId) ->
   calm view ok (view s) ((executeOnchain cfg kind tradeId assetId : etask unit) s now)).
Proof.
  unfold executeOnchain. task_unfold.
  destruct (now - lastSent s (dedupKey kind tradeId) <? DEDUP_MS cfg); [done|].
  cbn [bind_step].
  rewrite <- (view_recentlySent (insert (dedupKey kind tradeId) now) s).
  assert (Hc : lockedCache (set_recentlySent (insert (dedupKey kind tradeId) now) s)
               = lockedCache s) by done.
  rewrite <- Hc. generalize (set_recentlySent (insert (dedupKey kind tradeId) now) s).
  clear Hc. intros s0. unfold admitAndSubmit.
  destruct (String.eqb kind "entry").
  - destruct (guarded_getTradeLockedE6 tradeId s0 now) as [Hg Hcalm]. split.
    + apply guarded_bind_calm; [done|]. intros locked s1 now1. apply calm_admitted.
    + intros H. apply calm_bind; [by apply Hcalm|].
      intros locked s1 now1. apply calm_admitted.
  - split; [eapply calm_guarded|intros _]; apply calm_submit.
Qed.

End CalmTasks.

(** *** One sync at a time *)

Lemma syncing_enqueue tradeId (s : state) :
  syncing (set_resyncBatcher (enqueue tradeId) s) = syncing s.
Proof.
  unfold syncing. cbn. unfold enqueue, scheduleFlush.
  destruct (tradeId <=? 0); [done|]. cbn. by destruct (timer (resyncBatcher s)).
Qed.

Lemma calm_syncing_executeOnchain cfg kind tradeId assetId (s : state) now :
  calm syncing (fun r => ~ isSpawn r) (syncing s)
    ((executeOnchain cfg kind tradeId assetId : etask unit) s now).
Proof.
  apply (guarded_executeOnchain syncing (fun r => ~ isSpawn r)); try done.
  - intros id s'. apply syncing_enqueue.
  - intros r. destruct r; cbn; tauto.
  - left. cbn. tauto.
Qed.

Lemma onFlushTimer_cases (s : state) now :
  calm syncing (fun r => ~ isSpawn r) (syncing s) ((onFlushTimer : etask unit) s now) \/
  (syncing s = false /\
   exists ids s1 k,
     (onFlushTimer : etask unit) s now = Await s1 (SpawnSync ids) k /\
     syncing s1 = true /\
     forall resp s' now', exists s'', k resp s' now' = Return s'' tt /\ syncing s'' = false).
Proof.
  unfold onFlushTimer, flush. task_unfold. cbn [resyncBatcher set_resyncBatcher inFlight].
  destruct (inFlight (resyncBatcher s)) eqn:Ef.
  - left. cbn. unfold syncing. cbn. unfold scheduleFlush. cbn. by rewrite Ef.
  - cbn [pending]. case_bool_decide as Hp.
    + left. cbn. unfold syncing. cbn. by rewrite Ef.
    + right. split; [done|]. cbn. eexists _, _, _. split; [reflexivity|].
      split; [done|]. intros resp s' now'. cbn. eexists. split; [reflexivity|].
      unfold syncing. cbn. case_bool_decide; [done|].
      unfold scheduleFlush. cbn. by destruct (timer (resyncBatcher s')).
Qed.

Lemma settle_oneSync_calm (l : eloop) c x :
  oneSync l ->
  (forall r k, parked l !! c = Some (r, k) -> ~ isSpawn r) ->
  calm syncing (fun r => ~ isSpawn r) (syncing (shared l)) x ->
  oneSync (settle l c x).1.
Proof.
  intros [Ha Hb] Hc Hx.
  assert (Hkeep : forall (m : gmap nat _) s,
    syncing s = syncing (shared l) ->
    (forall c' r' k', m !! c' = Some (r', k') ->
       c' <> c /\ parked l !! c' = Some (r', k') \/
       c' = c /\ ~ isSpawn r' /\
         forall resp s' now',
           calm syncing (fun r => ~ isSpawn r) (syncing s') (k' resp s' now')) ->
    (forall c' r' k', c' <> c -> parked l !! c' = Some (r', k') -> m !! c' = Some (r', k')) ->
    oneSync {| shared := s; parked := m; started := started l |}).
  { intros m s Hs Hm Hm'. split.
    - intros c' r' k' H. cbn in H |- *.
      destruct (Hm c' r' k' H) as [[Hne Hp]|(-> & Hr & Hk)]; [|by left].
      destruct (Ha c' r' k' Hp) as [?|(Hr & Hsync & Hk & Huniq)]; [by left|right].
      split; [done|]. split; [by rewrite Hs|]. split; [done|].
      intros c'' r'' k'' H'' Hr''.
      destruct (Hm c'' r'' k'' H'') as [[_ Hp'']|(_ & Hn & _)]; [by eapply Huniq|done].
    - cbn. rewrite Hs. intros Hsync. destruct (Hb Hsync) as (c0 & r0 & k0 & Hp0 & Hr0).
      exists c0, r0, k0. split; [|done]. apply Hm'; [|done].
      intros ->. by eapply Hc. }
  destruct x as [s a|s e|s r k]; cbn in Hx |- *.
  - apply Hkeep; [done| |].
    + intros c' r' k' H. apply lookup_delete_Some in H as [? ?]. left. by split.
    + intros c' r' k' Hne H. apply lookup_delete_Some. by split.
  - apply Hkeep; [done| |].
    + intros c' r' k' H. apply lookup_delete_Some in H as [? ?]. left. by split.
    + intros c' r' k' Hne H. apply lookup_delete_Some. by split.
  - destruct Hx as (Hs & Hr & Hk). apply Hkeep; [done| |].
    + intros c' r' k' H. apply lookup_insert_Some in H as [[<- ?]|[? H]].
      * simplify_eq. by right.
      * left. by split.
    + intros c' r' k' Hne H. by rewrite lookup_insert_ne.
Qed.

Lemma turn_oneSync cfg (l : eloop) e :
  oneSync l -> (forall c, is_Some (parked l !! c) -> (c < started l)%nat) ->
  oneSync (turn l (input_of cfg e)).1 /\
  forall c, is_Some (parked (turn l (input_of cfg e)).1 !! c) ->
    (c < started (turn l (input_of cfg e)).1)%nat.
Proof.
  intros Hl Hfresh. split.
  - destruct e as [kind tradeId assetId now|now|c resp now]; cbn [input_of turn].
    + apply (settle_oneSync_calm
               {| shared := shared l; parked := parked l; started := S (started l) |}).
      * done.
      * intros r k H. cbn in H. specialize (Hfresh (started l) (mk_is_Some _ _ H)). lia.
      * apply calm_syncing_executeOnchain.
    + destruct (onFlushTimer_cases (shared l) now)
        as [Hcalm|(Hidle & ids & s1 & k & Heq & Hs1 & Hk)].
      * apply (settle_oneSync_calm
                 {| shared := shared l; parked := parked l; started := S (started l) |}).
        -- done.
        -- intros r k H. cbn in H. specialize (Hfresh (started l) (mk_is_Some _ _ H)). lia.
        -- done.
      * rewrite Heq. cbn. destruct Hl as [Ha Hb].
        assert (Hnone : forall c r k0, parked l !! c = Some (r, k0) -> ~ isSpawn r).
        { intros c r k0 H Hr. destruct (Ha c r k0 H) as [[? _]|(_ & Hsync & _)]; [done|].
          congruence. }
        split.
        -- intros c r k0 H. cbn in H |- *.
           apply lookup_insert_Some in H as [[<- ?]|[Hne H]].
           ++ simplify_eq. right. split; [done|]. split; [done|]. split; [done|].
              intros c' r' k' H' Hr'.
              apply lookup_insert_Some in H' as [[<- ?]|[_ H']]; [done|].
              by destruct (Hnone c' r' k' H').
           ++ destruct (Ha c r k0 H) as [?|(Hr & _)]; [by left|].
              by destruct (Hnone c r k0 H).
        -- intros _. cbn. eexists (started l), _, _.
           split; [apply lookup_insert_eq|done].
    + destruct (parked l !! c) as [[r k]|] eqn:E; [|done].
      destruct Hl as [Ha Hb]. destruct (Ha c r k E) as [[Hr Hk]|(Hr & Hsync & Hk & Huniq)].
      * apply settle_oneSync_calm; [by split| |apply Hk].
        intros r' k' H. by simplify_eq.
      * destruct (Hk resp (shared l) now) as (s'' & -> & Hs''). cbn. split.
        -- intros c' r' k' H. cbn in H. apply lookup_delete_Some in H as [Hne H].
           destruct (Ha c' r' k' H) as [?|(Hr' & _)]; [by left|].
           destruct Hne. symmetry. by eapply Huniq.
        -- cbn. congruence.
  - intros c Hc. destruct e as [kind tradeId assetId now|now|c' resp now];
      cbn [input_of turn] in *.
    + rewrite settle_started. cbn.
      destruct ((executeOnchain cfg kind tradeId assetId : etask unit) (shared l) now);
        cbn in Hc.
      * destruct Hc as [x Hx]. apply lookup_delete_Some in Hx as [_ Hx].
        specialize (Hfresh c (mk_is_Some _ _ Hx)). lia.
      * destruct Hc as [x Hx]. apply lookup_delete_Some in Hx as [_ Hx].
        specialize (Hfresh c (mk_is_Some _ _ Hx)). lia.
      * destruct Hc as [x Hx]. apply lookup_insert_Some in Hx as [[<- _]|[_ Hx]]; [lia|].
        specialize (Hfresh c (mk_is_Some _ _ Hx)). lia.
    + rewrite settle_started. cbn.
      destruct ((onFlushTimer : etask unit) (shared l) now); cbn in Hc.
      * destruct Hc as [x Hx]. apply lookup_delete_Some in Hx as [_ Hx].
        specialize (Hfresh c (mk_is_Some _ _ Hx)). lia.
      * destruct Hc as [x Hx]. apply lookup_delete_Some in Hx as [_ Hx].
        specialize (Hfresh c (mk_is_Some _ _ Hx)). lia.
      * destruct Hc as [x Hx]. apply lookup_insert_Some in Hx as [[<- _]|[_ Hx]]; [lia|].
        specialize (Hfresh c (mk_is_Some _ _ Hx)). lia.
    + destruct (parked l !! c') as [[r k]|] eqn:E; [|by apply Hfresh].
      rewrite settle_started.
      destruct (k resp (shared l) now); cbn in Hc.
      * destruct Hc as [x Hx]. apply lookup_delete_Some in Hx as [_ Hx].
        by apply Hfresh.
      * destruct Hc as [x Hx]. apply lookup_delete_Some in Hx as [_ Hx].
        by apply Hfresh.
      * destruct Hc as [x Hx]. apply lookup_insert_Some in Hx as [[<- _]|[_ Hx]].
        -- apply Hfresh. by rewrite E.
        -- by apply Hfresh.
Qed.

Lemma run_oneSync cfg (l : eloop) events :
  oneSync l -> (forall c, is_Some (parked l !! c) -> (c < started l)%nat) ->
  oneSync (run cfg l events).1.
Proof.
  revert l. induction events as [|e rest IH]; intros l Hl Hfresh; [done|].
  unfold run. cbn [fmap list_fmap turns].
  destruct (turn_oneSync cfg l e Hl Hfresh) as [Hl' Hfresh'].
  destruct (turn l (input_of cfg e)) as [l' out]. cbn in Hl', Hfresh'.
  specialize (IH l' Hl' Hfresh'). unfold run in IH.
  by destruct (turns l' (input_of cfg <$> rest)).
Qed.

(** X12. The resync batcher runs one sync at a time: in every state the
    executor reaches, at most one call is parked on a spawned sync, and
    [inFlight] is set exactly while one is. *)
Theorem one_sync_in_flight (cfg : config) (events : list (@event Wallet)) :
  let l := (run cfg (start initial) events).1 in
  (forall c1 c2 ids1 ids2 k1 k2,
     parked l !! c1 = Some (SpawnSync ids1, k1) ->
     parked l !! c2 = Some (SpawnSync ids2, k2) -> c1 = c2) /\
  (inFlight (resyncBatcher (shared l)) = true <->
   exists c ids k, parked l !! c = Some (SpawnSync ids, k)).
Proof.
  intros l.
  assert (Hl : oneSync l).
  { apply run_oneSync.
    - split; [|done]. intros c r k H. cbn in H. by rewrite lookup_empty in H.
    - intros c [x H]. cbn in H. by rewrite lookup_empty in H. }
  destruct Hl as [Ha Hb]. split.
  - intros c1 c2 ids1 ids2 k1 k2 H1 H2.
    destruct (Ha c1 _ _ H1) as [[Hn _]|(_ & _ & _ & Huniq)]; [by destruct Hn|].
    symmetry. by eapply Huniq.
  - split.
    + intros Hsync. destruct (Hb Hsync) as (c & r & k & Hp & Hr).
      destruct r; try done. eauto.
    + intros (c & ids & k & Hp).
      destruct (Ha c _ _ Hp) as [[Hn _]|(_ & Hsync & _)]; [by destruct Hn|done].
Qed.

(** *** The locked cache *)

Lemma guarded_cachedLock_executeOnchain id cfg kind tradeId assetId (s : state) now :
  guarded (cachedLock id) (fun r => ~ readsTrade id r)
    ((executeOnchain cfg kind tradeId assetId : etask unit) s now) /\
  (is_Some (cachedLock id s) ->
   calm (cachedLock id) (fun r => ~ readsTrade id r) (cachedLock id s)
     ((executeOnchain cfg kind tradeId assetId : etask unit) s now)).
Proof.
  destruct (guarded_executeOnchain (cachedLock id) (fun r => ~ readsTrade id r))
    with (cfg := cfg) (kind := kind) (tradeId := tradeId) (assetId := assetId)
         (s := s) (now := now) as [Hg Hc]; try done.
  - intros tid locked s' Hok. unfold cachedLock. cbn.
    apply lookup_insert_ne. intros ->. by apply Hok.
  - intros r. destruct r; cbn; try done; unfold readsTrade; discriminate.
  - split; [done|]. intros Hhit. apply Hc.
    destruct (decide (tradeId = id)) as [->|Hne]; [by right|left].
    unfold readsTrade. congruence.
Qed.

Lemma calm_cachedLock_onFlushTimer id (s : state) now :
  calm (cachedLock id) (fun r => ~ readsTrade id r) (cachedLock id s)
    ((onFlushTimer : etask unit) s now).
Proof.
  unfold onFlushTimer, flush. task_unfold. cbn [resyncBatcher set_resyncBatcher inFlight].
  destruct (inFlight (resyncBatcher s)); [done|].
  cbn [pending]. case_bool_decide; [done|]. cbn. split; [done|].
  split; [unfold readsTrade; discriminate|]. done.
Qed.

Lemma turn_guarded id cfg (l : eloop) e :
  (forall c r k, parked l !! c = Some (r, k) ->
     forall resp s' now',
       guarded (cachedLock id) (fun r => ~ readsTrade id r) (k resp s' now') /\
       (~ readsTrade id r ->
        calm (cachedLock id) (fun r => ~ readsTrade id r) (cachedLock id s') (k resp s' now'))) ->
  forall c r k, parked (turn l (input_of cfg e)).1 !! c = Some (r, k) ->
    forall resp s' now',
      guarded (cachedLock id) (fun r => ~ readsTrade id r) (k resp s' now') /\
      (~ readsTrade id r ->
       calm (cachedLock id) (fun r => ~ readsTrade id r) (cachedLock id s') (k resp s' now')).
Proof.
  intros HK.
  assert (Hsettle : forall (l0 : eloop) c0 (x : estep unit),
    parked l0 = parked l ->
    guarded (cachedLock id) (fun r => ~ readsTrade id r) x ->
    forall c r k, parked (settle l0 c0 x).1 !! c = Some (r, k) ->
      forall resp s' now',
        guarded (cachedLock id) (fun r => ~ readsTrade id r) (k resp s' now') /\
        (~ readsTrade id r ->
         calm (cachedLock id) (fun r => ~ readsTrade id r) (cachedLock id s')
           (k resp s' now'))).
  { intros l0 c0 x Hp Hx c r k H. destruct x as [s a|s e0|s r0 k0]; cbn in H.
    - rewrite Hp in H. apply lookup_delete_Some in H as [_ H]. by eapply HK.
    - rewrite Hp in H. apply lookup_delete_Some in H as [_ H]. by eapply HK.
    - rewrite Hp in H. apply lookup_insert_Some in H as [[_ ?]|[_ H]]; [|by eapply HK].
      simplify_eq. apply Hx. }
  destruct e as [kind tradeId assetId now|now|c0 resp0 now]; cbn [input_of turn].
  - apply Hsettle; [done|]. apply guarded_cachedLock_executeOnchain.
  - apply Hsettle; [done|]. eapply calm_guarded, calm_cachedLock_onFlushTimer.
  - destruct (parked l !! c0) as [[r0 k0]|] eqn:E; [|done].
    apply Hsettle; [done|]. by eapply HK.
Qed.

Lemma turn_cachedLock id v cfg (l : eloop) e :
  (forall c r k, parked l !! c = Some (r, k) ->
     forall resp s' now',
       ~ readsTrade id r ->
       calm (cachedLock id) (fun r => ~ readsTrade id r) (cachedLock id s') (k resp s' now')) ->
  cachedLock id (shared l) = Some v ->
  (forall c r k, parked l !! c = Some (r, k) -> ~ readsTrade id r) ->
  cachedLock id (shared (turn l (input_of cfg e)).1) = Some v /\
  (forall c r k, parked (turn l (input_of cfg e)).1 !! c = Some (r, k) -> ~ readsTrade id r) /\
  forall c, (c, HttpGetTrade id) ∉ (turn l (input_of cfg e)).2.
Proof.
  intros HK Hv Hp.
  assert (Hsettle : forall (l0 : eloop) c0 (x : estep unit),
    parked l0 = parked l ->
    calm (cachedLock id) (fun r => ~ readsTrade id r) (Some v) x ->
    cachedLock id (shared (settle l0 c0 x).1) = Some v /\
    (forall c r k, parked (settle l0 c0 x).1 !! c = Some (r, k) -> ~ readsTrade id r) /\
    forall c, (c, HttpGetTrade id) ∉ (settle l0 c0 x).2).
  { intros l0 c0 x Hpl Hx. destruct x as [s a|s e0|s r0 k0]; cbn in *.
    - split; [done|]. split; [|intros c; apply not_elem_of_nil].
      intros c r k H. rewrite Hpl in H. apply lookup_delete_Some in H as [_ H].
      by eapply Hp.
    - split; [done|]. split; [|intros c; apply not_elem_of_nil].
      intros c r k H. rewrite Hpl in H. apply lookup_delete_Some in H as [_ H].
      by eapply Hp.
    - destruct Hx as (Hs & Hr & _). split; [done|]. split.
      + intros c r k H. rewrite Hpl in H.
        apply lookup_insert_Some in H as [[_ ?]|[_ H]]; [by simplify_eq|by eapply Hp].
      + intros c Hin. apply list_elem_of_singleton in Hin. simplify_eq. by apply Hr. }
  destruct e as [kind tradeId assetId now|now|c0 resp0 now]; cbn [input_of turn].
  - apply Hsettle; [done|]. rewrite <- Hv.
    apply guarded_cachedLock_executeOnchain. by rewrite Hv.
  - apply Hsettle; [done|]. rewrite <- Hv. apply calm_cachedLock_onFlushTimer.
  - destruct (parked l !! c0) as [[r0 k0]|] eqn:E.
    + apply Hsettle; [done|]. rewrite <- Hv. eapply HK; [done|]. by eapply Hp.
    + split; [done|]. split; [done|]. intros c. apply not_elem_of_nil.
Qed.

(** X13. A cached locked amount is never refreshed. Once the cache holds
    an amount for a trade and no call is parked on the read of that trade
    from the index, the executor keeps that amount in every later state and
    never reads the trade from the index again; when the amount is zero or
    below, every later entry attempt for the trade returns at once, without
    a wallet, a proof or a ledger call. *)
Theorem cached_lock_is_never_refreshed (cfg : config) (id v : Z)
    (pre post : list (@event Wallet)) :
  let l1 := (run cfg (start initial) pre).1 in
  lockedCache (shared l1) !! id = Some v ->
  (forall c r k, parked l1 !! c = Some (r, k) -> r <> HttpGetTrade id) ->
  let l2 := (run cfg l1 post).1 in
  lockedCache (shared l2) !! id = Some v /\
  (forall c, (c, HttpGetTrade id) ∉ (run cfg l1 post).2) /\
  (v <= 0 -> forall assetId now, exists s',
     (executeOnchain cfg "entry" id assetId : etask unit) (shared l2) now = Return s' tt).
Proof.
  intros l1 Hv Hp l2.
  assert (HK : forall events (l : eloop),
    (forall c r k, parked l !! c = Some (r, k) ->
       forall resp s' now',
         guarded (cachedLock id) (fun r => ~ readsTrade id r) (k resp s' now') /\
         (~ readsTrade id r ->
          calm (cachedLock id) (fun r => ~ readsTrade id r) (cachedLock id s')
            (k resp s' now'))) ->
    forall c r k, parked (run cfg l events).1 !! c = Some (r, k) ->
      forall resp s' now',
        guarded (cachedLock id) (fun r => ~ readsTrade id r) (k resp s' now') /\
        (~ readsTrade id r ->
         calm (cachedLock id) (fun r => ~ readsTrade id r) (cachedLock id s')
           (k resp s' now'))).
  { induction events as [|e rest IH]; intros l Hl; [done|].
    unfold run. cbn [fmap list_fmap turns].
    pose proof (turn_guarded id cfg l e Hl) as Hl'.
    destruct (turn l (input_of cfg e)) as [l' out]. cbn in Hl'.
    specialize (IH l' Hl'). unfold run in IH.
    by destruct (turns l' (input_of cfg <$> rest)). }
  assert (HK1 : forall c r k, parked l1 !! c = Some (r, k) ->
    forall resp s' now',
      guarded (cachedLock id) (fun r => ~ readsTrade id r) (k resp s' now') /\
      (~ readsTrade id r ->
       calm (cachedLock id) (fun r => ~ readsTrade id r) (cachedLock id s')
         (k resp s' now'))).
  { apply HK. intros c r k H. cbn in H. by rewrite lookup_empty in H. }
  assert (HJ : forall events (l : eloop),
    (forall c r k, parked l !! c = Some (r, k) ->
       forall resp s' now',
         guarded (cachedLock id) (fun r => ~ readsTrade id r) (k resp s' now') /\
         (~ readsTrade id r ->
          calm (cachedLock id) (fun r => ~ readsTrade id r) (cachedLock id s')
            (k resp s' now'))) ->
    cachedLock id (shared l) = Some v ->
    (forall c r k, parked l !! c = Some (r, k) -> ~ readsTrade id r) ->
    cachedLock id (shared (run cfg l events).1) = Some v /\
    forall c, (c, HttpGetTrade id) ∉ (run cfg l events).2).
  { induction events as [|e rest IH]; intros l Hl Hlv Hlp.
    - split; [done|]. intros c. apply not_elem_of_nil.
    - unfold run. cbn [fmap list_fmap turns].
      pose proof (turn_guarded id cfg l e Hl) as Hl'.
      assert (Hcalm : forall c r k, parked l !! c = Some (r, k) ->
        forall resp s' now', ~ readsTrade id r ->
          calm (cachedLock id) (fun r => ~ readsTrade id r) (cachedLock id s')
            (k resp s' now')).
      { intros c r k H resp s' now'. apply (Hl c r k H resp s' now'). }
      destruct (turn_cachedLock id v cfg l e Hcalm Hlv Hlp) as (Hv' & Hp' & Hout).
      destruct (turn l (input_of cfg e)) as [l' out]. cbn in Hl', Hv', Hp', Hout.
      destruct (IH l' Hl' Hv' Hp') as [IHv IHout]. unfold run in IHv, IHout.
      destruct (turns l' (input_of cfg <$> rest)) as [l'' out']. cbn in *.
      split; [done|]. intros c. rewrite elem_of_app. intros [?|?]; [by eapply Hout|].
      by eapply IHout. }
  destruct (HJ post l1 HK1 Hv) as [Hv2 Hout].
  { intros c r k H. unfold readsTrade. by eapply Hp. }
  split; [done|]. split; [done|].
  intros Hz assetId now. unfold executeOnchain. task_unfold.
  destruct (now - lastSent (shared l2) (dedupKey "entry" id) <? DEDUP_MS cfg); [by eexists|].
  cbn [bind_step]. unfold admitAndSubmit. cbn [String.eqb Ascii.eqb Bool.eqb].
  unfold getTradeLockedE6. task_unfold. cbn [lockedCache set_recentlySent].
  unfold cachedLock in Hv2. fold l2 in Hv2. rewrite Hv2. cbn [bind_step].
  apply Z.leb_le in Hz. rewrite Hz. cbn. by eexists.
Qed.

End ExecMoreFacts.

(** Trade 7 is read from the index with no locked capital and skipped; a
    new entry attempt 16 s later, past the dedup window, is skipped at
    once on the cached zero. *)
Lemma cached_lock_is_never_refreshed_witness :
  let l1 :=
    (@Executor.run JS.sampleBuiltins string Executor.defaultConfig
       (Async.start Executor.initial)
       [Executor.Start "entry" 7 5000 1700000000000;
        Executor.Settle 0 (Executor.TradeJson (JS.JStr "0")) 1700000000100]).1 in
  let l2 :=
    (@Executor.run JS.sampleBuiltins string Executor.defaultConfig l1
       [Executor.FlushTimer 1700000001100]).1 in
  Executor.lockedCache (Async.shared l2) !! 7 = Some 0 /\
  exists s',
    @Executor.executeOnchain JS.sampleBuiltins string Executor.defaultConfig
      "entry" 7 5000 (Async.shared l2) 1700000016000
    = Async.Return s' tt.
Proof.
  intros l1 l2.
  assert (Hv : Executor.lockedCache (Async.shared l1) !! 7 = Some 0)
    by (vm_compute; reflexivity).
  assert (Hp : Async.parked l1 = ∅) by (vm_compute; reflexivity).
  destruct (@cached_lock_is_never_refreshed JS.sampleBuiltins string
              Executor.defaultConfig 7 0 _ [Executor.FlushTimer 1700000001100] Hv)
    as (Hv2 & _ & Hskip).
  { intros c r k H. fold l1 in H. rewrite Hp, lookup_empty in H. discriminate H. }
  split; [exact Hv2|]. apply Hskip. lia.
Defined.

(** ** The listener: one resync per trade and ten seconds *)

Section ListenerFacts.
Import Listener.

Lemma onTradeEvent_enqueues s h id now :
  tracks s h ->
  (onTradeEvent id now s).2 = true <->
  DEDUP_MS <= now /\ forall t, (id, t) ∈ h -> t + DEDUP_MS <= now.
Proof.
  intros [H1 H2]. unfold onTradeEvent, DEDUP_MS in *.
  destruct (recently s !! id) as [t'|] eqn:E; cbn [default from_option Datatypes.id].
  - destruct (H1 id t' E) as [Hin Ht'].
    destruct (Z.ltb_spec (now - t') 10000); cbn [snd]; split.
    + done.
    + intros [_ Hall]. specialize (Hall t' Hin). lia.
    + intros _. split; [lia|]. intros t Ht.
      destruct (H2 id t Ht) as (t'' & Et & Hle). simplify_eq. lia.
    + done.
  - destruct (Z.ltb_spec (now - 0) 10000); cbn [snd]; split.
    + done.
    + intros [? _]. lia.
    + intros _. split; [lia|]. intros t Ht.
      destruct (H2 id t Ht) as (t'' & Et & _). simplify_eq.
    + done.
Qed.

Lemma onTradeEvent_tracks s h id now :
  tracks s h ->
  tracks (onTradeEvent id now s).1
         (if (onTradeEvent id now s).2 then h ++ [(id, now)] else h).
Proof.
  intros Htr. pose proof (onTradeEvent_enqueues s h id now Htr) as Henq.
  destruct Htr as [H1 H2]. unfold onTradeEvent in *.
  destruct (now - default 0 (recently s !! id) <? DEDUP_MS); cbn [fst snd] in *; [done|].
  destruct (proj1 Henq eq_refl) as [Hnow Hall]. split; cbn [recently].
  - intros id' t H. apply lookup_insert_Some in H as [[<- <-]|[Hne H]].
    + split; [|done]. apply elem_of_app. right. by left.
    + destruct (H1 id' t H) as [Hin Ht]. split; [|done]. apply elem_of_app. by left.
  - intros id' t H. apply elem_of_app in H as [H|H].
    + destruct (decide (id' = id)) as [->|Hne].
      * exists now. rewrite lookup_insert_eq. split; [done|].
        specialize (Hall t H). unfold DEDUP_MS in *. lia.
      * rewrite lookup_insert_ne by done. by apply H2.
    + apply list_elem_of_singleton in H as [= -> ->].
      exists now. by rewrite lookup_insert_eq.
Qed.

Lemma listen_app s l1 l2 :
  listen s (l1 ++ l2)
  = (let '(s1, log1) := listen s l1 in
     let '(s2, log2) := listen s1 l2 in (s2, log1 ++ log2)).
Proof.
  revert s. induction l1 as [|[id now] l1 IH]; intros s; cbn [listen app].
  - by destruct (listen s l2).
  - destruct (onTradeEvent id now s) as [s' enq]. rewrite IH.
    destruct (listen s' l1) as [s1 log1], (listen s1 l2) as [s2 log2].
    by destruct enq.
Qed.

Lemma listen_tracks events s h :
  tracks s h ->
  tracks (listen s events).1 (h ++ (listen s events).2) /\
  (forall id t t2, (id, t) ∈ h -> (id, t2) ∈ (listen s events).2 -> t + DEDUP_MS <= t2) /\
  (forall i j id t1 t2, (i < j)%nat ->
     (listen s events).2 !! i = Some (id, t1) ->
     (listen s events).2 !! j = Some (id, t2) -> t1 + DEDUP_MS <= t2).
Proof.
  revert s h. induction events as [|[id now] later IH]; intros s h Htr; cbn [listen].
  - cbn. rewrite app_nil_r. split; [done|]. split; [|done].
    intros ??? _ H. by apply elem_of_nil in H.
  - pose proof (onTradeEvent_tracks s h id now Htr) as Htr'.
    pose proof (onTradeEvent_enqueues s h id now Htr) as Henq.
    destruct (onTradeEvent id now s) as [s' enq]. cbn [fst snd] in Htr', Henq.
    specialize (IH s' _ Htr'). destruct (listen s' later) as [s'' log].
    cbn [fst snd] in IH |- *. destruct IH as (IH1 & IH2 & IH3).
    destruct enq.
    + destruct (proj1 Henq eq_refl) as [Hnow Hall].
      rewrite <- app_assoc in IH1. split; [exact IH1|]. split.
      * intros id' t t2 Hin H2. apply elem_of_cons in H2 as [[= -> ->]|H2].
        -- by apply Hall.
        -- apply (IH2 id' t t2); [|done]. apply elem_of_app. by left.
      * intros i j id' t1 t2 Hij Hi Hj. destruct j as [|j]; [lia|].
        cbn in Hj. destruct i as [|i].
        -- cbn in Hi. injection Hi as -> ->.
           apply (IH2 id' t1 t2); [|by eapply list_elem_of_lookup_2].
           apply elem_of_app. right. by left.
        -- cbn in Hi. apply (IH3 i j id' t1 t2); [lia|done|done].
    + done.
Qed.

Lemma enqueue_pending_iff id b id' :
  id' ∈ Executor.pending (Executor.enqueue id b)
  <-> id' ∈ Executor.pending b \/ (id' = id /\ 0 < id).
Proof.
  unfold Executor.enqueue. destruct (Z.leb_spec id 0).
  - split; [by left|]. intros [?|[_ ?]]; [done|lia].
  - assert (Hp : forall l, id' ∈ Executor.setAdd id l <-> id' ∈ l \/ id' = id).
    { intros l. unfold Executor.setAdd. case_bool_decide.
      - split; [by left|]. by intros [?| ->].
      - rewrite elem_of_app, list_elem_of_singleton. done. }
    unfold Executor.scheduleFlush. cbn. destruct (Executor.timer b); cbn; rewrite Hp;
      intuition lia.
Qed.

Lemma listen_pending events s id :
  id ∈ Executor.pending (resyncBatcher (listen s events).1)
  <-> id ∈ Executor.pending (resyncBatcher s) \/
      (0 < id /\ id ∈ (listen s events).2.*1).
Proof.
  revert s. induction events as [|[id0 now] later IH]; intros s; cbn [listen].
  - cbn. split; [by left|]. intros [?|[_ H]]; [done|]. by apply elem_of_nil in H.
  - unfold onTradeEvent.
    destruct (now - default 0 (recently s !! id0) <? DEDUP_MS).
    + specialize (IH s). by destruct (listen s later).
    + match goal with |- context [listen ?s' later] => specialize (IH s') end.
      destruct (listen _ later) as [s'' log]. cbn [fst snd] in IH |- *.
      rewrite IH. cbn [resyncBatcher]. rewrite enqueue_pending_iff, fmap_cons, elem_of_cons.
      cbn [fst]. clear. intuition congruence.
Qed.

Lemma tracks_initial : tracks initial [].
Proof.
  split.
  - intros id t H. cbn in H. by rewrite lookup_empty in H.
  - intros id t H. by apply elem_of_nil in H.
Qed.

(** X20. The listener enqueues a trade for resync at most once in ten
    seconds: two enqueued events of one trade are at least 10 000 ms apart;
    an event is enqueued exactly when its clock reads at least 10 000 and
    no event of the same trade was enqueued in the 10 000 ms before it; and
    until a flush the batcher holds the enqueued trade ids that are
    positive, a trade id of 0 being recorded as recent and dropped. *)
Theorem listener_enqueues_once_in_ten_seconds (events : list (Z * Z)) :
  let s := (listen initial events).1 in
  let log := (listen initial events).2 in
  (forall i j id t1 t2, (i < j)%nat ->
     log !! i = Some (id, t1) -> log !! j = Some (id, t2) -> t1 + 10000 <= t2) /\
  (forall k id now, events !! k = Some (id, now) ->
     let before := listen initial (take k events) in
     (onTradeEvent id now before.1).2 = true <->
     10000 <= now /\ forall t, (id, t) ∈ before.2 -> t + 10000 <= now) /\
  (forall id, id ∈ Executor.pending (resyncBatcher s) <-> 0 < id /\ id ∈ log.*1).
Proof.
  intros s log. split; [|split].
  - by destruct (listen_tracks events initial [] tracks_initial) as (_ & _ & H).
  - intros k id now _ before.
    destruct (listen_tracks (take k events) initial [] tracks_initial) as (H & _).
    apply (onTradeEvent_enqueues _ _ id now H).
  - intros id. subst s log. rewrite listen_pending. cbn.
    split; [intros [H|H]; [by apply elem_of_nil in H|done]|by right].
Qed.

End ListenerFacts.

(** ** From the ledger to the table: what [syncFull] posts is what the
    write server stores *)

Section PostFacts.
Import JS.
Context `{B : Builtins}.

Lemma lowerChar_idem c : lowerChar (lowerChar c) = lowerChar c.
Proof. by destruct c as [[] [] [] [] [] [] [] []]. Qed.

Lemma toLowerCase_idem s : toLowerCase (toLowerCase s) = toLowerCase s.
Proof.
  induction s as [|c r IH]; [done|]. cbn [toLowerCase]. by rewrite lowerChar_idem, IH.
Qed.

Lemma payloadJson_props (p : Z * Db.row) :
  let o := SyncPost.payloadJson p in
  prop o "id" = SyncPost.numJson p.1 /\
  prop o "trader" = JStr (Db.trader p.2) /\
  prop o "assetId" = SyncPost.numJson (Db.assetId p.2) /\
  prop o "isLong" = SyncPost.numJson (Db.isLong p.2) /\
  prop o "isLimit" = SyncPost.numJson (Db.isLimit p.2) /\
  prop o "leverage" = SyncPost.optNumJson (Db.leverage p.2) /\
  prop o "openPrice" = SyncPost.optNumJson (Db.openPrice p.2) /\
  prop o "state" = SyncPost.optNumJson (Db.state p.2) /\
  prop o "openTimestamp" = SyncPost.optNumJson (Db.openTimestamp p.2) /\
  prop o "fundingIndex" = SyncPost.optStrJson (Db.fundingIndex p.2) /\
  prop o "closePrice" = SyncPost.optNumJson (Db.closePrice p.2) /\
  prop o "lotSize" = SyncPost.optNumJson (Db.lotSize p.2) /\
  prop o "closedLotSize" = SyncPost.numJson (Db.closedLotSize p.2) /\
  prop o "stopLoss" = SyncPost.numJson (Db.stopLoss p.2) /\
  prop o "takeProfit" = SyncPost.numJson (Db.takeProfit p.2) /\
  prop o "lpLockedCapital" = SyncPost.optStrJson (Db.lpLockedCapital p.2) /\
  prop o "marginUsdc" = SyncPost.optStrJson (Db.marginUsdc p.2).
Proof.
  unfold SyncPost.payloadJson.
  generalize (SyncPost.numJson p.1) (JStr (Db.trader p.2))
    (SyncPost.numJson (Db.assetId p.2)) (SyncPost.numJson (Db.isLong p.2))
    (SyncPost.numJson (Db.isLimit p.2)) (SyncPost.optNumJson (Db.leverage p.2))
    (SyncPost.optNumJson (Db.openPrice p.2)) (SyncPost.optNumJson (Db.state p.2))
    (SyncPost.optNumJson (Db.openTimestamp p.2))
    (SyncPost.optStrJson (Db.fundingIndex p.2))
    (SyncPost.optNumJson (Db.closePrice p.2)) (SyncPost.optNumJson (Db.lotSize p.2))
    (SyncPost.numJson (Db.closedLotSize p.2)) (SyncPost.numJson (Db.stopLoss p.2))
    (SyncPost.numJson (Db.takeProfit p.2))
    (SyncPost.optStrJson (Db.lpLockedCapital p.2))
    (SyncPost.optStrJson (Db.marginUsdc p.2)).
  intros. cbv zeta. repeat split; vm_compute; reflexivity.
Qed.

Lemma toInt_numJson (z : Z) (name : string) :
  WriteRoutes.toInt (SyncPost.numJson z) name = Normal z.
Proof.
  unfold WriteRoutes.toInt, SyncPost.numJson. cbn [isNullish Number isFinite negb].
  by rewrite trunc_integer.
Qed.

Lemma mapM_cons {A C} (f : A -> completion C) x l :
  mapM f (x :: l) = (y ← f x; k ← mapM f l; mret (y :: k)).
Proof. reflexivity. Qed.

Lemma payloadsOf_Normal ids trades payloads :
  Sync.payloadsOf ids trades = Normal payloads ->
  Forall2 (fun id p => exists t, p = Sync.tradeToPayload id t) ids payloads.
Proof.
  revert trades payloads. induction ids as [|id ids IH]; intros trades payloads; cbn.
  - intros [= <-]. constructor.
  - destruct trades as [|t trades]; [done|].
    destruct (Sync.payloadsOf ids trades) as [ps|e] eqn:E; cbn; [|done].
    intros [= <-]. constructor; [by exists t|]. by eapply IH.
Qed.

Lemma upsertPayload_tradeToPayload (id : Z) (t : Sync.ledgerTrade) :
  noWhiteSpace (Sync.t_trader t) = true ->
  WriteRoutes.invalidTrader (toLowerCase (Sync.t_trader t)) = false ->
  BatchRoutes.upsertPayload (Some (SyncPost.payloadJson (Sync.tradeToPayload id t)))
  = Normal (Fin (inject_Z id), (Sync.tradeToPayload id t).2).
Proof.
  intros Hws Hvalid. unfold BatchRoutes.upsertPayload.
  cbn [BatchRoutes.props mbind completion_bind].
  destruct (payloadJson_props (Sync.tradeToPayload id t))
    as (-> & -> & -> & -> & -> & -> & -> & -> & -> & -> & -> & -> & -> & -> & -> & -> & ->).
  cbn [Sync.tradeToPayload fst snd Db.trader Db.assetId Db.isLong Db.isLimit Db.leverage
       Db.openPrice Db.state Db.openTimestamp Db.fundingIndex Db.closePrice Db.lotSize
       Db.closedLotSize Db.stopLoss Db.takeProfit Db.lpLockedCapital Db.marginUsdc
       SyncPost.optNumJson SyncPost.optStrJson from_option].
  change (Number (SyncPost.numJson id)) with (Fin (inject_Z id)).
  cbn [isFinite negb WriteRoutes.normalizeAddress].
  assert (Htrader : toLowerCase (trim (toLowerCase (Sync.t_trader t)))
                    = toLowerCase (Sync.t_trader t)).
  { rewrite trim_noWhiteSpace; [apply toLowerCase_idem|].
    clear Hvalid. induction (Sync.t_trader t) as [|c r IH]; [done|].
    cbn [noWhiteSpace toLowerCase] in Hws |- *.
    apply andb_true_iff in Hws as [Hc Hr]. rewrite IH by done.
    rewrite andb_true_r. revert Hc. by destruct c as [[] [] [] [] [] [] [] []]. }
  rewrite Htrader, Hvalid.
  unfold WriteRoutes.optInt, WriteRoutes.intOr0, WriteRoutes.optString.
  cbn [SyncPost.numJson isNullish]. fold (SyncPost.numJson).
  rewrite !toInt_numJson. cbn [mbind completion_bind fmap completion_fmap ToString].
  by destruct (Sync.t_isLong t), (Sync.t_isLimit t).
Qed.

Lemma batchUpsert_accepts (tbl tbl' : Db.table) items payloads :
  items <> [] -> (length items <= 2000)%nat ->
  mapM BatchRoutes.upsertPayload items = Normal payloads ->
  BatchRoutes.runBatch payloads tbl = Normal tbl' ->
  BatchRoutes.batchUpsert tbl (Some items)
  = (tbl', BatchRoutes.Upserted (Z.of_nat (length payloads))).
Proof.
  intros Hne Hlen Hmap Hrun. unfold BatchRoutes.batchUpsert.
  destruct items as [|it its]; [done|].
  destruct (Z.ltb_spec 2000 (Z.of_nat (length (it :: its)))); [lia|].
  by rewrite Hmap, Hrun.
Qed.

(** X19. What [syncFull] posts is what the write server stores: when the
    ids are integers that the primary key takes (strictly between the
    smallest and the largest integer of 64 bits), at most 2000, and the
    traders the ledger returned are addresses (0x and at least eight more
    characters, no white space), the handler of POST /trades/batchUpsert
    answers with the number of ids and leaves each payload of
    [tradeToPayload] in the table, unchanged, under its id. *)
Theorem sync_payloads_stored_verbatim (tbl : Db.table) (ids : list Z)
    (trades : list Sync.ledgerTrade) (payloads : list (Z * Db.row)) :
  ids <> [] -> (length ids <= 2000)%nat ->
  Forall (fun id => - 2 ^ 63 < id < 2 ^ 63 - 1) ids ->
  Forall (fun t => noWhiteSpace (Sync.t_trader t) = true /\
                   WriteRoutes.invalidTrader (toLowerCase (Sync.t_trader t)) = false)
         trades ->
  Sync.payloadsOf ids trades = Normal payloads ->
  BatchRoutes.batchUpsert tbl (SyncPost.batchUpsertItems payloads)
  = (foldl (fun t p => <[p.1 := p.2]> t) tbl payloads,
     BatchRoutes.Upserted (Z.of_nat (length ids))).
Proof.
  intros Hne Hlen Hids Htrades Hps.
  assert (Hmap : mapM BatchRoutes.upsertPayload
                   ((fun p => Some (SyncPost.payloadJson p)) <$> payloads)
                 = Normal ((fun p => (Fin (inject_Z p.1), p.2)) <$> payloads)).
  { clear Hne Hlen Hids. revert trades payloads Htrades Hps.
    induction ids as [|id ids IH]; intros trades payloads Htrades; cbn [Sync.payloadsOf].
    - by intros [= <-].
    - destruct trades as [|t trades]; [done|].
      apply Forall_cons in Htrades as [[Hws Hvalid] Htrades].
      destruct (Sync.payloadsOf ids trades) as [ps|e] eqn:E; [|done].
      intros [= <-]. rewrite !fmap_cons, mapM_cons. cbv beta.
      rewrite upsertPayload_tradeToPayload by done.
      cbn [mbind completion_bind].
      by rewrite (IH trades ps Htrades E). }
  assert (Hl : length payloads = length ids).
  { symmetry. eapply Forall2_length, payloadsOf_Normal, Hps. }
  assert (Hrun : forall t, BatchRoutes.runBatch
                   ((fun p => (Fin (inject_Z p.1), p.2)) <$> payloads) t
                 = Normal (foldl (fun t p => <[p.1 := p.2]> t) t payloads)).
  { assert (Hk : Forall (fun p : Z * Db.row => - 2 ^ 63 < p.1 < 2 ^ 63 - 1) payloads).
    { apply payloadsOf_Normal in Hps. clear -Hps Hids.
      induction Hps as [|id p ids ps [t ->] _ IH]; [constructor|].
      apply Forall_cons in Hids as [Hid Hids]. constructor; [exact Hid|by apply IH]. }
    clear -Hk. induction Hk as [|[id row] ps Hid _ IH]; intros t; [done|].
    rewrite fmap_cons. cbn [BatchRoutes.runBatch foldl]. cbn [fst snd].
    rewrite rowid_integer by exact Hid. cbn [mbind completion_bind].
    apply IH. }
  unfold SyncPost.batchUpsertItems.
  etrans; [eapply batchUpsert_accepts; [| |exact Hmap|exact (Hrun tbl)]|].
  - destruct payloads; [by destruct ids|done].
  - by rewrite length_fmap, Hl.
  - by rewrite length_fmap, Hl.
Qed.

End PostFacts.

(** The ledger's trade 7, posted into an empty table. *)
Lemma sync_payloads_stored_verbatim_witness :
  Sync.payloadsOf [7] [Samples.ledgerTrade7] = JS.Normal [Sync.tradeToPayload 7 Samples.ledgerTrade7] /\
  @BatchRoutes.batchUpsert JS.sampleBuiltins ∅
    (SyncPost.batchUpsertItems [Sync.tradeToPayload 7 Samples.ledgerTrade7])
  = (<[7 := (Sync.tradeToPayload 7 Samples.ledgerTrade7).2]> ∅, BatchRoutes.Upserted 1).
Proof.
  split; [reflexivity|].
  assert (H1 : [7] <> []) by done.
  assert (H2 : (length [7] <= 2000)%nat) by (cbn; lia).
  assert (H3 : Forall (fun id => - 2 ^ 63 < id < 2 ^ 63 - 1) [7]) by (by repeat constructor).
  assert (H4 : Forall (fun t => JS.noWhiteSpace (Sync.t_trader t) = true /\
                 @WriteRoutes.invalidTrader (JS.toLowerCase (Sync.t_trader t)) = false)
                 [Samples.ledgerTrade7]) by (by repeat constructor).
  exact (@sync_payloads_stored_verbatim JS.sampleBuiltins ∅ [7] [Samples.ledgerTrade7]
           [Sync.tradeToPayload 7 Samples.ledgerTrade7] H1 H2 H3 H4 eq_refl).
Defined.

(** ** The proof client: endpoints and the shape of proofs *)

Section ProofMoreFacts.
Import JS Async ProofClient Invariants.
Context `{B : Builtins}.
Abbreviation ptask := (Async.task cache request response exn).

Lemma exec_tryEndpoints cands lastErr (c : cache) now script tr o :
  exec ((tryEndpoints cands lastErr : ptask string) c now) script = (tr, o) ->
  tr = take (length tr) ((fun e => Post (e_url e) (e_body e)) <$> cands) /\
  (length tr <= length cands)%nat /\
  (forall s e, o = Failed s e -> length tr = length cands) /\
  (forall i cand json s' now', (S i < length tr)%nat ->
     cands !! i = Some cand -> script !! i = Some (Normal json, s', now') ->
     truthy (orElse (e_pick cand json) (data_proof_bytes json)) = false) /\
  (forall s p, o = Finished s p ->
     (1 <= length tr)%nat /\
     exists cand json now',
       cands !! (length tr - 1)%nat = Some cand /\
       script !! (length tr - 1)%nat = Some (Normal json, s, now') /\
       truthy (orElse (e_pick cand json) (data_proof_bytes json)) = true /\
       p = ToString (orElse (e_pick cand json) (data_proof_bytes json))).
Proof.
  revert lastErr c now script tr o.
  induction cands as [|cand rest IH]; intros lastErr c now script tr o; cbn [tryEndpoints].
  - cbn. intros H. simplify_eq. cbn. split; [done|]. split; [done|]. split; [done|].
    split; [intros; lia|done].
  - task_unfold. cbn [exec]. destruct script as [|[[resp s1] now1] script'].
    + intros H. simplify_eq. cbn. split; [done|]. split; [lia|]. split; [done|].
      split; [intros; lia|done].
    + cbn [bind_step].
      assert (Hnext : forall err o' tr',
        match resp with
        | Normal json => truthy (orElse (e_pick cand json) (data_proof_bytes json)) = false
        | Throw _ => True
        end ->
        exec ((tryEndpoints rest err : ptask string) s1 now1) script' = (tr', o') ->
        Post (e_url cand) (e_body cand) :: tr'
        = take (length (Post (e_url cand) (e_body cand) :: tr'))
            ((fun e => Post (e_url e) (e_body e)) <$> cand :: rest) /\
        (length (Post (e_url cand) (e_body cand) :: tr') <= length (cand :: rest))%nat /\
        (forall s e, o' = Failed s e ->
           length (Post (e_url cand) (e_body cand) :: tr') = length (cand :: rest)) /\
        (forall i cand' json s' now',
           (S i < length (Post (e_url cand) (e_body cand) :: tr'))%nat ->
           (cand :: rest) !! i = Some cand' ->
           ((resp, s1, now1) :: script') !! i = Some (Normal json, s', now') ->
           truthy (orElse (e_pick cand' json) (data_proof_bytes json)) = false) /\
        (forall s p, o' = Finished s p ->
           (1 <= length (Post (e_url cand) (e_body cand) :: tr'))%nat /\
           exists cand' json now',
             (cand :: rest) !! (length (Post (e_url cand) (e_body cand) :: tr') - 1)%nat
             = Some cand' /\
             ((resp, s1, now1) :: script')
               !! (length (Post (e_url cand) (e_body cand) :: tr') - 1)%nat
             = Some (Normal json, s, now') /\
             truthy (orElse (e_pick cand' json) (data_proof_bytes json)) = true /\
             p = ToString (orElse (e_pick cand' json) (data_proof_bytes json)))).
      { intros err o' tr' Hresp H. apply IH in H as (Htr & Hlen & Hf & Hearlier & Hs).
        cbn [length fmap list_fmap take]. split; [by rewrite <- Htr|].
        split; [lia|]. split; [|split].
        - intros s e He. by rewrite (Hf s e He).
        - intros [|i] cand' json s' now' Hi Hc Hsc; cbn in Hc, Hsc.
          + by simplify_eq.
          + apply (Hearlier i cand' json s' now'); [lia|done|done].
        - intros s p Hp.
          destruct (Hs s p Hp) as (Hpos & cand' & json & now' & Hc & Hj & Ht & Hpr).
          split; [lia|]. exists cand', json, now'.
          replace (S (length tr') - 1)%nat with (S (length tr' - 1)) by lia. done. }
      destruct resp as [json|e].
      * destruct (truthy (orElse (e_pick cand json) (data_proof_bytes json))) eqn:Ht.
        -- cbn. intros H. simplify_eq. cbn. split; [done|]. split; [lia|].
           split; [done|]. split; [intros; lia|].
           intros s p Hp. simplify_eq. split; [lia|]. by eexists _, _, _.
        -- destruct (exec _ script') as [tr' o'] eqn:E. intros H. simplify_eq.
           by eapply Hnext.
      * destruct (exec _ script') as [tr' o'] eqn:E. intros H. simplify_eq.
        by eapply Hnext.
Qed.

(** X14. [getProof] with no pair index throws at once and posts nothing.
    Otherwise it posts to the service address, with the trailing slashes of
    the address dropped, then to its /rpc, /v2/pull/get_proof,
    /pull-service/get_proof and /get_proof paths, in that order and each at
    most once; it fails only after all five have been tried. It returns
    the first proof it finds: every earlier post was answered with an
    error or with a JSON that holds no proof, and what it returns is the
    string of the proof in the JSON that answered the last post, read
    under [result.proof_bytes], [result.proofBytes], [proof_bytes],
    [proofBytes] from the first two endpoints, under [proof_bytes],
    [proofBytes], [data.proof_bytes], [data.proofBytes] from the others,
    and under [data.proof_bytes] as a last resort. *)
Theorem get_proof_tries_endpoints_in_order (address : string) (pairs : list Z)
    (chain : string) (c : cache) now script tr o :
  exec ((getProof address pairs chain : ptask string) c now) script = (tr, o) ->
  (pairs = [] ->
   tr = [] /\ o = Failed c (Error "pair_indexes must be a non-empty array" None)) /\
  (pairs <> [] ->
   let a := stripTrailingSlashes address in
   let ch := strOr chain "evm" in
   let found (i : nat) (j : proofJson) : jsval :=
     orElse
       (if (i <? 2)%nat
        then orElse (orElse (orElse (result_proof_bytes j) (result_proofBytes j))
                       (proof_bytes j)) (proofBytes j)
        else orElse (orElse (orElse (proof_bytes j) (proofBytes j))
                       (data_proof_bytes j)) (data_proofBytes j))
       (data_proof_bytes j) in
   tr = take (length tr)
          [Post a (RpcBody pairs ch);
           Post (a +:+ "/rpc") (RpcBody pairs ch);
           Post (a +:+ "/v2/pull/get_proof") (RestBody pairs ch);
           Post (a +:+ "/pull-service/get_proof") (RestBody pairs ch);
           Post (a +:+ "/get_proof") (RestBody pairs ch)] /\
   (length tr <= 5)%nat /\
   (forall s e, o = Failed s e -> length tr = 5%nat) /\
   (forall i json s' now', (S i < length tr)%nat ->
      script !! i = Some (Normal json, s', now') -> truthy (found i json) = false) /\
   (forall s p, o = Finished s p ->
      (1 <= length tr)%nat /\
      exists json now',
        script !! (length tr - 1)%nat = Some (Normal json, s, now') /\
        truthy (found (length tr - 1)%nat json) = true /\
        p = ToString (found (length tr - 1)%nat json))).
Proof.
  unfold getProof. intros H. split.
  - intros ->. cbn in H. by simplify_eq.
  - intros Hne. cbv zeta. rewrite bool_decide_eq_false_2 in H by done.
    set (a := stripTrailingSlashes address) in *. set (ch := strOr chain "evm") in *.
    apply exec_tryEndpoints in H as (Htr & Hlen & Hf & Hearlier & Hs).
    assert (Hpick : forall i cand json,
      endpoints a pairs ch !! i = Some cand ->
      orElse (e_pick cand json) (data_proof_bytes json)
      = orElse
          (if (i <? 2)%nat
           then orElse (orElse (orElse (result_proof_bytes json) (result_proofBytes json))
                          (proof_bytes json)) (proofBytes json)
           else orElse (orElse (orElse (proof_bytes json) (proofBytes json))
                          (data_proof_bytes json)) (data_proofBytes json))
          (data_proof_bytes json)).
    { intros i cand json Hi.
      do 5 (destruct i as [|i]; [cbn in Hi; by simplify_eq|]). done. }
    split; [exact Htr|]. split; [exact Hlen|]. split; [exact Hf|]. split.
    + intros i json s' now' Hi Hsc.
      destruct (lookup_lt_is_Some_2 (endpoints a pairs ch) i) as [cand Hc];
        [cbn in Hlen |- *; lia|].
      rewrite <- (Hpick i cand json Hc). by eapply Hearlier.
    + intros s p Hp.
      destruct (Hs s p Hp) as (Hpos & cand & json & now' & Hc & Hj & Ht & ->).
      split; [done|]. exists json, now'.
      by rewrite <- (Hpick _ cand json Hc).
Qed.

Lemma keeps_tryEndpoints I cands lastErr (c : cache) now :
  I c -> keeps I ((tryEndpoints cands lastErr : ptask string) c now).
Proof.
  revert lastErr c now. induction cands as [|cand rest IH]; intros lastErr c now Hc;
    cbn [tryEndpoints]; [done|].
  task_unfold. cbn. split; [done|]. intros resp s' now' Hs'.
  destruct resp as [json|e]; [|by apply IH].
  destruct (truthy (orElse (e_pick cand json) (data_proof_bytes json))); [done|].
  by apply IH.
Qed.

Lemma normalizeProof_0x p : startsWith "0x" (normalizeProof p) = true.
Proof.
  unfold normalizeProof. destruct (startsWith "0x" p) eqn:E; [done|].
  by change ("0x" +:+ p)%string with (String "0" (String "x" p)).
Qed.

(** X15. Every proof the fetcher returns starts with 0x, whether it comes
    from the cache or from the service, and every proof it caches does: a
    cache whose proofs all start with 0x stays so, as long as what other
    calls put into it meanwhile starts with 0x too. *)
Theorem fetched_proofs_start_with_0x (doraRpc chainType : string) (pairs : list Z)
    (c : cache) now :
  hexProofs c ->
  keeps hexProofs ((fetchProof doraRpc chainType pairs : ptask string) c now) /\
  ensures (fun _ proof => startsWith "0x" proof = true)
    ((fetchProof doraRpc chainType pairs : ptask string) c now).
Proof.
  intros Hc. unfold fetchProof. task_unfold.
  assert (Hfetch : forall key,
    keeps hexProofs
      (bind_step now ((getProof doraRpc pairs chainType : ptask string) c now)
         (fun data s0 now0 =>
            bind_step now0
              (Return (<[key := (normalizeProof data, now)]> s0) tt)
              (fun _ s1 _ => Return s1 (normalizeProof data)))) /\
    ensures (fun _ proof => startsWith "0x" proof = true)
      (bind_step now ((getProof doraRpc pairs chainType : ptask string) c now)
         (fun data s0 now0 =>
            bind_step now0
              (Return (<[key := (normalizeProof data, now)]> s0) tt)
              (fun _ s1 _ => Return s1 (normalizeProof data))))).
  { intros key. split.
    - apply keeps_bind.
      + unfold getProof. case_bool_decide; [done|]. by apply keeps_tryEndpoints.
      + intros data s0 now0 Hs0. cbn. intros k p ts Hk.
        apply lookup_insert_Some in Hk as [[_ Hk]|[_ Hk]]; [|by eapply Hs0].
        simplify_eq. apply normalizeProof_0x.
    - apply ensures_bind, ensures_always. intros s0 data now0. cbn.
      apply normalizeProof_0x. }
  destruct (c !! makeKey pairs) as [[proof ts]|] eqn:E; [|apply Hfetch].
  destruct (now - ts <? 1000); [|apply Hfetch].
  cbn. split; [done|]. by eapply Hc.
Qed.

End ProofMoreFacts.

(** The fetcher on an empty cache: the invariant holds. *)
Lemma fetched_proofs_start_with_0x_witness :
  Invariants.keeps Invariants.hexProofs
    (@ProofClient.fetchProof JS.sampleBuiltins "http://dora/" "evm" [5000] ∅ 1000) /\
  Async.ensures (fun _ proof => JS.startsWith "0x" proof = true)
    (@ProofClient.fetchProof JS.sampleBuiltins "http://dora/" "evm" [5000] ∅ 1000).
Proof.
  apply (@fetched_proofs_start_with_0x JS.sampleBuiltins).
  intros key proof ts H. rewrite lookup_empty in H. discriminate H.
Defined.

(** A fetch from http://dora/ whose first two posts fail and whose third
    is answered with a proof: three posts, to the address without its
    slash, to /rpc and to /v2/pull/get_proof, and the proof of the third
    answer is returned. *)
Lemma get_proof_tries_endpoints_in_order_witness :
  let answer :=
    {| ProofClient.result_proof_bytes := JS.JUndefined;
       ProofClient.result_proofBytes := JS.JUndefined;
       ProofClient.proof_bytes := JS.JStr "abcd";
       ProofClient.proofBytes := JS.JUndefined;
       ProofClient.data_proof_bytes := JS.JUndefined;
       ProofClient.data_proofBytes := JS.JUndefined |} in
  let run :=
    Async.exec
      (@ProofClient.getProof JS.sampleBuiltins "http://dora/" [5000] "" ∅ 0)
      [(JS.Throw (JS.Error "HTTP 404" None), (∅ : gmap string (string * Z)), 1);
       (JS.Throw (JS.Error "HTTP 404" None), ∅, 2);
       (JS.Normal answer, ∅, 3)] in
  run.1
  = [ProofClient.Post "http://dora" (ProofClient.RpcBody [5000] "evm");
     ProofClient.Post "http://dora/rpc" (ProofClient.RpcBody [5000] "evm");
     ProofClient.Post "http://dora/v2/pull/get_proof" (ProofClient.RestBody [5000] "evm")] /\
  exists s p, run.2 = Async.Finished s p /\ p = "abcd"%string.
Proof.
  intros answer run. subst run.
  match goal with |- (Async.exec ?x ?sc).1 = _ /\ _ => destruct (Async.exec x sc) as [tr o] eqn:E end.
  pose proof E as E'. vm_compute in E'. injection E' as Htr Ho.
  destruct (@get_proof_tries_endpoints_in_order JS.sampleBuiltins _ _ _ _ _ _ _ _ E)
    as [_ H].
  destruct (H ltac:(discriminate)) as (Htake & _ & _ & _ & Hret).
  cbn [fst snd]. split.
  - rewrite Htake. replace (length tr) with 3%nat by (by rewrite <- Htr).
    vm_compute. reflexivity.
  - assert (Ho' : o = Async.Finished ∅ "abcd"%string) by (by rewrite <- Ho).
    exists ∅, "abcd"%string. split; [exact Ho'|].
    destruct (Hret _ _ Ho') as (_ & json & now' & Hj & _ & Hp).
    replace (length tr) with 3%nat in Hj, Hp by (by rewrite <- Htr).
    cbn in Hj. injection Hj as <- _. done.
Defined.

(** ** Reconciliation: batches, full mode and SL/TP mode *)

Section SyncMoreFacts.
Import JS Async Sync SyncSLTP.
Abbreviation ltask := (Async.task Db.table request response exn).

Lemma chunkFrom_spec (size fuel : nat) (arr : list Z) :
  (0 < size)%nat -> (length arr <= fuel)%nat ->
  concat (chunkFrom fuel size arr) = arr /\
  Forall (fun b => (0 < length b <= size)%nat) (chunkFrom fuel size arr) /\
  (forall i b, chunkFrom fuel size arr !! i = Some b ->
     b = take size (drop (i * size) arr) /\
     ((S i < length (chunkFrom fuel size arr))%nat -> length b = size)).
Proof.
  intros Hsize. revert arr. induction fuel as [|fuel IH]; intros arr Hlen.
  - destruct arr; [|cbn in Hlen; lia]. cbn. split; [done|]. split; [constructor|].
    intros i b Hi. by rewrite lookup_nil in Hi.
  - cbn [chunkFrom]. destruct arr as [|x arr'].
    + cbn. split; [done|]. split; [constructor|]. intros i b Hi.
      by rewrite lookup_nil in Hi.
    + assert (Hpos : (0 < length (x :: arr'))%nat) by (cbn; lia).
      revert Hlen Hpos. generalize (x :: arr'). intros arr Hlen Hpos.
      destruct (IH (drop size arr)) as (Hc & Hf & Hi).
      { rewrite length_drop. lia. }
      cbn [concat]. rewrite Hc, take_drop. split; [done|]. split.
      * constructor; [|done]. rewrite length_take. lia.
      * intros [|i] b Hb; cbn in Hb.
        -- injection Hb as <-. split; [done|]. cbn [length]. intros Hmore.
           rewrite length_take. apply Nat.min_l.
           destruct (chunkFrom fuel size (drop size arr)) as [|b' ?] eqn:Ech;
             [cbn in Hmore; lia|].
           rewrite Forall_cons in Hf. destruct Hf as [Hb' _].
           destruct (Hi 0%nat b' eq_refl) as [-> _].
           rewrite length_take, !length_drop in Hb'. lia.
        -- destruct (Hi i b Hb) as [-> Hfull]. split.
           ++ by rewrite drop_drop.
           ++ cbn [length]. intros Hmore. apply Hfull. lia.
Qed.

(** X7. The batches of a run of [main] are the requested ids within
    [1, maxExistingId], in order: batch [i] is the slice of 50 from
    position [50 i], every batch has between 1 and 50 ids, and every batch
    but the last has 50. *)
Theorem batches_cover (ids : list Z) (maxExistingId : Z) :
  let kept := filter (fun id => 1 <= id /\ id <= maxExistingId) ids in
  concat (batches ids maxExistingId) = kept /\
  Forall (fun b => (0 < length b <= 50)%nat) (batches ids maxExistingId) /\
  (forall i b, batches ids maxExistingId !! i = Some b ->
     b = take 50 (drop (i * 50) kept) /\
     ((S i < length (batches ids maxExistingId))%nat -> length b = 50%nat)).
Proof.
  intros kept. unfold batches, chunk. fold kept.
  apply (chunkFrom_spec BATCH_SIZE); unfold BATCH_SIZE; lia.
Qed.

(** X8. [syncFull] on no id returns 0 and asks nothing. Otherwise it
    first fetches exactly the ids it was given; when the ledger answers
    with fewer trades than ids it throws and posts nothing; every batch it
    posts carries exactly the given ids, in order; and it returns the count
    the write API answers with, or the number of ids when the answer has
    none. *)
Theorem sync_full_posts_requested_ids (ids : list Z) (tbl : Db.table) now script :
  (ids = [] ->
   exec ((syncFull ids : ltask Z) tbl now) script = ([], Finished tbl 0)) /\
  (ids <> [] ->
   exists k, (syncFull ids : ltask Z) tbl now = Await tbl (GetTradesFromList ids) k /\
     forall trades s1 now1,
       ((length trades < length ids)%nat ->
        exists e, k (Trades trades) s1 now1 = Raise s1 e) /\
       ((length ids <= length trades)%nat ->
        exists payloads k2,
          payloads.*1 = ids /\
          k (Trades trades) s1 now1 = Await s1 (PostBatchUpsert payloads) k2 /\
          forall cnt s2 now2,
            k2 (Posted cnt) s2 now2
            = Return s2 (default (Z.of_nat (length ids)) cnt))).
Proof.
  split.
  - intros ->. by destruct script.
  - intros Hne. unfold syncFull. rewrite bool_decide_eq_false_2 by done.
    task_unfold. eexists. split; [done|]. intros trades s1 now1. cbn.
    assert (Hshort : forall (l : list Z) (ts : list ledgerTrade),
      (length ts < length l)%nat -> exists e, payloadsOf l ts = Throw e).
    { induction l as [|id l IH]; intros ts Hlt; [cbn in Hlt; lia|].
      destruct ts as [|t ts]; cbn; [eauto|].
      destruct (IH ts) as [e ->]; [cbn in Hlt; lia|]. cbn. eauto. }
    assert (Hlong : forall (l : list Z) (ts : list ledgerTrade),
      (length l <= length ts)%nat -> exists ps, payloadsOf l ts = Normal ps).
    { induction l as [|id l IH]; intros ts Hle; [cbn; eauto|].
      destruct ts as [|t ts]; [cbn in Hle; lia|]. cbn.
      destruct (IH ts) as [ps ->]; [cbn in Hle; lia|]. cbn. eauto. }
    split.
    + intros Hlt. destruct (Hshort ids trades Hlt) as [e ->]. cbn. eauto.
    + intros Hle. destruct (Hlong ids trades Hle) as [ps Hps]. rewrite Hps. cbn.
      pose proof (payloadsOf_ids _ _ _ Hps) as Hids.
      eexists ps, _. split; [done|]. split; [done|].
      intros cnt s2 now2. cbn.
      assert (length ps = length ids) as -> by (by rewrite <- Hids, length_fmap).
      done.
Qed.

(** The second loop of [syncSLTP] pushes a patch for exactly the present
    ids whose row is still there and whose fetched stop-loss or take-profit
    is not the stored one, in order, with the fetched values. *)
Lemma compareSLTP_spec (tbl : Db.table) present sls tps missing patches :
  exists pushed,
    (compareSLTP tbl present sls tps missing patches).2 = patches ++ pushed /\
    pushed.*1.*1 `sublist_of` present /\
    forall id sl tp, (id, sl, tp) ∈ pushed <->
      exists i row, present !! i = Some id /\ tbl !! id = Some row /\
        sl = default 0 (sls !! i) /\ tp = default 0 (tps !! i) /\
        (sl <> Db.stopLoss row \/ tp <> Db.takeProfit row).
Proof.
  revert sls tps missing patches.
  induction present as [|id0 rest IH]; intros sls tps missing patches.
  - exists []. cbn. rewrite app_nil_r. split; [done|]. split; [done|].
    intros id sl tp. split; [by intros ?%elem_of_nil|].
    intros (i & row & Hi & _). by rewrite lookup_nil in Hi.
  - cbn [compareSLTP].
    assert (Hidx : forall (l : list Z) i, l !! S i = tail l !! i) by (by intros []).
    assert (Hhd : forall l : list Z, l !! 0%nat = head l) by (by intros []).
    assert (Hshift : forall (pushed : list (Z * Z * Z)),
      (forall id sl tp, (id, sl, tp) ∈ pushed <->
         exists i row, rest !! i = Some id /\ tbl !! id = Some row /\
           sl = default 0 (tail sls !! i) /\ tp = default 0 (tail tps !! i) /\
           (sl <> Db.stopLoss row \/ tp <> Db.takeProfit row)) ->
      forall id sl tp, (id, sl, tp) ∈ pushed <->
         exists i row, (id0 :: rest) !! S i = Some id /\ tbl !! id = Some row /\
           sl = default 0 (sls !! S i) /\ tp = default 0 (tps !! S i) /\
           (sl <> Db.stopLoss row \/ tp <> Db.takeProfit row)).
    { intros pushed Hp id sl tp. rewrite Hp. by setoid_rewrite Hidx. }
    destruct (tbl !! id0) as [row0|] eqn:Erow.
    + destruct (negb (default 0 (head sls) =? Db.stopLoss row0)
                || negb (default 0 (head tps) =? Db.takeProfit row0)) eqn:Hd.
      * destruct (IH (tail sls) (tail tps) missing
                    (patches ++ [(id0, default 0 (head sls), default 0 (head tps))]))
          as (pushed & -> & Hsub & Hin).
        exists ((id0, default 0 (head sls), default 0 (head tps)) :: pushed).
        split; [by rewrite <- app_assoc|]. split; [by apply sublist_skip|].
        intros id sl tp. rewrite elem_of_cons, (Hshift pushed Hin). split.
        -- intros [Heq|(i & row & H)].
           ++ injection Heq as -> -> ->. exists 0%nat, row0. rewrite !Hhd.
              split; [done|]. split; [done|]. split; [done|]. split; [done|].
              apply orb_true_iff in Hd as [Hd|Hd]; apply negb_true_iff, Z.eqb_neq in Hd;
                tauto.
           ++ exists (S i), row. done.
        -- intros ([|i] & row & Hi & H).
           ++ cbn in Hi. injection Hi as <-. rewrite !Hhd in H.
              destruct H as (_ & -> & -> & _). by left.
           ++ right. by exists i, row.
      * destruct (IH (tail sls) (tail tps) missing patches) as (pushed & -> & Hsub & Hin).
        exists pushed. split; [done|]. split; [by apply sublist_cons|].
        intros id sl tp. rewrite (Hshift pushed Hin). split.
        -- intros (i & row & H). by exists (S i), row.
        -- intros ([|i] & row & Hi & H); [|by exists i, row].
           cbn in Hi. injection Hi as <-. rewrite !Hhd in H.
           destruct H as (Hr & -> & -> & Hne). rewrite Erow in Hr. injection Hr as <-.
           apply orb_false_iff in Hd as [Hd1 Hd2].
           apply negb_false_iff, Z.eqb_eq in Hd1, Hd2. tauto.
    + destruct (IH (tail sls) (tail tps) (missing ++ [id0]) patches)
        as (pushed & -> & Hsub & Hin).
      exists pushed. split; [done|]. split; [by apply sublist_cons|].
      intros id sl tp. rewrite (Hshift pushed Hin). split.
      * intros (i & row & H). by exists (S i), row.
      * intros ([|i] & row & Hi & H); [|by exists i, row].
        cbn in Hi. injection Hi as <-. destruct H as (Hr & _). congruence.
Qed.

Lemma exec_sltpPhase present missing um (tbl : Db.table) now script tr tbl' res :
  exec ((sltpPhase present missing um : ltask _) tbl now) script
  = (tr, Finished tbl' res) ->
  (present = [] /\ tr = []) \/
  (present <> [] /\
   exists sls tps s1 now1 rest,
     script = (SLTP sls tps, s1, now1) :: rest /\
     let patches := (compareSLTP s1 present sls tps missing []).2 in
     (patches = [] /\ tr = [GetSLTPFromList present] /\ patched res = 0) \/
     (patches <> [] /\
      tr = [GetSLTPFromList present; PostBatchPatchSLTP patches])).
Proof.
  unfold sltpPhase. case_bool_decide as Hp.
  - cbn. intros H. simplify_eq. by left.
  - task_unfold. cbn [exec]. intros H.
    destruct script as [|[[resp s1] now1] rest]; [done|].
    destruct resp as [|sls tps| | |e]; cbn in H; try discriminate H.
    right. split; [done|]. exists sls, tps, s1, now1, rest. split; [done|].
    destruct (compareSLTP s1 present sls tps missing []) as [m patches]. cbn [snd].
    cbn in H. case_bool_decide as Hn.
    + cbn in H. simplify_eq. by left.
    + right. split; [done|]. cbn in H.
      destruct rest as [|[[resp2 s2] now2] rest]; [done|].
      destruct resp2; cbn in H; by simplify_eq.
Qed.

(** X9. In a finished run of [syncSLTP], once the ledger's stop-losses and
    take-profits for the present ids have arrived, the only further request
    is one POST of SL/TP patches, when there are any: a patch for exactly
    the present ids whose row is stored at that time and whose fetched
    stop-loss or take-profit (0 when the ledger's list is short) is not the
    stored one, with the fetched values. An id whose row has gone by then
    is neither patched nor fetched in full. *)
Theorem sltp_sync_patches_differences ids max (tbl : Db.table) now script tr tbl' res :
  exec ((syncSLTP ids max : ltask _) tbl now) script = (tr, Finished tbl' res) ->
  forall present k sls tps tbl2 now2,
    tr !! k = Some (GetSLTPFromList present) ->
    script !! k = Some (SLTP sls tps, tbl2, now2) ->
    present = filter (fun id => id <= max /\ is_Some (tbl !! id)) ids /\
    exists patches,
      (forall id sl tp, (id, sl, tp) ∈ patches <->
         exists i row, present !! i = Some id /\ tbl2 !! id = Some row /\
           sl = default 0 (sls !! i) /\ tp = default 0 (tps !! i) /\
           (sl <> Db.stopLoss row \/ tp <> Db.takeProfit row)) /\
      patches.*1.*1 `sublist_of` present /\
      drop (S k) tr = (if bool_decide (patches = []) then []
                       else [PostBatchPatchSLTP patches]) /\
      (patches = [] -> patched res = 0).
Proof.
  unfold syncSLTP. task_unfold.
  rewrite partitionIds_filter. cbn [app].
  set (missing := filter (fun id => id <= max /\ tbl !! id = None) ids).
  set (present := filter (fun id => id <= max /\ is_Some (tbl !! id)) ids).
  intros H.
  assert (Hshape : exists first second um rest,
    tr = first ++ second /\
    (first = [] /\ rest = script \/
     exists payloads e1 e2,
       first = [GetTradesFromList missing; PostBatchUpsert payloads] /\
       script = e1 :: e2 :: rest) /\
    exists s now', exec ((sltpPhase present missing um : ltask _) s now') rest
                   = (second, Finished tbl' res)).
  { destruct (decide (missing = [])) as [Hm|Hm].
    - rewrite bool_decide_eq_true_2 in H by done. cbn [bind_step] in H.
      exists [], tr, 0, script. split; [done|]. split; [by left|]. eauto.
    - rewrite bool_decide_eq_false_2 in H by done.
      apply exec_syncFull_bind in H as
        (trades & payloads & cnt & s1 & now1 & s2 & now2 & rest & tr' & -> & Hpl & -> & E);
        [|done].
      eexists [GetTradesFromList missing; PostBatchUpsert payloads], tr', _, rest.
      split; [done|]. split; [|eauto]. right. by eexists payloads, _, _. }
  destruct Hshape as (first & second & um & rest & -> & Hfirst & s & now' & Hsecond).
  apply exec_sltpPhase in Hsecond.
  intros present' k sls tps tbl2 now2 Htr Hscript.
  destruct Hsecond as [[_ ->]|(Hpne & sls0 & tps0 & s1 & now1 & rest' & -> & Hs)].
  { rewrite app_nil_r in Htr.
    destruct Hfirst as [(-> & _)|(payloads & e1 & e2 & -> & _)]; [done|].
    by destruct k as [|[|k]]. }
  cbn zeta in Hs.
  assert (Hk : k = length first /\ present' = present).
  { destruct Hfirst as [(-> & _)|(payloads & e1 & e2 & -> & _)];
      destruct Hs as [(_ & -> & _)|(_ & ->)];
      repeat (destruct k as [|k]; cbn in Htr; simplify_eq; try done). }
  destruct Hk as [-> ->].
  assert (Hentry : script !! length first = Some (SLTP sls0 tps0, s1, now1)).
  { destruct Hfirst as [(-> & <-)|(payloads & e1 & e2 & -> & ->)]; done. }
  rewrite Hentry in Hscript. simplify_eq. split; [done|].
  destruct (compareSLTP_spec tbl2 present sls tps missing []) as (pushed & Hc & Hsub & Hin).
  cbn [app] in Hc. rewrite Hc in Hs. exists pushed. split; [done|]. split; [done|].
  destruct Hs as [(-> & -> & Hres)|(Hne & ->)].
  - rewrite bool_decide_eq_true_2 by done. split; [|done].
    apply drop_ge. rewrite length_app. cbn. lia.
  - rewrite bool_decide_eq_false_2 by done. split; [|done].
    replace (S (length first)) with (length (first ++ [GetSLTPFromList present]))
      by (rewrite length_app; cbn; lia).
    change [GetSLTPFromList present; PostBatchPatchSLTP pushed]
      with ([GetSLTPFromList present] ++ [PostBatchPatchSLTP pushed]).
    rewrite app_assoc. by rewrite drop_app_length.
Qed.

End SyncMoreFacts.

(** An SL/TP run over ids 7, 8 and 9: after the stop-losses and
    take-profits arrive, the one further request patches trade 8 with the
    ledger's stop-loss. *)
Lemma sltp_sync_patches_differences_witness :
  let tr :=
    (Async.exec (SyncSLTP.syncSLTP [7; 8; 9] 10 Samples.trades 0)
       SyncSamples.sltpAnswers).1 in
  exists patches,
    drop 3 tr = [Sync.PostBatchPatchSLTP patches] /\ (8, 64000000000, 0) ∈ patches.
Proof.
  intros tr. subst tr.
  destruct (Async.exec (SyncSLTP.syncSLTP [7; 8; 9] 10 Samples.trades 0)
              SyncSamples.sltpAnswers) as [tr o] eqn:E.
  pose proof E as E'. vm_compute in E'. injection E' as Htr Ho.
  rewrite <- Ho in E.
  assert (Hk : tr !! 2%nat = Some (Sync.GetSLTPFromList [7; 8])) by by rewrite <- Htr.
  destruct (sltp_sync_patches_differences _ _ _ _ _ _ _ _ E
              [7; 8] 2%nat [0; 64000000000] [0; 0] Samples.trades 3 Hk eq_refl)
    as (_ & patches & Hin & _ & Hdrop & _).
  assert (H8 : (8, 64000000000, 0) ∈ patches).
  { apply Hin. exists 1%nat, Samples.openLong. split; [reflexivity|].
    split; [reflexivity|]. split; [reflexivity|]. split; [reflexivity|].
    left. discriminate. }
  exists patches. cbn [fst]. split; [|exact H8].
  rewrite Hdrop. rewrite bool_decide_eq_false_2; [reflexivity|].
  intros ->. by apply elem_of_nil in H8.
Defined.

(** ** The wallet pool: who gets a wallet, and when *)

Section WalletMoreFacts.
Import JS WalletPool.
Context {Wallet : Type} (newWallet : string -> Wallet).
Implicit Types p : @pool Wallet.

Lemma scan_None_range p now remaining tries :
  scan p now remaining tries = None ->
  forall t b, (tries <= t < tries + remaining)%nat ->
    busyUntil p !! ((nextIndex p + t) mod length (wallets p))%nat = Some b -> now < b.
Proof.
  revert tries. induction remaining as [|k IH]; intros tries H t b Ht Hb; [lia|].
  cbn [scan] in H.
  destruct (decide (t = tries)) as [->|Hne].
  - rewrite Hb in H. destruct (Z.leb_spec b now); [done|lia].
  - destruct (busyUntil p !! ((nextIndex p + tries) mod length (wallets p))%nat) as [b0|].
    + destruct (b0 <=? now); [done|]. apply (IH (S tries) H t b); [lia|done].
    + apply (IH (S tries) H t b); [lia|done].
Qed.

Lemma round_robin_reaches (n start i : nat) :
  (i < n)%nat -> exists t, (t < n)%nat /\ ((start + t) mod n)%nat = i.
Proof.
  intros Hi. set (a := (start mod n)%nat).
  assert (Ha : (a < n)%nat) by (apply Nat.mod_upper_bound; lia).
  assert (Hmod : forall t, ((start + t) mod n = (a + t) mod n)%nat).
  { intros t. unfold a. by rewrite Nat.Div0.add_mod_idemp_l. }
  destruct (decide (a <= i)%nat).
  - exists (i - a)%nat. split; [lia|]. rewrite Hmod.
    replace (a + (i - a))%nat with i by lia. apply Nat.mod_small. lia.
  - exists (i + n - a)%nat. split; [lia|]. rewrite Hmod.
    replace (a + (i + n - a))%nat with (i + 1 * n)%nat by lia.
    rewrite Nat.Div0.mod_add. apply Nat.mod_small. lia.
Qed.

Lemma scan_None_all_busy p now :
  length (busyUntil p) = length (wallets p) ->
  scan p now (length (wallets p)) 0 = None ->
  forall b, b ∈ busyUntil p -> now < b.
Proof.
  intros Hwf H b Hb. apply list_elem_of_lookup in Hb as [i Hi].
  assert (Hlt : (i < length (wallets p))%nat).
  { rewrite <- Hwf. by eapply lookup_lt_Some. }
  destruct (round_robin_reaches (length (wallets p)) (nextIndex p) i Hlt) as (t & Ht & Heq).
  apply (scan_None_range p now _ 0 H t b); [lia|]. by rewrite Heq.
Qed.

Lemma mathMin_spec (l : list Z) m :
  mathMin l = Some m -> m ∈ l /\ forall b, b ∈ l -> m <= b.
Proof.
  destruct l as [|b0 bs]; [done|]. cbn. intros [= <-].
  revert b0. induction bs as [|b bs IH]; intros b0; cbn.
  - split; [by left|]. intros b ?%list_elem_of_singleton. lia.
  - destruct (IH (Z.min b0 b)) as [Hin Hle]. split.
    + apply elem_of_cons in Hin as [Heq|Hin]; [|by right; right].
      rewrite Heq. destruct (Z.min_spec b0 b) as [[_ ->]|[_ ->]]; [by left|].
      right. by left.
    + intros x Hx. assert (foldl Z.min (Z.min b0 b) bs <= Z.min b0 b).
      { apply Hle. by left. }
      apply elem_of_cons in Hx as [->|Hx]; [lia|].
      apply elem_of_cons in Hx as [->|Hx]; [lia|].
      apply Hle. by right.
Qed.

Lemma attempt_wf p now :
  length (busyUntil p) = length (wallets p) ->
  length (busyUntil (attempt p now).1) = length (wallets (attempt p now).1) /\
  wallets (attempt p now).1 = wallets p.
Proof.
  intros Hwf. unfold attempt. destruct (scan p now (length (wallets p)) 0); cbn; [|done].
  by rewrite length_insert.
Qed.

Lemma attempt_free p now :
  length (busyUntil p) = length (wallets p) ->
  (exists b, b ∈ busyUntil p /\ b <= now) ->
  exists p' w, attempt p now = (p', Acquired (Some w)).
Proof.
  intros Hwf (b & Hb & Hle). unfold attempt.
  destruct (scan p now (length (wallets p)) 0) as [i|] eqn:E.
  - destruct (scan_Some _ _ _ _ _ E) as (b' & Hb' & _).
    assert (Hlt : (i < length (wallets p))%nat).
    { rewrite <- Hwf. by eapply lookup_lt_Some. }
    apply lookup_lt_is_Some in Hlt as [w Hw]. rewrite Hw. eauto.
  - pose proof (scan_None_all_busy p now Hwf E b Hb). lia.
Qed.

Lemma attempts_wf p clock :
  length (busyUntil p) = length (wallets p) -> wallets p <> [] ->
  let q := foldl (fun p t => (attempt p t).1) p clock in
  length (busyUntil q) = length (wallets q) /\ wallets q <> [].
Proof.
  revert p. induction clock as [|t clock IH]; intros p Hwf Hne; [done|].
  cbn [foldl]. destruct (attempt_wf p t Hwf) as [Hl Hw].
  apply IH; [done|]. by rewrite Hw.
Qed.

(** X16. In every state of a pool that was constructed and then used, an
    iteration of [acquire] hands out a wallet exactly when some wallet is
    free (and then a wallet of the pool, never [undefined]); a sleep is
    bounded and leaves the pool as it was; and once the caller has slept for
    the time chosen, the next iteration finds a wallet free if no other
    caller took it: alone on the pool, [acquire] sleeps at most once. *)
Theorem wallet_pool_progress (privateKeys : list string) (delay : option Z)
    (p0 : @pool Wallet) (clock : list Z) now :
  construct newWallet privateKeys delay = Normal p0 ->
  let p := foldl (fun p t => (attempt p t).1) p0 clock in
  ((exists b, b ∈ busyUntil p /\ b <= now) <->
   exists p' w, attempt p now = (p', Acquired (Some w)) /\ w ∈ wallets p0) /\
  (forall p' w, attempt p now = (p', Acquired w) -> is_Some w) /\
  (forall ms, (attempt p now).2 = Sleep ms ->
     exists m, ms = Some m /\ (attempt p now).1 = p /\
       forall now', now + m <= now' ->
         exists w, acquire p [now; now'] = ((attempt p now').1, Some (Some w))).
Proof.
  intros Hc p.
  assert (Hp0 : length (busyUntil p0) = length (wallets p0) /\ wallets p0 <> []).
  { unfold construct in Hc. case_bool_decide as Hk; [done|].
    injection Hc as <-. cbn. rewrite length_replicate. split; [done|].
    by destruct privateKeys. }
  destruct Hp0 as [Hwf0 Hne0].
  destruct (attempts_wf p0 clock Hwf0 Hne0) as [Hwf Hne]. fold p in Hwf, Hne.
  assert (Hws : wallets p = wallets p0).
  { subst p. clear Hwf Hne Hne0 Hc. revert p0 Hwf0.
    induction clock as [|t clock IH]; intros p0 Hwf0; [done|].
    cbn [foldl]. destruct (attempt_wf p0 t Hwf0) as [Hl Hw].
    by rewrite IH, Hw. }
  assert (Hsome : forall t p' w, attempt p t = (p', Acquired w) ->
            exists x, w = Some x /\ x ∈ wallets p0).
  { intros t p' w H.
    apply attempt_cases in H as [(i & b & _ & Hb & _ & Hit & _)|[_ ?]];
      [|done].
    assert (Hlt : (i < length (wallets p))%nat).
    { rewrite <- Hwf. by eapply lookup_lt_Some. }
    apply lookup_lt_is_Some in Hlt as [x Hx]. exists x. split; [congruence|].
    rewrite <- Hws. by eapply list_elem_of_lookup_2. }
  split; [|split].
  - split.
    + intros Hfree. destruct (attempt_free p now Hwf Hfree) as (p' & w & H).
      exists p', w. split; [done|].
      destruct (Hsome _ _ _ H) as (x & ? & ?). by simplify_eq.
    + intros (p' & w & H & _).
      apply attempt_cases in H as [(i & b & _ & Hb & Hle & _)|[_ ?]];
        [|done].
      exists b. split; [by eapply list_elem_of_lookup_2|done].
  - intros p' w H. destruct (Hsome _ _ _ H) as (x & -> & _). by eexists.
  - intros ms H. destruct (attempt p now) as [p1 it] eqn:E. cbn in H. subst it.
    pose proof E as Hcase.
    apply attempt_cases in Hcase as [(i & b & _ & _ & _ & ? & _)|[-> Hms]]; [done|].
    injection Hms as ->.
    destruct (mathMin (busyUntil p)) as [earliest|] eqn:Em.
    2:{ destruct (busyUntil p) eqn:Eb; [|done]. cbn in Hwf.
        destruct (wallets p); [done|discriminate]. }
    exists (Z.max 10 (earliest - now)). split; [done|]. split; [done|].
    intros now' Hnow'. destruct (mathMin_spec _ _ Em) as [Hin _].
    destruct (attempt_free p now' Hwf) as (p' & w & H).
    { exists earliest. split; [done|lia]. }
    exists w. cbn [acquire]. by rewrite E, H.
Qed.

End WalletMoreFacts.

(** Two signers, both handed out at 5000: at 5500 the caller sleeps 500 ms
    and gets the first signer at 6000. *)
Lemma wallet_pool_progress_witness :
  let p0 := {| WalletPool.wallets := ["k1"; "k2"]%string;
               WalletPool.perWalletDelayMs := 1000;
               WalletPool.nextIndex := 0;
               WalletPool.busyUntil := [0; 0] |} in
  let p := foldl (fun p t => (WalletPool.attempt p t).1) p0 [5000; 5000] in
  WalletPool.construct (fun pk : string => pk) ["k1"; "k2"]%string None = JS.Normal p0 /\
  (WalletPool.attempt p 5500).2 = WalletPool.Sleep (Some 500) /\
  exists w, WalletPool.acquire p [5500; 6000]
            = ((WalletPool.attempt p 6000).1, Some (Some w)).
Proof.
  intros p0 p.
  assert (Hc : WalletPool.construct (fun pk : string => pk) ["k1"; "k2"]%string None
               = JS.Normal p0) by reflexivity.
  split; [exact Hc|]. split; [reflexivity|].
  destruct (wallet_pool_progress (fun pk : string => pk) _ _ p0 [5000; 5000] 5500 Hc)
    as (_ & _ & Hsleep).
  destruct (Hsleep (Some 500) eq_refl) as (m & Hm & _ & Hnext).
  injection Hm as <-. apply Hnext. lia.
Defined.
